(** * Pokédex REST API: a shallow embedding of the request handlers

    The repository ships two variants of the same Express application:
    - [src/index.js]: the Pokémon list lives in memory ([pokemonsList]) and
      is mirrored to [data/pokemons.json] on every mutating call;
    - the document-store variant: Pokémon and user accounts live in MongoDB
      behind Mongoose models, and two [/auth] routes are added.

    Both are embedded here as pure functions from a state and a request to
    a new state and a response.  JavaScript values are the values
    [JSON.parse] can build.  Numbers are IEEE 754 doubles: a decimal
    literal is rounded to the nearest double, ties to even, and overflows
    to an infinity.  The two zeros are one value: nothing the handlers do
    ([===], [==], [JSON.stringify], string conversion) tells them apart.
    A string is a sequence of code units below 256: Rocq's [ascii] is one
    code unit, and text beyond that range is outside the model. *)

From Stdlib Require Import ZArith NArith List String Ascii Bool Lia.
Import ListNotations.
Set Warnings "-register-all".
Local Open Scope string_scope.
Local Open Scope list_scope.
Local Open Scope Z_scope.

(* ===================================================================== *)
(** ** JavaScript values and the built-ins the handlers call             *)
(* ===================================================================== *)

Module Js.

(** *** Numbers

    A finite double is a whole number of units of [2^-1074], the spacing
    of the smallest doubles: [Finite u] is the number [u * 2^-1074].  The
    doubles are the values of at most 53 significant bits below
    [2^1024]. *)
Inductive number : Type :=
| NaN
| Infinity (negative : bool)
| Finite (units : Z).

(** The doubles around a magnitude of [n] units are [2^(ulp_shift n)]
    units apart. *)
Definition ulp_shift (n : Z) : Z := Z.max 0 (Z.log2 n - 52).

(** The magnitude [p / q], in units, rounded to the nearest double, and
    to the one with an even significand when it lies half-way. *)
Definition round_units (p q : Z) : Z :=
  let shift := ulp_shift (p / q) in
  let step := q * 2 ^ shift in
  let m := p / step in
  let r := p mod step in
  let up := if step <? 2 * r then true
            else if step =? 2 * r then Z.odd m else false in
  (if up then m + 1 else m) * 2 ^ shift.

(** The first magnitude, in units, that is no longer finite: [2^1024]. *)
Definition overflow : Z := 2 ^ 2098.

(** The double nearest to the fraction [p / q], with the given sign. *)
Definition to_number (negative : bool) (p q : Z) : number :=
  let u := round_units (p * 2 ^ 1074) q in
  if overflow <=? u then Infinity negative
  else Finite (if negative then - u else u).

(** The double nearest to the integer [z]: [z] itself up to [2^53]. *)
Definition Int (z : Z) : number := to_number (z <? 0) (Z.abs z) 1.

(** [m * 10^k] as a double. *)
Definition decimal (m k : Z) : number :=
  if 0 <=? k then to_number false (m * 10 ^ k) 1
  else to_number false m (10 ^ (- k)).

Definition negate (x : number) : number :=
  match x with
  | NaN => NaN
  | Infinity b => Infinity (negb b)
  | Finite u => Finite (- u)
  end.

(** A double is a magnitude of at most 53 significant bits. *)
Definition representable (u : Z) : Prop :=
  Z.abs u mod 2 ^ ulp_shift (Z.abs u) = 0 /\ Z.abs u < overflow.

(** A value built by [JSON.parse] (or by spreading such values).  The
    JavaScript [undefined] is not a JSON value: a property read that finds
    nothing is [None] in [option value]. *)
Inductive value : Type :=
| Null
| Bool (b : bool)
| Number (x : number)
| Str (s : string)
| Arr (items : list value)
| Obj (props : list (string * value)).

(** The number [z] as a value. *)
Definition Num (z : Z) : value := Number (Int z).

Arguments to_number : simpl never.
Arguments Int : simpl never.
Arguments Num : simpl never.

(** Induction on a value with the hypothesis for every element. *)
Section ValueInduction.
Variable P : value -> Prop.
Hypothesis HNull : P Null.
Hypothesis HBool : forall b, P (Bool b).
Hypothesis HNumber : forall x, P (Number x).
Hypothesis HStr : forall s, P (Str s).
Hypothesis HArr : forall l, Forall P l -> P (Arr l).
Hypothesis HObj : forall o, Forall (fun kv => P (snd kv)) o -> P (Obj o).

Fixpoint value_induction (v : value) : P v :=
  match v with
  | Null => HNull
  | Bool b => HBool b
  | Number x => HNumber x
  | Str s => HStr s
  | Arr l =>
      HArr l ((fix all (l : list value) : Forall P l :=
                 match l with
                 | [] => Forall_nil P
                 | x :: l' => Forall_cons x (value_induction x) (all l')
                 end) l)
  | Obj o =>
      HObj o ((fix all (o : list (string * value)) : Forall (fun kv => P (snd kv)) o :=
                 match o with
                 | [] => Forall_nil _
                 | kv :: o' => Forall_cons kv (value_induction (snd kv)) (all o')
                 end) o)
  end.
End ValueInduction.

Inductive js_error : Type :=
| TypeError (msg : string).

(** A JavaScript expression either yields a value or throws. *)
Inductive completion (A : Type) : Type :=
| Normal (a : A)
| Throw (e : js_error).
Arguments Normal {A} a.
Arguments Throw {A} e.

Definition bind {A B} (c : completion A) (k : A -> completion B) : completion B :=
  match c with
  | Normal a => k a
  | Throw e => Throw e
  end.

Notation "x <- c ;; k" := (bind c (fun x => k))
  (at level 61, c at next level, right associativity).

(** *** Characters and digits *)

(** White space and line terminators, as [parseInt], string-to-number
    conversion and [trim] skip them: TAB, LF, VT, FF, CR, space and the
    no-break space. *)
Definition is_ws (c : ascii) : bool :=
  let n := N_of_ascii c in
  ((9 <=? n) && (n <=? 13))%N || (n =? 32)%N || (n =? 160)%N.

(** The string that a source literal denotes: the literal's bytes are
    UTF-8, and each two-byte sequence of a character below 256 becomes
    that one code unit. *)
Fixpoint utf8 (s : string) : string :=
  match s with
  | String a ((String b r) as t) =>
      let x := N_of_ascii a in
      let y := N_of_ascii b in
      if ((x =? 194) || (x =? 195))%N && ((128 <=? y) && (y <=? 191))%N
      then String (ascii_of_N (if (x =? 194)%N then y else y + 64)) (utf8 r)
      else String a (utf8 t)
  | other => other
  end.

Definition digit_val (radix : Z) (c : ascii) : option Z :=
  let n := Z.of_N (N_of_ascii c) in
  let d := if (48 <=? n) && (n <=? 57) then Some (n - 48)
           else if (97 <=? n) && (n <=? 122) then Some (n - 87)
           else if (65 <=? n) && (n <=? 90) then Some (n - 55)
           else None in
  match d with
  | Some v => if v <? radix then Some v else None
  | None => None
  end.

Definition is_digit (radix : Z) (c : ascii) : bool :=
  match digit_val radix c with Some _ => true | None => false end.

(** The decimal digits. *)
Definition decimal_chars : list ascii :=
  ["0"; "1"; "2"; "3"; "4"; "5"; "6"; "7"; "8"; "9"]%char.

Fixpoint skip_ws (s : string) : string :=
  match s with
  | String c s' => if is_ws c then skip_ws s' else s
  | EmptyString => s
  end.

Fixpoint all_ws (s : string) : bool :=
  match s with
  | String c s' => is_ws c && all_ws s'
  | EmptyString => true
  end.

(** The longest prefix of radix-[radix] digits, and what follows it. *)
Fixpoint span_digits (radix : Z) (s : string) : string * string :=
  match s with
  | String c s' =>
      if is_digit radix c
      then let (ds, rest) := span_digits radix s' in (String c ds, rest)
      else (EmptyString, s)
  | EmptyString => (EmptyString, EmptyString)
  end.

Fixpoint all_digits (radix : Z) (s : string) : bool :=
  match s with
  | String c s' => is_digit radix c && all_digits radix s'
  | EmptyString => true
  end.

Definition starts_with_digit (radix : Z) (s : string) : bool :=
  match s with
  | String c _ => is_digit radix c
  | EmptyString => false
  end.

(** The mathematical value of a digit string, most significant first. *)
Fixpoint digits_value (radix : Z) (acc : Z) (ds : string) : Z :=
  match ds with
  | String c ds' =>
      match digit_val radix c with
      | Some d => digits_value radix (acc * radix + d) ds'
      | None => acc
      end
  | EmptyString => acc
  end.

(** *** Number to string ([String(n)] on an integer) *)

Definition digit_char (d : N) : ascii := ascii_of_N (48 + d).

Fixpoint decimal_digits (fuel : nat) (n : N) (acc : string) : string :=
  match fuel with
  | O => acc
  | S fuel' =>
      let acc' := String (digit_char (n mod 10)) acc in
      if (n / 10 =? 0)%N then acc' else decimal_digits fuel' (n / 10) acc'
  end.

(** [fuel] digits are enough to print [n]. *)
Definition enough (fuel : nat) (n : N) : Prop := (N.log2 n < N.of_nat fuel)%N.

Definition string_of_N (n : N) : string :=
  decimal_digits (S (N.to_nat (N.log2 n))) n EmptyString.

Definition string_of_Z (z : Z) : string :=
  if z <? 0 then String "-" (string_of_N (Z.abs_N z)) else string_of_N (Z.abs_N z).

Definition string_of_nat (n : nat) : string := string_of_N (N.of_nat n).

(** *** [parseInt(string)] with no radix argument *)

(** [prefix p s]: what follows [p] when [s] starts with it. *)
Fixpoint prefix (p s : string) : option string :=
  match p, s with
  | EmptyString, _ => Some s
  | String a p', String b s' => if Ascii.eqb a b then prefix p' s' else None
  | String _ _, EmptyString => None
  end.

(** An optional sign: its value and what follows it. *)
Definition read_sign (s : string) : Z * string :=
  match prefix "-" s with
  | Some r => (-1, r)
  | None =>
      match prefix "+" s with
      | Some r => (1, r)
      | None => (1, s)
      end
  end.

(** With no radix argument, a [0x] or [0X] prefix selects radix 16. *)
Definition read_radix_prefix (s : string) : Z * string :=
  match prefix "0x" s with
  | Some r => (16, r)
  | None =>
      match prefix "0X" s with
      | Some r => (16, r)
      | None => (10, s)
      end
  end.

(** The value of the longest digit prefix; [None] when there is no digit. *)
Definition read_integer (radix : Z) (s : string) : option Z :=
  let (ds, _) := span_digits radix s in
  match ds with
  | EmptyString => None
  | _ => Some (digits_value radix 0 ds)
  end.

(** The digits are read as an integer, and that integer rounded to a
    double, as V8 does. *)
Definition parseInt (s : string) : number :=
  let (sign, s2) := read_sign (skip_ws s) in
  let (radix, s3) := read_radix_prefix s2 in
  match read_integer radix s3 with
  | Some v => Int (sign * v)
  | None => NaN
  end.

(** *** String to number (the conversion [==] applies to a string) *)

(** An optional exponent part; a letter [e] not followed by digits is not
    consumed, so the caller sees it as trailing garbage. *)
Definition read_exponent (s : string) : Z * string :=
  match s with
  | String c r =>
      if (Ascii.eqb c "e" || Ascii.eqb c "E")%bool then
        let (esign, r1) := read_sign r in
        let (es, r2) := span_digits 10 r1 in
        match es with
        | EmptyString => (0, s)
        | _ => (esign * digits_value 10 0 es, r2)
        end
      else (0, s)
  | EmptyString => (0, s)
  end.

(** An unsigned decimal literal and what follows it. *)
Definition read_unsigned_decimal (s : string) : option (number * string) :=
  match prefix "Infinity" s with
  | Some r => Some (Infinity false, r)
  | None =>
      let (ip, r1) := span_digits 10 s in
      let (fp, r2) :=
        match prefix "." r1 with
        | Some r => span_digits 10 r
        | None => (EmptyString, r1)
        end in
      match ip, fp with
      | EmptyString, EmptyString => None
      | _, _ =>
          let (e, r3) := read_exponent r2 in
          let m := digits_value 10 (digits_value 10 0 ip) fp in
          Some (decimal m (e - Z.of_nat (String.length fp)), r3)
      end
  end.

Definition read_radix_literal (radix : Z) (s : string) : number :=
  let (ds, r) := span_digits radix s in
  match ds with
  | EmptyString => NaN
  | _ => if all_ws r then Int (digits_value radix 0 ds) else NaN
  end.

Definition first_some {A} (a b : option A) : option A :=
  match a with Some _ => a | None => b end.

(** The radix and digits of a [0x], [0o] or [0b] literal. *)
Definition radix_literal_prefix (t : string) : option (Z * string) :=
  match first_some (prefix "0x" t) (prefix "0X" t) with
  | Some r => Some (16, r)
  | None =>
      match first_some (prefix "0o" t) (prefix "0O" t) with
      | Some r => Some (8, r)
      | None =>
          match first_some (prefix "0b" t) (prefix "0B" t) with
          | Some r => Some (2, r)
          | None => None
          end
      end
  end.

(** A signed decimal literal followed by white space only. *)
Definition read_decimal_literal (t : string) : number :=
  let (neg, u) :=
    match prefix "-" t with
    | Some r => (true, r)
    | None =>
        match prefix "+" t with
        | Some r => (false, r)
        | None => (false, t)
        end
    end in
  match read_unsigned_decimal u with
  | Some (n, r) => if all_ws r then (if neg then negate n else n) else NaN
  | None => NaN
  end.

Definition StringToNumber (s : string) : number :=
  let t := skip_ws s in
  match t with
  | EmptyString => Int 0
  | _ =>
      match radix_literal_prefix t with
      | Some (radix, r) => read_radix_literal radix r
      | None => read_decimal_literal t
      end
  end.

(** A digit string of two characters or more that starts with a zero. *)
Definition leading_zero (ip : string) : bool :=
  match ip with
  | String d (String _ _) => Ascii.eqb d "0"
  | _ => false
  end.

(** *** The number grammar of JSON

    An optional minus sign, an integer part without leading zero, an
    optional fraction of one digit or more, an optional exponent. *)

Definition read_fraction (s : string) : option (string * string) :=
  match prefix "." s with
  | Some r =>
      let (fp, r') := span_digits 10 r in
      match fp with
      | EmptyString => None
      | _ => Some (fp, r')
      end
  | None => Some (EmptyString, s)
  end.

(** The exponent of a JSON number: a letter [e] must be followed by
    digits. *)
Definition read_json_exponent (s : string) : option (Z * string) :=
  match s with
  | String c r =>
      if (Ascii.eqb c "e" || Ascii.eqb c "E")%bool then
        let (esign, r1) := read_sign r in
        let (es, r2) := span_digits 10 r1 in
        match es with
        | EmptyString => None
        | _ => Some (esign * digits_value 10 0 es, r2)
        end
      else Some (0, s)
  | EmptyString => Some (0, s)
  end.

Definition json_unsigned (s : string) : option (number * string) :=
  let (ip, r1) := span_digits 10 s in
  match ip with
  | EmptyString => None
  | _ =>
      if leading_zero ip then None
      else
        match read_fraction r1 with
        | None => None
        | Some (fp, r2) =>
            match read_json_exponent r2 with
            | None => None
            | Some (e, r3) =>
                let m := digits_value 10 (digits_value 10 0 ip) fp in
                Some (decimal m (e - Z.of_nat (String.length fp)), r3)
            end
        end
  end.

(** The number a JSON text starts with, and what follows it. *)
Definition json_number (s : string) : option (number * string) :=
  match prefix "-" s with
  | Some r =>
      match json_unsigned r with
      | Some (x, r') => Some (negate x, r')
      | None => None
      end
  | None => json_unsigned s
  end.

(** *** Number to string ([String(x)], and the number text that
    [JSON.stringify] writes)

    A finite number prints as the decimal of the fewest significant
    digits that converts back to it; of several such decimals, the one
    nearest to the number. *)

Fixpoint zeros (n : nat) : string :=
  match n with
  | O => EmptyString
  | S n' => String "0" (zeros n')
  end.

(** The text of [s * 10^(n - k)], where [ds] holds the [k] digits of [s]:
    plain digits for a decimal point within 21 places, the point followed
    by up to five zeros, or the exponent notation. *)
Definition decimal_text (ds : string) (n : Z) : string :=
  let k := Z.of_nat (String.length ds) in
  if (k <=? n) && (n <=? 21) then (ds ++ zeros (Z.to_nat (n - k)))%string
  else if (0 <? n) && (n <=? 21) then
    (substring 0 (Z.to_nat n) ds ++ "."
     ++ substring (Z.to_nat n) (Z.to_nat (k - n)) ds)%string
  else if (-6 <? n) && (n <=? 0) then ("0." ++ zeros (Z.to_nat (- n)) ++ ds)%string
  else
    let e := n - 1 in
    let sign := if e <? 0 then "-" else "+" in
    let exponent := (sign ++ string_of_N (Z.abs_N e))%string in
    match ds with
    | String d ((String _ _) as rest) => (String d ("." ++ rest) ++ "e" ++ exponent)%string
    | _ => (ds ++ "e" ++ exponent)%string
    end.

(** The [n] with [10^(n-1) <= x < 10^n], for a magnitude [x] of [u > 0]
    units; [x * 10^324] is at least 1. *)
Definition decimal_exponent (u : Z) : Z :=
  Z.of_nat (String.length (string_of_N (Z.to_N (u * 10 ^ 324 / 2 ^ 1074)))) - 324.

(** The two decimals of [k] digits around the magnitude of [u] units,
    the nearer one first (of two equally near, the even one), as text. *)
Definition candidates (u n k : Z) : list string :=
  let t := n - k in
  let num := if t <? 0 then u * 10 ^ (- t) else u in
  let den := if t <? 0 then 2 ^ 1074 else 2 ^ 1074 * 10 ^ t in
  let lo := num / den in
  let r := num mod den in
  let text (s : Z) :=
    if s =? 10 ^ k
    then decimal_text (string_of_Z (10 ^ (k - 1))) (n + 1)
    else decimal_text (string_of_Z s) n in
  if (2 * r <? den) || ((2 * r =? den) && Z.even lo)
  then [text lo; text (lo + 1)]
  else [text (lo + 1); text lo].

Definition reads_as (u : Z) (text : string) : bool :=
  match json_number text with
  | Some (Finite v, EmptyString) => v =? u
  | _ => false
  end.

Fixpoint shortest (fuel : nat) (u n k : Z) : option string :=
  match fuel with
  | O => None
  | S fuel' =>
      match List.find (reads_as u) (candidates u n k) with
      | Some text => Some text
      | None => shortest fuel' u n (k + 1)
      end
  end.

(** The last [k] decimal digits of [n], leading zeros included. *)
Fixpoint fixed_digits (k : nat) (n : N) (acc : string) : string :=
  match k with
  | O => acc
  | S k' => fixed_digits k' (n / 10) (String (digit_char (n mod 10)) acc)
  end.

(** The magnitude of [u] units written out in full: [u * 5^1074], with
    the decimal point 1074 places from the right. *)
Definition exact_text (u : Z) : string :=
  let p := Z.to_N (u * 5 ^ 1074) in
  let q := (10 ^ 1074)%N in
  (string_of_N (p / q) ++ "." ++ fixed_digits 1074 (p mod q) EmptyString)%string.

(** Seventeen digits are always enough to tell a double from its
    neighbours; the full expansion in the last case is then never
    needed, and keeps the function total. *)
Definition magnitude_text (u : Z) : string :=
  match shortest 17 u (decimal_exponent u) 1 with
  | Some text => text
  | None => exact_text u
  end.

Definition number_to_string (x : number) : string :=
  match x with
  | NaN => "NaN"
  | Infinity b => if b then "-Infinity" else "Infinity"
  | Finite u =>
      if u =? 0 then "0"
      else if u <? 0 then ("-" ++ magnitude_text (- u))%string
      else magnitude_text u
  end.

(** *** Objects: own properties in the order JavaScript lists them

    The array indices come first, in ascending order, then the other
    names in the order of their creation. *)

Definition props := list (string * value).

Fixpoint lookup (k : string) (o : props) : option value :=
  match o with
  | [] => None
  | (k', v) :: o' => if String.eqb k k' then Some v else lookup k o'
  end.

(** The index a property name stands for, when it is an array index: the
    decimal form, without leading zero, of an integer below [2^32 - 1]. *)
Definition array_index (k : string) : option Z :=
  match k with
  | EmptyString => None
  | _ =>
      if all_digits 10 k && negb (leading_zero k) then
        let i := digits_value 10 0 k in
        if i <? 2 ^ 32 - 1 then Some i else None
      else None
  end.

(** A new property [k] is listed before the property [k']. *)
Definition listed_before (k k' : string) : bool :=
  match array_index k, array_index k' with
  | Some i, Some j => i <? j
  | Some _, None => true
  | None, _ => false
  end.

(** [o[k] = v]: overwrite in place, or create the property at its place
    in the order. *)
Fixpoint set_prop (k : string) (v : value) (o : props) : props :=
  match o with
  | [] => [(k, v)]
  | (k', v') :: o' =>
      if String.eqb k k' then (k', v) :: o'
      else if listed_before k k' then (k, v) :: o
      else (k', v') :: set_prop k v o'
  end.

Definition keys (o : props) : list string := map fst o.

(** The names are in the order JavaScript lists them: none would be
    listed before an earlier one. *)
Fixpoint ordered (ks : list string) : Prop :=
  match ks with
  | [] => True
  | k :: ks' => Forall (fun k' => listed_before k' k = false) ks' /\ ordered ks'
  end.

Fixpoint indexed (i : nat) (l : list value) : props :=
  match l with
  | [] => []
  | v :: l' => (string_of_nat i, v) :: indexed (S i) l'
  end.

Fixpoint chars (i : nat) (s : string) : props :=
  match s with
  | EmptyString => []
  | String c s' => (string_of_nat i, Str (String c EmptyString)) :: chars (S i) s'
  end.

(** The own enumerable properties that [...v] copies. *)
Definition own_props (v : value) : props :=
  match v with
  | Obj o => o
  | Arr l => indexed 0 l
  | Str s => chars 0 s
  | _ => []
  end.

Definition copy_props (src target : props) : props :=
  fold_left (fun acc kv => set_prop (fst kv) (snd kv) acc) src target.

(** [{ ...a, ...b }] *)
Definition spread2 (a b : value) : value :=
  Obj (copy_props (own_props b) (copy_props (own_props a) [])).

(** [p.id].  Reading a property of [null] throws; arrays, strings,
    numbers and booleans have no [id] on their prototype. *)
Definition get_id (p : value) : completion (option value) :=
  match p with
  | Null => Throw (TypeError "Cannot read properties of null (reading 'id')")
  | Obj o => Normal (lookup "id" o)
  | _ => Normal None
  end.

(** *** Equality *)

(** Equality of numbers: NaN equals nothing, not even itself. *)
Definition number_eq (a b : number) : bool :=
  match a, b with
  | Finite x, Finite y => x =? y
  | Infinity x, Infinity y => Bool.eqb x y
  | _, _ => false
  end.

(** [x === n] for a number [n]. *)
Definition strict_equals (x : option value) (n : number) : bool :=
  match x with
  | Some (Number y) => number_eq y n
  | _ => false
  end.

Definition has_own (k : string) (o : props) : bool :=
  match lookup k o with Some _ => true | None => false end.

(** Conversion of a value to a string, as [Array.prototype.join] and
    object-to-primitive coercion perform it.  No JSON value is callable, so
    an object with an own [toString] property shadows
    [Object.prototype.toString] with a non-function and the coercion throws;
    otherwise a plain object prints as [[object Object]]. *)
Fixpoint to_string (v : value) : completion string :=
  match v with
  | Null => Normal "null"
  | Bool true => Normal "true"
  | Bool false => Normal "false"
  | Number x => Normal (number_to_string x)
  | Str s => Normal s
  | Arr l =>
      (fix join (first : bool) (l : list value) : completion string :=
         match l with
         | [] => Normal EmptyString
         | x :: l' =>
             sx <- match x with Null => Normal EmptyString | _ => to_string x end ;;
             sr <- join false l' ;;
             Normal ((if first then EmptyString else ",") ++ sx ++ sr)%string
         end) true l
  | Obj o =>
      if has_own "toString" o
      then Throw (TypeError "Cannot convert object to primitive value")
      else Normal "[object Object]"
  end.

(** [x == n] for a number [n]. *)
Definition loose_equals (x : option value) (n : number) : completion bool :=
  match x with
  | None => Normal false
  | Some Null => Normal false
  | Some (Bool b) => Normal (number_eq (Int (if b then 1 else 0)) n)
  | Some (Number y) => Normal (number_eq y n)
  | Some (Str s) => Normal (number_eq (StringToNumber s) n)
  | Some v => s <- to_string v ;; Normal (number_eq (StringToNumber s) n)
  end.

(** *** Arrays *)

Fixpoint find (f : value -> completion bool) (l : list value) : completion (option value) :=
  match l with
  | [] => Normal None
  | p :: l' => b <- f p ;; if b then Normal (Some p) else find f l'
  end.

(** [findIndex]: [None] is the JavaScript [-1]. *)
Fixpoint findIndex (f : value -> completion bool) (l : list value) : completion (option nat) :=
  match l with
  | [] => Normal None
  | p :: l' =>
      b <- f p ;;
      if b then Normal (Some O)
      else r <- findIndex f l' ;; Normal (option_map S r)
  end.

(** [l[i] = v] for an index within the array. *)
Fixpoint assign (i : nat) (v : value) (l : list value) : list value :=
  match l, i with
  | [], _ => []
  | _ :: l', O => v :: l'
  | x :: l', S i' => x :: assign i' v l'
  end.

(** [l.splice(i, 1)]: the list without its [i]-th element. *)
Fixpoint splice1 (i : nat) (l : list value) : list value :=
  match l, i with
  | [], _ => []
  | _ :: l', O => l'
  | x :: l', S i' => x :: splice1 i' l'
  end.

End Js.

(* ===================================================================== *)
(** ** [JSON.stringify(v, null, 2)] and [JSON.parse]                     *)
(* ===================================================================== *)

Module Json.
Import Js.

Definition dquote : ascii := "034".
Definition backslash : ascii := "092".
Definition newline : ascii := "010".

Definition hex_char (d : N) : ascii :=
  if (d <? 10)%N then ascii_of_N (48 + d) else ascii_of_N (87 + d).

(** One character of a quoted JSON string. *)
Definition escape (c : ascii) : string :=
  let n := N_of_ascii c in
  if Ascii.eqb c dquote then String backslash (String dquote EmptyString)
  else if Ascii.eqb c backslash then String backslash (String backslash EmptyString)
  else if (n =? 8)%N then String backslash "b"
  else if (n =? 9)%N then String backslash "t"
  else if (n =? 10)%N then String backslash "n"
  else if (n =? 12)%N then String backslash "f"
  else if (n =? 13)%N then String backslash "r"
  else if (n <? 32)%N then
    String backslash
      (String "u" (String "0" (String "0"
         (String (hex_char (n / 16)) (String (hex_char (n mod 16)) EmptyString)))))
  else String c EmptyString.

Fixpoint quote_chars (s : string) : string :=
  match s with
  | EmptyString => EmptyString
  | String c s' => (escape c ++ quote_chars s')%string
  end.

Definition quote (s : string) : string :=
  String dquote (quote_chars s ++ String dquote EmptyString)%string.

Definition indent_more (ind : string) : string := String " " (String " " ind).

(** The elements of a non-empty array, one per line at indentation [ind]. *)
Definition elems_text (pr : value -> string) (ind : string) : list value -> string :=
  fix elems (l : list value) : string :=
    match l with
    | [] => EmptyString
    | x :: l' =>
        (ind ++ pr x ++
         match l' with
         | [] => EmptyString
         | _ => String "," (String newline (elems l'))
         end)%string
    end.

(** The members of a non-empty object, one per line at indentation [ind]. *)
Definition members_text (pr : value -> string) (ind : string) : props -> string :=
  fix members (o : props) : string :=
    match o with
    | [] => EmptyString
    | (k, x) :: o' =>
        (ind ++ quote k ++ ": " ++ pr x ++
         match o' with
         | [] => EmptyString
         | _ => String "," (String newline (members o'))
         end)%string
    end.

Fixpoint stringify_at (ind : string) (v : value) : string :=
  match v with
  | Null => "null"
  | Bool true => "true"
  | Bool false => "false"
  | Number (Finite u) => number_to_string (Finite u)
  | Number _ => "null"
  | Str s => quote s
  | Arr [] => "[]"
  | Arr l =>
      let ind' := indent_more ind in
      String "[" (String newline
        (elems_text (stringify_at ind') ind' l ++ String newline (ind ++ "]")))%string
  | Obj [] => "{}"
  | Obj o =>
      let ind' := indent_more ind in
      String "{" (String newline
        (members_text (stringify_at ind') ind' o ++ String newline (ind ++ "}")))%string
  end.

(** [JSON.stringify(v, null, 2)] *)
Definition stringify (v : value) : string := stringify_at EmptyString v.

(** *** Parsing *)

Definition is_jws (c : ascii) : bool :=
  let n := N_of_ascii c in
  ((n =? 32) || (n =? 9) || (n =? 10) || (n =? 13))%N.

Fixpoint skip_jws (s : string) : string :=
  match s with
  | String c s' => if is_jws c then skip_jws s' else s
  | EmptyString => s
  end.

Definition unescape (e : ascii) : option ascii :=
  if Ascii.eqb e dquote then Some dquote
  else if Ascii.eqb e backslash then Some backslash
  else if Ascii.eqb e "/" then Some "/"%char
  else if Ascii.eqb e "b" then Some "008"%char
  else if Ascii.eqb e "t" then Some "009"%char
  else if Ascii.eqb e "n" then Some "010"%char
  else if Ascii.eqb e "f" then Some "012"%char
  else if Ascii.eqb e "r" then Some "013"%char
  else None.

(** The code unit of a [\uXXXX] escape, when it fits the byte model. *)
Definition hex4 (a b c d : ascii) : option ascii :=
  match digit_val 16 a, digit_val 16 b, digit_val 16 c, digit_val 16 d with
  | Some x, Some y, Some z, Some w =>
      let code := ((x * 16 + y) * 16 + z) * 16 + w in
      if code <? 256 then Some (ascii_of_N (Z.to_N code)) else None
  | _, _, _, _ => None
  end.

Definition cons_char (c : ascii) (r : option (string * string)) : option (string * string) :=
  match r with
  | Some (s, rest) => Some (String c s, rest)
  | None => None
  end.

(** The characters of a string literal after its opening quote, up to and
    including the closing quote. *)
Fixpoint parse_string_body (s : string) : option (string * string) :=
  match s with
  | EmptyString => None
  | String c r =>
      if Ascii.eqb c dquote then Some (EmptyString, r)
      else if Ascii.eqb c backslash then
        match r with
        | String e r1 =>
            if Ascii.eqb e "u" then
              match r1 with
              | String h1 (String h2 (String h3 (String h4 r2))) =>
                  match hex4 h1 h2 h3 h4 with
                  | Some ch => cons_char ch (parse_string_body r2)
                  | None => None
                  end
              | _ => None
              end
            else
              match unescape e with
              | Some ch => cons_char ch (parse_string_body r1)
              | None => None
              end
        | EmptyString => None
        end
      else if (N_of_ascii c <? 32)%N then None
      else cons_char c (parse_string_body r)
  end.

Definition starts_fraction (s : string) : bool :=
  match s with
  | String c _ => Ascii.eqb c "." || Ascii.eqb c "e" || Ascii.eqb c "E"
  | EmptyString => false
  end.

Definition parse_number (s : string) : option (value * string) :=
  match json_number s with
  | Some (x, r) => Some (Number x, r)
  | None => None
  end.

Definition parse_literal (s : string) : option (value * string) :=
  match prefix "null" s with
  | Some r => Some (Null, r)
  | None =>
      match prefix "true" s with
      | Some r => Some (Bool true, r)
      | None =>
          match prefix "false" s with
          | Some r => Some (Bool false, r)
          | None => parse_number s
          end
      end
  end.

(** Skip white space, then read the character [c]. *)
Definition expect (c : ascii) (s : string) : option string :=
  match skip_jws s with
  | String d r => if Ascii.eqb d c then Some r else None
  | EmptyString => None
  end.

Fixpoint parse_value (fuel : nat) (s : string) : option (value * string) :=
  match fuel with
  | O => None
  | S f =>
      match skip_jws s with
      | EmptyString => None
      | (String c r) as t =>
          if Ascii.eqb c "[" then
            match expect "]" r with
            | Some r' => Some (Arr [], r')
            | None =>
                match parse_elems f r with
                | Some (l, r') => Some (Arr l, r')
                | None => None
                end
            end
          else if Ascii.eqb c "{" then
            match expect "}" r with
            | Some r' => Some (Obj [], r')
            | None =>
                match parse_members f r with
                | Some (o, r') => Some (Obj (copy_props o []), r')
                | None => None
                end
            end
          else if Ascii.eqb c dquote then
            match parse_string_body r with
            | Some (str, r') => Some (Str str, r')
            | None => None
            end
          else parse_literal t
      end
  end
with parse_elems (fuel : nat) (s : string) : option (list value * string) :=
  match fuel with
  | O => None
  | S f =>
      match parse_value f s with
      | Some (v, r) =>
          match expect "," r with
          | Some r' =>
              match parse_elems f r' with
              | Some (l, r'') => Some (v :: l, r'')
              | None => None
              end
          | None =>
              match expect "]" r with
              | Some r' => Some ([v], r')
              | None => None
              end
          end
      | None => None
      end
  end
with parse_members (fuel : nat) (s : string) : option (props * string) :=
  match fuel with
  | O => None
  | S f =>
      match expect dquote s with
      | Some r0 =>
          match parse_string_body r0 with
          | Some (k, r1) =>
              match expect ":" r1 with
              | Some r2 =>
                  match parse_value f r2 with
                  | Some (v, r3) =>
                      match expect "," r3 with
                      | Some r4 =>
                          match parse_members f r4 with
                          | Some (o, r5) => Some ((k, v) :: o, r5)
                          | None => None
                          end
                      | None =>
                          match expect "}" r3 with
                          | Some r4 => Some ([(k, v)], r4)
                          | None => None
                          end
                      end
                  | None => None
                  end
              | None => None
              end
          | None => None
          end
      | None => None
      end
  end.

Fixpoint all_jws (s : string) : bool :=
  match s with
  | String c s' => is_jws c && all_jws s'
  | EmptyString => true
  end.

(** The first character of a number is a minus sign or a digit. *)
Definition number_start (c : ascii) : Prop := c = "-"%char \/ In c decimal_chars.

(** The numbers [JSON.parse] builds: the doubles and the infinities. *)
Definition is_double (x : number) : Prop :=
  match x with
  | NaN => False
  | Infinity _ => True
  | Finite u => representable u
  end.

(** The values [JSON.parse] builds: every number is a double or an
    infinity, and the property names of every object are pairwise
    distinct and in the order JavaScript lists them. *)
Inductive wf : value -> Prop :=
| wf_Null : wf Null
| wf_Bool b : wf (Bool b)
| wf_Number x : is_double x -> wf (Number x)
| wf_Str s : wf (Str s)
| wf_Arr l : Forall wf l -> wf (Arr l)
| wf_Obj o :
    NoDup (keys o) -> ordered (keys o) -> Forall (fun kv => wf (snd kv)) o -> wf (Obj o).

(** No number of the value is infinite.  [JSON.stringify] writes [null]
    for an infinity. *)
Fixpoint finite (v : value) : bool :=
  match v with
  | Number (Finite _) => true
  | Number _ => false
  | Arr l => forallb finite l
  | Obj o => forallb (fun kv => finite (snd kv)) o
  | _ => true
  end.

(** The recursion depth [parse_value] needs to read a value back. *)
Fixpoint size (v : value) : nat :=
  match v with
  | Arr l => S (list_sum (map (fun x => S (size x)) l))
  | Obj o => S (list_sum (map (fun kv => S (size (snd kv))) o))
  | _ => 1
  end.

(** What may follow a number: neither a digit nor a fraction or exponent. *)
Definition number_end (rest : string) : bool :=
  negb (starts_with_digit 10 rest) && negb (starts_fraction rest).

(** [v], printed at any indentation and followed by [rest], is read back
    as [v], leaving [rest]. *)
Definition reads_back (v : value) : Prop :=
  forall (ind rest : string) (fuel : nat),
    all_jws ind = true -> number_end rest = true -> (size v <= fuel)%nat ->
    parse_value fuel (stringify_at ind v ++ rest)%string = Some (v, rest).

(** [JSON.parse(text)]; [None] is a thrown [SyntaxError]. *)
Definition parse (text : string) : option value :=
  match parse_value (S (String.length text)) text with
  | Some (v, r) => if all_jws r then Some v else None
  | None => None
  end.

End Json.

(* ===================================================================== *)
(** ** Express responses                                                  *)
(* ===================================================================== *)

Module Http.
Import Js.

Inductive payload : Type :=
| Json (v : value)
| Text (s : string)
| ErrorPage (e : js_error).

Record response : Type := { status : nat; body : payload }.

Definition send (code : nat) (v : value) : response :=
  {| status := code; body := Json v |}.

(** A handler that throws synchronously reaches Express's default error
    handler, which answers 500. *)
Definition express {S : Type} (r : S * completion response) : S * response :=
  match snd r with
  | Normal resp => (fst r, resp)
  | Throw e => (fst r, {| status := 500; body := ErrorPage e |})
  end.

(** JavaScript truthiness of a value that may be [undefined]. *)
Definition truthy (x : option value) : bool :=
  match x with
  | None => false
  | Some Null => false
  | Some (Bool b) => b
  | Some (Number NaN) => false
  | Some (Number (Finite u)) => negb (u =? 0)
  | Some (Number (Infinity _)) => true
  | Some (Str s) => negb (String.eqb s EmptyString)
  | Some _ => true
  end.

(** Does a property named [k] occur anywhere in [v]? *)
Fixpoint has_key (k : string) (v : value) : bool :=
  match v with
  | Obj o => existsb (fun kv => String.eqb k (fst kv) || has_key k (snd kv)) o
  | Arr l => existsb (has_key k) l
  | _ => false
  end.

Definition payload_has_key (k : string) (p : payload) : bool :=
  match p with
  | Json v => has_key k v
  | _ => false
  end.

End Http.

(* ===================================================================== *)
(** ** The file-backed variant ([src/index.js])                          *)
(* ===================================================================== *)

Module FileBacked.
Import Js Http.

(** The module-level [pokemonsList] and the content of
    [data/pokemons.json].  Writes to the file are taken to succeed. *)
Record state : Type := { pokemonsList : list value; file : string }.

(** Start-up: [pokemonsList = JSON.parse(fs.readFileSync(...))].  The
    handlers use array methods, so only a file holding an array gives a
    working server. *)
Definition load (content : string) : option state :=
  match Json.parse content with
  | Some (Arr l) => Some {| pokemonsList := l; file := content |}
  | _ => None
  end.

(** [fs.writeFileSync(filePath, JSON.stringify(pokemonsList, null, 2))] *)
Definition writeFileSync (l : list value) : state :=
  {| pokemonsList := l; file := Json.stringify (Arr l) |}.

Definition not_found : response :=
  send 404 (Obj [("message", Str (utf8 "Pokémon non trouvé."))]).

(** [app.get("/api/pokemons")] *)
Definition get_pokemons (st : state) : state * completion response :=
  (st, Normal (send 200 (Obj [("pokemons", Arr (pokemonsList st))]))).

(** [app.post("/api/pokemons")] *)
Definition post_pokemons (st : state) (newPokemon : value) : state * completion response :=
  let l := pokemonsList st ++ [newPokemon] in
  (writeFileSync l,
   Normal (send 201 (Obj [("message", Str (utf8 "Pokémon ajouté avec succès."));
                          ("pokemon", newPokemon)]))).

(** [p => p.id === id] *)
Definition id_strictly (id : number) (p : value) : completion bool :=
  x <- get_id p ;; Normal (strict_equals x id).

(** [p => p.id == id] *)
Definition id_loosely (id : number) (p : value) : completion bool :=
  x <- get_id p ;; loose_equals x id.

(** [app.get("/api/pokemons/:id")] *)
Definition get_pokemon (st : state) (params_id : string) : state * completion response :=
  let id := parseInt params_id in
  (st,
   pokemon <- find (id_strictly id) (pokemonsList st) ;;
   if negb (truthy pokemon) then Normal not_found
   else match pokemon with
        | Some p => Normal (send 200 p)
        | None => Normal not_found
        end).

(** [app.put("/api/pokemons/:id")].  [findIndex] only returns indices
    inside the list, so the reads and the write at [index] stay in range. *)
Definition put_pokemon (st : state) (params_id : string) (updatedPokemon : value)
  : state * completion response :=
  let id := parseInt params_id in
  match findIndex (id_loosely id) (pokemonsList st) with
  | Throw e => (st, Throw e)
  | Normal None => (st, Normal not_found)
  | Normal (Some index) =>
      let merged := spread2 (nth index (pokemonsList st) Null) updatedPokemon in
      let l := assign index merged (pokemonsList st) in
      (writeFileSync l,
       Normal (send 200 (Obj [("message", Str (utf8 "Pokémon mis à jour avec succès."));
                              ("pokemon", nth index l Null)])))
  end.

(** [app.delete("/api/pokemons/:id")] *)
Definition delete_pokemon (st : state) (params_id : string) : state * completion response :=
  let id := parseInt params_id in
  match findIndex (id_strictly id) (pokemonsList st) with
  | Throw e => (st, Throw e)
  | Normal None => (st, Normal not_found)
  | Normal (Some index) =>
      let deletedPokemon := nth index (pokemonsList st) Null in
      let l := splice1 index (pokemonsList st) in
      (writeFileSync l,
       Normal (send 200 (Obj [("message", Str (utf8 "Pokémon supprimé avec succès."));
                              ("pokemon", deletedPokemon)])))
  end.

(** [app.get("/")] *)
Definition get_root (st : state) : state * completion response :=
  (st, Normal {| status := 200; body := Text (utf8 "bienvenue sur l'API Pokémon") |}).

(** What [express.json()] hands to a handler as [req.body]: in its default
    strict mode the parser accepts a JSON object or array only. *)
Definition admitted (v : value) : Prop :=
  match v with
  | Arr _ | Obj _ => True
  | _ => False
  end.

(** Every stored entry is a JSON object or array.  The data file ships as
    an array of objects, and only request bodies are ever added. *)
Definition stored_ok (st : state) : Prop := Forall admitted (pokemonsList st).

(** The requests the application routes. *)
Inductive request : Type :=
| GET_pokemons
| POST_pokemons (body : value)
| GET_pokemon (id : string)
| PUT_pokemon (id : string) (body : value)
| DELETE_pokemon (id : string)
| GET_root.

Definition handle (st : state) (rq : request) : state * response :=
  express
    match rq with
    | GET_pokemons => get_pokemons st
    | POST_pokemons b => post_pokemons st b
    | GET_pokemon i => get_pokemon st i
    | PUT_pokemon i b => put_pokemon st i b
    | DELETE_pokemon i => delete_pokemon st i
    | GET_root => get_root st
    end.

(** The file, parsed again, is the list in memory. *)
Definition in_sync (st : state) : Prop :=
  Json.parse (file st) = Some (Arr (pokemonsList st)).

(** No stored number is infinite. *)
Definition all_finite (st : state) : bool := forallb Json.finite (pokemonsList st).

(** The invariant behind [in_sync]: the entries are well formed, so that
    printing and parsing gives them back as long as no number among them
    is infinite. *)
Definition mirrored (st : state) : Prop :=
  Forall Json.wf (pokemonsList st) /\ (all_finite st = true -> in_sync st).

(** A request body is what [express.json()] parsed from the request text. *)
Definition parsed (v : value) : Prop := exists text, Json.parse text = Some v.

Definition request_ok (rq : request) : Prop :=
  match rq with
  | POST_pokemons b | PUT_pokemon _ b => parsed b
  | _ => True
  end.

(** The states of a running server: the one loaded at start-up, and those
    the handlers lead to. *)
Inductive reachable : state -> Prop :=
| reach_load content st : load content = Some st -> reachable st
| reach_handle st rq : reachable st -> request_ok rq -> reachable (fst (handle st rq)).

(** The mirror property as the specification words it: after every
    call, the file parsed again is the list in memory. *)
Definition mirror_claim : Prop :=
  forall st rq, reachable st -> request_ok rq -> in_sync (fst (handle st rq)).

Definition updated (mo : props) : response :=
  send 200 (Obj [("message", Str (utf8 "Pokémon mis à jour avec succès."));
                 ("pokemon", Obj mo)]).

(** [mo] is the shallow merge of [bo] onto [ro]: a field of [bo] has the
    value it has in [bo], any other field the value it has in [ro]. *)
Definition shallow_merge (ro bo mo : props) : Prop :=
  (forall k v, lookup k bo = Some v -> lookup k mo = Some v) /\
  (forall k, lookup k bo = None -> lookup k mo = lookup k ro).


(** The property of ids stored as text, as the specification words it:
    any stored record whose id is the decimal string of [n], in a list
    with no record of numeric id [n], is found and updated by PUT on [n]
    and not found by GET and DELETE. *)
Definition string_id_claim : Prop :=
  forall (st : state) (ro bo : props) (n : Z),
    reachable st -> parsed (Obj bo) ->
    In (Obj ro) (pokemonsList st) ->
    lookup "id" ro = Some (Str (string_of_Z n)) ->
    (forall p, In p (pokemonsList st) -> get_id p <> Normal (Some (Num n))) ->
    (exists mo,
        snd (handle st (PUT_pokemon (string_of_Z n) (Obj bo))) = updated mo /\
        shallow_merge ro bo mo) /\
    snd (handle st (GET_pokemon (string_of_Z n))) = not_found /\
    snd (handle st (DELETE_pokemon (string_of_Z n))) = not_found.

End FileBacked.

(* ===================================================================== *)
(** ** The document-store variant: Mongoose models and bcrypt            *)
(* ===================================================================== *)

Module Mongoose.
Import Js Http.

(** The outcome of an awaited driver call: a rejected promise lands in the
    handler's [catch] block. *)
Inductive awaited (A : Type) : Type :=
| Resolved (a : A)
| Rejected (message : string).
Arguments Resolved {A} a.
Arguments Rejected {A} message.

(** The operations the handlers call on the [Pokemon] model.  Queries
    filter on [{ id: id }]; [findOneAndUpdate] is called with
    [{ new: true }] and so resolves to the document after the update. *)
Class PokemonModel (collection : Type) : Type := {
  findOne : collection -> number -> awaited (option value);
  findOneAndUpdate : collection -> number -> value -> collection * awaited (option value);
  findOneAndDelete : collection -> number -> collection * awaited (option value)
}.

(** *** String setters and validators of [userSchema] *)

Fixpoint rev_string (acc s : string) : string :=
  match s with
  | EmptyString => acc
  | String c s' => rev_string (String c acc) s'
  end.

(** [String.prototype.trim] *)
Definition trim (s : string) : string :=
  rev_string EmptyString (skip_ws (rev_string EmptyString (skip_ws s))).

Definition lower_char (c : ascii) : ascii :=
  let n := N_of_ascii c in
  if (((65 <=? n) && (n <=? 90)) || ((192 <=? n) && (n <=? 222) && negb (n =? 215)))%N
  then ascii_of_N (n + 32)
  else c.

(** [String.prototype.toLowerCase] *)
Fixpoint toLowerCase (s : string) : string :=
  match s with
  | EmptyString => EmptyString
  | String c s' => String (lower_char c) (toLowerCase s')
  end.

(** Regular expressions, matched by derivatives. *)
Inductive regex : Type :=
| Void
| Eps
| Chr (p : ascii -> bool)
| Cat (a b : regex)
| Alt (a b : regex)
| Star (a : regex).

Fixpoint nullable (r : regex) : bool :=
  match r with
  | Void => false
  | Eps => true
  | Chr _ => false
  | Cat a b => nullable a && nullable b
  | Alt a b => nullable a || nullable b
  | Star _ => true
  end.

Fixpoint deriv (c : ascii) (r : regex) : regex :=
  match r with
  | Void => Void
  | Eps => Void
  | Chr p => if p c then Eps else Void
  | Cat a b =>
      if nullable a then Alt (Cat (deriv c a) b) (deriv c b) else Cat (deriv c a) b
  | Alt a b => Alt (deriv c a) (deriv c b)
  | Star a => Cat (deriv c a) (Star a)
  end.

(** [/^r$/.test(s)] *)
Fixpoint matches (r : regex) (s : string) : bool :=
  match s with
  | EmptyString => nullable r
  | String c s' => matches (deriv c r) s'
  end.

Definition plus (r : regex) : regex := Cat r (Star r).
Definition opt (r : regex) : regex := Alt Eps r.

(** [\w] *)
Definition word_char (c : ascii) : bool :=
  let n := N_of_ascii c in
  (((48 <=? n) && (n <=? 57)) || ((65 <=? n) && (n <=? 90))
   || ((97 <=? n) && (n <=? 122)) || (n =? 95))%N.

Definition word : regex := Chr word_char.
Definition dot_or_dash : regex :=
  Chr (fun c => Ascii.eqb c "." || Ascii.eqb c "-").

(** [\w+([.-]?\w+)*] *)
Definition dotted_words : regex :=
  Cat (plus word) (Star (Cat (opt dot_or_dash) (plus word))).

(** [/^\w+([.-]?\w+)*@\w+([.-]?\w+)*(\.\w{2,3})+$/] *)
Definition email_pattern : regex :=
  Cat dotted_words
    (Cat (Chr (Ascii.eqb "@"))
       (Cat dotted_words
          (plus (Cat (Chr (Ascii.eqb ".")) (Cat word (Cat word (opt word))))))).

(** *** The [User] model

    The collection is a list of documents, and the driver calls on it are
    taken to resolve: a lost connection is outside the model. *)

Record user : Type := {
  _id : string;
  username : string;
  email : string;
  password : string;
  createdAt : string
}.

(** The [users] collection, oldest document first. *)
Definition users := list user.

Inductive mongoose_error : Type :=
| ValidationError (errors : list (string * string))
| MongoServerError (code : Z) (keyPattern : list string) (message : string).

(** The schema setters, run on a document field and on a query filter. *)
Definition cast_username (s : string) : string := trim s.
Definition cast_email (s : string) : string := toLowerCase (trim s).

(** [User.findOne({ email })] *)
Definition findOne_email (db : users) (e : string) : option user :=
  List.find (fun u => String.eqb (email u) (cast_email e)) db.

(** [User.findOne({ username })] *)
Definition findOne_username (db : users) (n : string) : option user :=
  List.find (fun u => String.eqb (username u) (cast_username n)) db.

(** The first failing validator of a path, with its message. *)
Definition check (path : string) (tests : list (bool * string)) : list (string * string) :=
  match List.find (fun t => negb (fst t)) tests with
  | Some t => [(path, snd t)]
  | None => []
  end.

Definition nonempty (s : string) : bool := negb (String.eqb s EmptyString).

Definition at_least (n : nat) (s : string) : bool := (n <=? String.length s)%nat.

(** Validation of a [User] document against [userSchema]. *)
Definition validate (username email password : string) : list (string * string) :=
  check "username"
    [(nonempty username, "Le nom d'utilisateur est obligatoire");
     (at_least 3 username, (utf8 "Le nom d'utilisateur doit contenir au moins 3 caractères"))]
  ++ check "email"
    [(nonempty email, "L'adresse email est obligatoire");
     (matches email_pattern email, "Veuillez fournir une adresse email valide")]
  ++ check "password"
    [(nonempty password, "Le mot de passe est obligatoire");
     (at_least 6 password, (utf8 "Le mot de passe doit contenir au moins 6 caractères"))].

(** What the process supplies to one registration: the salt drawn by
    [bcrypt.genSalt], the [ObjectId] of the new document and the clock. *)
Record environment : Type := {
  salt : string;
  fresh_id : string;
  now : string
}.

(** [new User({ username, email, password })] followed by [user.save()]:
    setters, validation, the unique indexes, then the insertion. *)
Definition save (db : users) (env : environment) (u e p : string)
  : users * sum mongoose_error user :=
  let u' := cast_username u in
  let e' := cast_email e in
  match validate u' e' p with
  | (_ :: _) as errors => (db, inl (ValidationError errors))
  | [] =>
      if existsb (fun d => String.eqb (username d) u') db then
        (db, inl (MongoServerError 11000 ["username"] "E11000 duplicate key error"))
      else if existsb (fun d => String.eqb (email d) e') db then
        (db, inl (MongoServerError 11000 ["email"] "E11000 duplicate key error"))
      else
        let doc := {| _id := fresh_id env; username := u'; email := e';
                      password := p; createdAt := now env |} in
        (db ++ [doc], inr doc)
  end.

(** *** bcrypt *)

Class Bcrypt : Type := {
  hash : string -> string -> string;
  compare : string -> string -> bool
}.

End Mongoose.

(* ===================================================================== *)
(** ** The document-store variant: handlers                              *)
(* ===================================================================== *)

Module DocStore.
Import Js Http Mongoose.

Definition json (code : nat) (v : value) : response := send code v.

(** A field of [req.body], read by destructuring.  The fields are taken
    to be absent or a string, as the forms of the application send them.
    The handlers test truthiness only, so another JSON value (a number,
    an object of query operators) would reach Mongoose or bcrypt as it
    is: such requests are outside the model, and every statement about
    [register] and [login] is about requests with string fields. *)
Definition falsy (field : option string) : bool :=
  match field with
  | None => true
  | Some s => String.eqb s EmptyString
  end.

Definition text (field : option string) : string :=
  match field with
  | Some s => s
  | None => EmptyString
  end.

Record register_body : Type := {
  reg_username : option string;
  reg_email : option string;
  reg_password : option string
}.

Record login_body : Type := {
  login_email : option string;
  login_password : option string
}.

(** The user object of a response: the document without its password. *)
Definition userResponse (u : user) : value :=
  Obj [("id", Str (_id u)); ("username", Str (username u));
       ("email", Str (email u)); ("createdAt", Str (createdAt u))].

Fixpoint join (sep : string) (l : list string) : string :=
  match l with
  | [] => EmptyString
  | [s] => s
  | s :: l' => (s ++ sep ++ join sep l')%string
  end.

Section Auth.
Context {bcrypt : Bcrypt}.

(** [app.post("/auth/register")] *)
Definition register (db : users) (env : environment) (body : register_body)
  : users * response :=
  if falsy (reg_username body) || falsy (reg_email body) || falsy (reg_password body)
  then (db, json 400 (Obj [("message", Str "Tous les champs sont obligatoires")]))
  else
    let username := text (reg_username body) in
    let email := text (reg_email body) in
    let password := text (reg_password body) in
    match findOne_email db email with
    | Some _ =>
        (db, json 400 (Obj [("message", Str (utf8 "Cette adresse email est déjà utilisée"))]))
    | None =>
        match findOne_username db username with
        | Some _ =>
            (db, json 400 (Obj [("message", Str (utf8 "Ce nom d'utilisateur est déjà pris"))]))
        | None =>
            let hashedPassword := hash password (salt env) in
            match save db env username email hashedPassword with
            | (db', inr user) =>
                (db', json 201 (Obj [("message", Str (utf8 "Compte créé avec succès"));
                                     ("user", userResponse user)]))
            | (db', inl (ValidationError errors)) =>
                (db', json 400 (Obj [("message", Str (join ", " (map snd errors)))]))
            | (db', inl (MongoServerError code keyPattern message)) =>
                if code =? 11000 then
                  (db', json 400
                     (Obj [("message",
                            Str ("Ce " ++ hd "undefined" keyPattern ++ (utf8 " est déjà utilisé")))]))
                else
                  (db', json 500 (Obj [("message", Str (utf8 "Erreur lors de la création du compte"));
                                       ("error", Str message)]))
            end
        end
    end.

(** [app.post("/auth/login")] *)
Definition login (db : users) (body : login_body) : users * response :=
  if falsy (login_email body) || falsy (login_password body)
  then (db, json 400 (Obj [("message", Str "Tous les champs sont obligatoires")]))
  else
    match findOne_email db (text (login_email body)) with
    | None => (db, json 401 (Obj [("message", Str "Email ou mot de passe incorrect")]))
    | Some user =>
        if negb (compare (text (login_password body)) (password user))
        then (db, json 401 (Obj [("message", Str "Email ou mot de passe incorrect")]))
        else (db, json 200 (Obj [("message", Str (utf8 "Connexion réussie"));
                                 ("user", userResponse user)]))
    end.

End Auth.

(** The registration property as the specification words it: an unused
    username and email and a password of six characters or more are
    enough for a 201 without a [password] field. *)
Definition register_claim : Prop :=
  forall (bcrypt : Bcrypt) (db : users) (env : environment) (u e p : string),
    (forall s t, String.length (hash s t) = 60%nat) ->
    (forall d, In d db -> username d <> cast_username u) ->
    (forall d, In d db -> email d <> cast_email e) ->
    (6 <= String.length p)%nat ->
    let r := snd (register db env
                    {| reg_username := Some u; reg_email := Some e; reg_password := Some p |}) in
    status r = 201%nat /\ payload_has_key "password" (body r) = false.

Section Pokemons.
Context {collection : Type} {Pokemon : PokemonModel collection}.

Definition not_found : response :=
  send 404 (Obj [("message", Str (utf8 "Pokémon non trouvé."))]).

Definition failure (what details : string) : response :=
  send 500 (Obj [("error", Str what); ("details", Str details)]).

(** [app.get("/api/pokemons/:id")] *)
Definition get_pokemon (db : collection) (params_id : string) : collection * response :=
  let id := parseInt params_id in
  match findOne db id with
  | Resolved None => (db, not_found)
  | Resolved (Some pokemon) => (db, send 200 pokemon)
  | Rejected m => (db, failure (utf8 "Erreur lors de la récupération du pokémon") m)
  end.

(** [app.put("/api/pokemons/:id")] *)
Definition put_pokemon (db : collection) (params_id : string) (updatedData : value)
  : collection * response :=
  let id := parseInt params_id in
  match findOneAndUpdate db id updatedData with
  | (db', Resolved None) => (db', not_found)
  | (db', Resolved (Some updatedPokemon)) =>
      (db', send 200 (Obj [("message", Str (utf8 "Pokémon mis à jour avec succès."));
                           ("pokemon", updatedPokemon)]))
  | (db', Rejected m) => (db', failure (utf8 "Erreur lors de la mise à jour du pokémon") m)
  end.

(** [app.delete("/api/pokemons/:id")] *)
Definition delete_pokemon (db : collection) (params_id : string) : collection * response :=
  let id := parseInt params_id in
  match findOneAndDelete db id with
  | (db', Resolved None) => (db', not_found)
  | (db', Resolved (Some deletedPokemon)) =>
      (db', send 200 (Obj [("message", Str (utf8 "Pokémon supprimé avec succès."));
                           ("pokemon", deletedPokemon)]))
  | (db', Rejected m) => (db', failure (utf8 "Erreur lors de la suppression du pokémon") m)
  end.

End Pokemons.

End DocStore.

(* ===================================================================== *)
(** ** Sample data                                                        *)
(* ===================================================================== *)

Module Samples.
Import Js Http Mongoose DocStore.

Definition bulbasaur : value :=
  Obj [("id", Num 1); ("name", Obj [("french", Str "Bulbizarre")])].

Definition impostor : value :=
  Obj [("id", Num 1); ("name", Obj [("french", Str "Herbizarre")])].


Definition pikachu : value :=
  Obj [("id", Num 25); ("name", Obj [("french", Str "Pika"); ("english", Str "Pikachu")]);
       ("type", Arr [Str "Electric"])].

Definition rename : value := Obj [("name", Obj [("french", Str "Pikachu")])].

(** A record whose id is the string [25], not the number. *)
Definition pikachu_text_id : props :=
  [("id", Str "25"); ("name", Obj [("french", Str "Pikachu")])].


Definition raichu_text_id : props :=
  [("id", Str "25"); ("name", Obj [("french", Str "Raichu")])].

(** A record whose id is written [1e400], beyond the range of a double:
    [JSON.parse] reads it as [Infinity]. *)
Definition beyond_range_text : string :=
  ("{" ++ Json.quote "id" ++ ":1e400}")%string.

Definition beyond_range : value := Obj [("id", Number (Infinity false))].

(** A record a client can POST: its [id] is an object whose own
    [toString] property is not a function. *)
Definition opaque_id : value := Obj [("id", Obj [("toString", Num 1)])].

Definition empty_store : FileBacked.state :=
  {| FileBacked.pokemonsList := []; FileBacked.file := "[]" |}.

(** [s] cut or filled to [n] characters. *)
Fixpoint pad (n : nat) (s : string) : string :=
  match n with
  | O => EmptyString
  | S n' =>
      match s with
      | EmptyString => String "." (pad n' EmptyString)
      | String c s' => String c (pad n' s')
      end
  end.

(** A stand-in with the shape of bcrypt, to run the handlers on examples:
    a hash is 60 characters that start with the 29 characters of the salt,
    and comparing recomputes the hash from the salt inside it. *)
#[export] Instance sample_bcrypt : Bcrypt := {|
  hash := fun password salt => pad 60 (pad 29 salt ++ password);
  compare := fun password hashed =>
    String.eqb hashed (pad 60 (pad 29 hashed ++ password))
|}.

Definition sample_env : environment :=
  {| salt := "$2a$10$N9qo8uLOickgx2ZMRZoMye";
     fresh_id := "65f1c0ffee0ddba11ad0be57";
     now := "2025-03-01T10:00:00.000Z" |}.

Definition ash : user :=
  {| _id := "65f1c0ffee0ddba11ad0be56";
     username := "ash";
     email := "ash@kanto.org";
     password := hash "pikachu1" (salt sample_env);
     createdAt := "2025-02-01T09:00:00.000Z" |}.

End Samples.

(* ===================================================================== *)
(** ** Stores that follow the data model                                  *)
(* ===================================================================== *)

Module DataModel.
Import Js Http FileBacked.

(** An entry as the data model describes it: it carries a number as id. *)
Definition has_numeric_id (p : value) : Prop :=
  exists x, get_id p = Normal (Some (Number x)).

Definition numeric_ids (st : state) : Prop :=
  Forall has_numeric_id (pokemonsList st).

(** The three routes that take a path parameter, for a given path. *)
Definition by_id_requests (path : string) (body : value) : list request :=
  [GET_pokemon path; PUT_pokemon path body; DELETE_pokemon path].

(** The state after a sequence of requests. *)
Definition run (st : state) (rqs : list request) : state :=
  fold_left (fun s rq => fst (handle s rq)) rqs st.

(** The body of a request, when it has one, is a JSON object or array. *)
Definition body_admitted (rq : request) : Prop :=
  match rq with
  | POST_pokemons b | PUT_pokemon _ b => admitted b
  | _ => True
  end.

Definition charmander : props :=
  [("id", Num 4); ("name", Obj [("english", Str "Charmander")])].

Definition charmeleon : props :=
  [("id", Num 4); ("name", Obj [("english", Str "Charmeleon")])].

Definition renumber : value := Obj [("id", Num 26)].

End DataModel.

(** Auxiliary notions on the regular expressions of the schema. *)
Module RegexModel.
Import Mongoose.

(** A syntactic check that an expression matches no string at all. *)
Fixpoint void (r : regex) : bool :=
  match r with
  | Void => true
  | Eps => false
  | Chr _ => false
  | Cat a b => void a || void b
  | Alt a b => void a && void b
  | Star _ => false
  end.

(** Every character class of [r] lies within [allowed]. *)
Fixpoint within (allowed : ascii -> bool) (r : regex) : Prop :=
  match r with
  | Void | Eps => True
  | Chr p => forall c, p c = true -> allowed c = true
  | Cat a b | Alt a b => within allowed a /\ within allowed b
  | Star a => within allowed a
  end.

(** The characters that occur in [email_pattern]: [\w], [.], [-] and [@]. *)
Definition email_char (c : ascii) : bool :=
  word_char c || Ascii.eqb c "." || Ascii.eqb c "-" || Ascii.eqb c "@".

End RegexModel.

(* ===================================================================== *)
(** * Proofs                                                              *)
(* ===================================================================== *)

(** ** Rounding to a double *)

Module NumberFacts.
Import Js.

Lemma ulp_shift_nonneg (n : Z) : 0 <= ulp_shift n.
Proof. unfold ulp_shift. lia. Qed.

(** A significand of at most 53 bits, shifted, is on the grid of the
    doubles. *)
Lemma on_grid (m s : Z) :
  0 <= m <= 2 ^ 53 -> 0 <= s ->
  (m * 2 ^ s) mod 2 ^ ulp_shift (m * 2 ^ s) = 0.
Proof.
  intros Hm Hs.
  assert (H2 : 0 < 2 ^ s) by (apply Z.pow_pos_nonneg; lia).
  destruct (Z.eq_dec m 0) as [-> | Hm0].
  { now rewrite Z.mul_0_l. }
  assert (Hlog : Z.log2 (m * 2 ^ s) = s + Z.log2 m).
  { apply Z.log2_mul_pow2; lia. }
  unfold ulp_shift. rewrite Hlog.
  destruct (Z.eq_dec m (2 ^ 53)) as [-> | Hm53].
  - rewrite Z.log2_pow2 by lia.
    replace (Z.max 0 (s + 53 - 52)) with (s + 1) by lia.
    rewrite <- Z.pow_add_r by lia.
    replace (53 + s) with (52 + (s + 1)) by lia.
    rewrite Z.pow_add_r by lia. apply Z.mod_mul.
    apply Z.pow_nonzero; lia.
  - assert (Hl : Z.log2 m <= 52).
    { assert (Z.log2 m < 53); [| lia]. apply Z.log2_lt_pow2; lia. }
    assert (Hl0 : 0 <= Z.log2 m) by apply Z.log2_nonneg.
    set (t := Z.max 0 (s + Z.log2 m - 52)).
    assert (Ht : 0 <= t <= s) by (unfold t; lia).
    replace s with ((s - t) + t) at 1 by lia.
    rewrite Z.pow_add_r by lia. rewrite Z.mul_assoc.
    apply Z.mod_mul. apply Z.pow_nonzero; lia.
Qed.

Section Round.
Variables p q : Z.
Hypothesis Hp : 0 <= p.
Hypothesis Hq : 0 < q.

Let n := p / q.
Let s := ulp_shift n.

Lemma quotient_nonneg : 0 <= n.
Proof. apply Z.div_pos; lia. Qed.

Lemma significand_bound : 0 <= p / (q * 2 ^ s) < 2 ^ 53.
Proof.
  pose proof quotient_nonneg as Hn.
  assert (Hs : 0 <= s) by apply ulp_shift_nonneg.
  assert (H2 : 0 < 2 ^ s) by (apply Z.pow_pos_nonneg; lia).
  rewrite <- Z.div_div by lia. fold n.
  split; [apply Z.div_pos; lia |].
  apply Z.div_lt_upper_bound; [lia |].
  rewrite <- Z.pow_add_r by lia.
  destruct (Z.eq_dec n 0) as [E | E].
  { rewrite E. apply Z.pow_pos_nonneg; lia. }
  assert (Hlt : n < 2 ^ (Z.log2 n + 1)).
  { replace (Z.log2 n + 1) with (Z.succ (Z.log2 n)) by lia.
    apply Z.log2_spec. lia. }
  eapply Z.lt_le_trans; [exact Hlt |].
  apply Z.pow_le_mono_r; [lia |]. unfold s, ulp_shift. lia.
Qed.

(** The result of rounding is a double. *)
Lemma round_units_on_grid :
  0 <= round_units p q /\
  round_units p q mod 2 ^ ulp_shift (round_units p q) = 0.
Proof.
  pose proof significand_bound as Hm.
  assert (Hs : 0 <= s) by apply ulp_shift_nonneg.
  assert (H2 : 0 < 2 ^ s) by (apply Z.pow_pos_nonneg; lia).
  unfold round_units. fold n. fold s. cbv zeta.
  set (m := p / (q * 2 ^ s)) in *.
  destruct (if q * 2 ^ s <? 2 * (p mod (q * 2 ^ s)) then true
            else if q * 2 ^ s =? 2 * (p mod (q * 2 ^ s)) then Z.odd m else false).
  - split; [nia |]. apply on_grid; lia.
  - split; [nia |]. apply on_grid; lia.
Qed.

(** Rounding depends on the fraction only, not on how it is written. *)
Lemma round_units_scale (c : Z) :
  0 < c -> round_units (c * p) (c * q) = round_units p q.
Proof.
  intros Hc.
  assert (Hs : 0 <= s) by apply ulp_shift_nonneg.
  assert (H2 : 0 < 2 ^ s) by (apply Z.pow_pos_nonneg; lia).
  unfold round_units.
  rewrite (Z.div_mul_cancel_l p q c) by lia. fold n. fold s. cbv zeta.
  rewrite <- (Z.mul_assoc c q (2 ^ s)).
  rewrite (Z.div_mul_cancel_l p (q * 2 ^ s) c) by nia.
  rewrite (Z.mul_mod_distr_l p (q * 2 ^ s) c) by nia.
  set (step := q * 2 ^ s). set (r := p mod step).
  replace (c * step <? 2 * (c * r)) with (step <? 2 * r).
  2:{ destruct (Z.ltb_spec step (2 * r)), (Z.ltb_spec (c * step) (2 * (c * r)));
        try reflexivity; nia. }
  replace (c * step =? 2 * (c * r)) with (step =? 2 * r).
  2:{ destruct (Z.eqb_spec step (2 * r)), (Z.eqb_spec (c * step) (2 * (c * r)));
        try reflexivity; nia. }
  reflexivity.
Qed.

End Round.

(** A double rounds to itself. *)
Lemma round_units_exact (u : Z) :
  0 <= u -> u mod 2 ^ ulp_shift u = 0 -> round_units u 1 = u.
Proof.
  intros Hu Hm.
  assert (Hs : 0 <= ulp_shift u) by apply ulp_shift_nonneg.
  assert (H2 : 0 < 2 ^ ulp_shift u) by (apply Z.pow_pos_nonneg; lia).
  unfold round_units. rewrite Z.div_1_r, Z.mul_1_l, Hm. cbv zeta.
  destruct (Z.ltb_spec (2 ^ ulp_shift u) (2 * 0)); [lia |].
  destruct (Z.eqb_spec (2 ^ ulp_shift u) (2 * 0)); [lia |].
  symmetry. rewrite Z.mul_comm. apply Z_div_exact_full_2; lia.
Qed.

Lemma representable_opp (u : Z) : representable u -> representable (- u).
Proof. unfold representable. now rewrite Z.abs_opp. Qed.

Lemma to_number_cases (negative : bool) (p q : Z) :
  (to_number negative p q = Infinity negative /\ overflow <= round_units (p * 2 ^ 1074) q)
  \/ (to_number negative p q
      = Finite (if negative then - round_units (p * 2 ^ 1074) q
                else round_units (p * 2 ^ 1074) q)
      /\ round_units (p * 2 ^ 1074) q < overflow).
Proof.
  unfold to_number.
  destruct (Z.leb_spec overflow (round_units (p * 2 ^ 1074) q)); [left | right]; auto.
Qed.

(** Rounding never gives NaN, and gives a double or an infinity. *)
Lemma to_number_double (negative : bool) (p q : Z) :
  0 <= p -> 0 < q ->
  match to_number negative p q with
  | NaN => False
  | Infinity _ => True
  | Finite u => representable u
  end.
Proof.
  intros Hp Hq.
  assert (H2 : 0 < 2 ^ 1074) by (apply Z.pow_pos_nonneg; lia).
  destruct (round_units_on_grid (p * 2 ^ 1074) q) as [H0 Hg]; [nia | lia |].
  destruct (to_number_cases negative p q) as [[-> _] | [-> Hlt]]; [exact I |].
  assert (R : representable (round_units (p * 2 ^ 1074) q)).
  { unfold representable. rewrite Z.abs_eq by lia. auto. }
  destruct negative; [now apply representable_opp | exact R].
Qed.

Lemma to_number_not_NaN (negative : bool) (p q : Z) : to_number negative p q <> NaN.
Proof.
  unfold to_number. now destruct (overflow <=? _).
Qed.

Lemma Int_not_NaN (z : Z) : Int z <> NaN.
Proof. apply to_number_not_NaN. Qed.

Lemma Int_double (z : Z) :
  match Int z with NaN => False | Infinity _ => True | Finite u => representable u end.
Proof. apply to_number_double; lia. Qed.

Lemma negate_to_number (p q : Z) :
  negate (to_number false p q) = to_number true p q.
Proof.
  unfold to_number. now destruct (overflow <=? _).
Qed.

Lemma round_units_zero (q : Z) : 0 < q -> round_units 0 q = 0.
Proof.
  intros Hq. unfold round_units. rewrite Zdiv_0_l, Zmod_0_l.
  change (ulp_shift 0) with 0. rewrite Zdiv_0_l.
  destruct (Z.ltb_spec (q * 2 ^ 0) (2 * 0)); [lia |].
  destruct (Z.eqb_spec (q * 2 ^ 0) (2 * 0)); [lia | reflexivity].
Qed.

Lemma overflow_pos : 0 < overflow.
Proof. apply Z.pow_pos_nonneg; lia. Qed.

Lemma to_number_zero (negative : bool) (q : Z) : 0 < q -> to_number negative 0 q = Finite 0.
Proof.
  intros Hq. unfold to_number. rewrite Z.mul_0_l, round_units_zero by exact Hq.
  pose proof overflow_pos.
  destruct (Z.leb_spec overflow 0); [lia |]. now destruct negative.
Qed.

(** The integers, rounded. *)
Lemma decimal_integer (m : Z) : 0 <= m -> decimal m 0 = Int m.
Proof.
  intros Hm. unfold decimal, Int. cbn [Z.leb Z.compare].
  rewrite Z.pow_0_r, Z.mul_1_r, Z.abs_eq by lia.
  destruct (Z.ltb_spec m 0); [lia | reflexivity].
Qed.

Lemma negate_Int (m : Z) : 0 <= m -> negate (Int m) = Int (- m).
Proof.
  intros Hm. destruct (Z.eq_dec m 0) as [-> | Hne].
  { unfold Int. cbn [Z.opp Z.abs Z.ltb Z.compare]. now rewrite to_number_zero by lia. }
  unfold Int. rewrite Z.abs_opp.
  destruct (Z.ltb_spec m 0); [lia |]. destruct (Z.ltb_spec (- m) 0); [| lia].
  apply negate_to_number.
Qed.

(** Equality of numbers is equality, NaN apart. *)
Lemma number_eq_true (a b : number) : number_eq a b = true -> a = b.
Proof.
  destruct a as [| x | x], b as [| y | y]; cbn; try discriminate.
  - intros H. apply Bool.eqb_prop in H. now subst.
  - intros H. apply Z.eqb_eq in H. now subst.
Qed.

Lemma number_eq_refl (a : number) : a <> NaN -> number_eq a a = true.
Proof.
  destruct a as [| x | x]; cbn; intros H.
  - contradiction.
  - apply Bool.eqb_reflx.
  - apply Z.eqb_refl.
Qed.

Lemma number_eq_Int_refl (z : Z) : number_eq (Int z) (Int z) = true.
Proof. apply number_eq_refl, Int_not_NaN. Qed.

Lemma number_eq_false (a b : number) : a <> b -> number_eq a b = false.
Proof.
  intros H. destruct (number_eq a b) eqn:E; [| reflexivity].
  now apply number_eq_true in E.
Qed.

Lemma number_eq_NaN_r (a : number) : number_eq a NaN = false.
Proof. now destruct a. Qed.

(** Two closed values differ: both sides are computed first. *)
Ltac differ :=
  let H := fresh "H" in intro H; vm_compute in H; discriminate H.

(** The magnitude of a double, written as a fraction of any scale, is
    read back as that double. *)
Lemma to_number_exact (u c : Z) :
  0 <= u -> representable u -> 0 < c ->
  to_number false (u * c) (2 ^ 1074 * c) = Finite u.
Proof.
  intros Hu [Hg Hlt] Hc. rewrite Z.abs_eq in Hg, Hlt by exact Hu.
  assert (H2 : 0 < 2 ^ 1074) by (apply Z.pow_pos_nonneg; lia).
  assert (E : round_units (u * c * 2 ^ 1074) (2 ^ 1074 * c) = u).
  { transitivity (round_units ((2 ^ 1074 * c) * u) ((2 ^ 1074 * c) * 1)).
    - f_equal; ring.
    - rewrite round_units_scale by nia. now apply round_units_exact. }
  unfold to_number. rewrite E.
  destruct (Z.leb_spec overflow u); [lia | reflexivity].
Qed.

End NumberFacts.

(** ** Strings and decimal digits *)

Module StringFacts.

Lemma append_nil_r (s : string) : (s ++ EmptyString)%string = s.
Proof. induction s as [|c s IH]; simpl; [reflexivity | now rewrite IH]. Qed.

Lemma append_assoc (a b c : string) : ((a ++ b) ++ c = a ++ (b ++ c))%string.
Proof. induction a as [|x a IH]; simpl; [reflexivity | now rewrite IH]. Qed.

Lemma length_append (a b : string) :
  String.length (a ++ b) = (String.length a + String.length b)%nat.
Proof. induction a as [|x a IH]; simpl; [reflexivity | now rewrite IH]. Qed.

End StringFacts.

Module DigitFacts.
Import Js StringFacts.

Lemma is_digit_decimal (c : ascii) : is_digit 10 c = true -> In c decimal_chars.
Proof.
  destruct c as [[] [] [] [] [] [] [] []]; vm_compute; intros H;
    try discriminate H; tauto.
Qed.

Lemma digit_char_spec (d : N) :
  (d < 10)%N -> digit_val 10 (digit_char d) = Some (Z.of_N d).
Proof.
  intros H.
  assert (C : In d [0; 1; 2; 3; 4; 5; 6; 7; 8; 9]%N).
  { simpl. lia. }
  simpl in C.
  repeat (destruct C as [<- | C]; [reflexivity |]). contradiction.
Qed.

Lemma digit_char_is_digit (d : N) : (d < 10)%N -> is_digit 10 (digit_char d) = true.
Proof. intros H. unfold is_digit. now rewrite digit_char_spec. Qed.

Lemma digit_char_nonzero (d : N) :
  (d < 10)%N -> d <> 0%N -> Ascii.eqb (digit_char d) "0" = false.
Proof.
  intros H Hd.
  assert (C : In d [1; 2; 3; 4; 5; 6; 7; 8; 9]%N).
  { simpl. lia. }
  simpl in C.
  repeat (destruct C as [<- | C]; [reflexivity |]). contradiction.
Qed.

Lemma enough_div10 (fuel : nat) (n : N) :
  enough (S fuel) n -> (n / 10 <> 0)%N -> enough fuel (n / 10).
Proof.
  unfold enough. intros H Hq.
  assert (Hn : (10 <= n)%N).
  { destruct (N.lt_ge_cases n 10) as [Hlt | Hge]; [| exact Hge].
    rewrite N.div_small in Hq by exact Hlt. contradiction. }
  assert (Hle : (n / 10 <= N.div2 n)%N).
  { rewrite N.div2_div. 
    apply N.div_le_compat_l; lia. }
  assert (Hlog : (N.log2 (N.div2 n) = N.pred (N.log2 n))%N).
  { rewrite N.div2_spec. rewrite N.log2_shiftr. lia. }
  pose proof (N.log2_le_mono _ _ Hle) as Hm.
  assert (Hpos : (0 < N.log2 n)%N).
  { apply N.log2_pos. lia. }
  lia.
Qed.

Lemma enough_string_of_N (n : N) : enough (S (N.to_nat (N.log2 n))) n.
Proof. unfold enough. lia. Qed.

Lemma decimal_digits_acc (fuel : nat) : forall n acc,
  decimal_digits fuel n acc = (decimal_digits fuel n EmptyString ++ acc)%string.
Proof.
  induction fuel as [|fuel IH]; intros n acc; simpl; [reflexivity |].
  destruct (n / 10 =? 0)%N; [reflexivity |].
  rewrite IH. rewrite (IH _ (String _ EmptyString)).
  now rewrite append_assoc.
Qed.

Lemma decimal_digits_value (fuel : nat) : forall n acc,
  enough fuel n ->
  digits_value 10 0 (decimal_digits fuel n acc) = digits_value 10 (Z.of_N n) acc.
Proof.
  induction fuel as [|fuel IH]; intros n acc He.
  - unfold enough in He. lia.
  - simpl decimal_digits.
    assert (Hm : (n mod 10 < 10)%N) by (apply N.mod_lt; lia).
    destruct (N.eqb_spec (n / 10) 0) as [Hq | Hq].
    + simpl. rewrite digit_char_spec by exact Hm.
      f_equal. pose proof (N.div_mod n 10). lia.
    + rewrite IH by (apply enough_div10; assumption).
      simpl. rewrite digit_char_spec by exact Hm.
      f_equal. pose proof (N.div_mod n 10). lia.
Qed.


Lemma decimal_digits_all_digits (fuel : nat) : forall n acc,
  all_digits 10 acc = true -> all_digits 10 (decimal_digits fuel n acc) = true.
Proof.
  induction fuel as [|fuel IH]; intros n acc Ha; simpl; [exact Ha |].
  assert (Hm : (n mod 10 < 10)%N) by (apply N.mod_lt; lia).
  assert (Hd : all_digits 10 (String (digit_char (n mod 10)) acc) = true).
  { simpl. now rewrite digit_char_is_digit, Ha. }
  destruct (n / 10 =? 0)%N; [exact Hd | now apply IH].
Qed.

Lemma decimal_digits_head (fuel : nat) : forall n acc,
  enough fuel n ->
  exists c r,
    decimal_digits fuel n acc = String c r /\
    (n <> 0%N -> Ascii.eqb c "0" = false) /\
    (n = 0%N -> r = acc).
Proof.
  induction fuel as [|fuel IH]; intros n acc He.
  - unfold enough in He. lia.
  - simpl decimal_digits.
    assert (Hm : (n mod 10 < 10)%N) by (apply N.mod_lt; lia).
    destruct (N.eqb_spec (n / 10) 0) as [Hq | Hq].
    + exists (digit_char (n mod 10)), acc. split; [reflexivity |]. split.
      * intros Hn. apply digit_char_nonzero; [exact Hm |].
        pose proof (N.div_mod n 10). lia.
      * reflexivity.
    + destruct (IH (n / 10)%N (String (digit_char (n mod 10)) acc)) as (c & r & E & Hc & _).
      { now apply enough_div10. }
      exists c, r. split; [exact E |]. split.
      * intros _. now apply Hc.
      * intros ->. now rewrite N.Div0.div_0_l in Hq.
Qed.

Lemma span_digits_app (radix : Z) (ds rest : string) :
  all_digits radix ds = true -> starts_with_digit radix rest = false ->
  span_digits radix (ds ++ rest) = (ds, rest).
Proof.
  intros Hd Hr. induction ds as [|c ds IH]; simpl.
  - destruct rest as [|c r]; [reflexivity |]. simpl in *. now rewrite Hr.
  - simpl in Hd. apply andb_prop in Hd as [Hc Hd].
    rewrite Hc, (IH Hd). reflexivity.
Qed.

(** What the decimal form of a natural number looks like. *)
Lemma string_of_N_spec (n : N) :
  exists c r,
    string_of_N n = String c r /\
    all_digits 10 (String c r) = true /\
    digits_value 10 0 (String c r) = Z.of_N n /\
    (Ascii.eqb c "0" = true -> r = EmptyString).
Proof.
  pose proof (enough_string_of_N n) as He.
  destruct (decimal_digits_head _ n EmptyString He) as (c & r & E & Hnz & Hz).
  exists c, r. unfold string_of_N. split; [exact E |].
  rewrite <- E. split; [now apply decimal_digits_all_digits |].
  split; [now rewrite decimal_digits_value |].
  intros Hc. destruct (N.eq_dec n 0) as [H0 | H0]; [now apply Hz |].
  rewrite (Hnz H0) in Hc. discriminate.
Qed.

Lemma digit_not_sign (c : ascii) :
  is_digit 10 c = true ->
  Ascii.eqb "-" c = false /\ Ascii.eqb "+" c = false /\ Ascii.eqb "I" c = false /\
  Ascii.eqb "." c = false /\ is_ws c = false.
Proof.
  intros H. apply is_digit_decimal in H. simpl in H.
  repeat (destruct H as [<- | H]; [repeat split; reflexivity |]). contradiction.
Qed.

Lemma prefix_0x_decimal (x c : ascii) (r : string) :
  is_digit 10 c = true -> (Ascii.eqb c "0" = true -> r = EmptyString) ->
  prefix (String "0" (String x EmptyString)) (String c r) = None.
Proof.
  intros Hd Hz. cbn [prefix]. rewrite (Ascii.eqb_sym "0" c).
  destruct (Ascii.eqb c "0") eqn:E; [| reflexivity].
  rewrite (Hz eq_refl). reflexivity.
Qed.

Lemma read_sign_digit (c : ascii) (r : string) :
  is_digit 10 c = true -> read_sign (String c r) = (1, String c r).
Proof.
  intros Hc. destruct (digit_not_sign c Hc) as (Hm & Hp & _).
  unfold read_sign. cbn [prefix]. now rewrite Hm, Hp.
Qed.

Lemma read_sign_minus (s : string) : read_sign (String "-" s) = (-1, s).
Proof. reflexivity. Qed.

Lemma skip_ws_digit (c : ascii) (r : string) :
  is_digit 10 c = true -> skip_ws (String c r) = String c r.
Proof.
  intros Hc. destruct (digit_not_sign c Hc) as (_ & _ & _ & _ & Hw).
  cbn [skip_ws]. now rewrite Hw.
Qed.

Lemma read_integer_digits (ds rest : string) :
  all_digits 10 ds = true -> ds <> EmptyString -> starts_with_digit 10 rest = false ->
  read_integer 10 (ds ++ rest) = Some (digits_value 10 0 ds).
Proof.
  intros Hd Hne Hr. unfold read_integer. rewrite span_digits_app by assumption.
  destruct ds; [contradiction | reflexivity].
Qed.

(** [parseInt] reads back the decimal form of an integer. *)
Lemma parseInt_string_of_Z (z : Z) : parseInt (string_of_Z z) = Int z.
Proof.
  destruct (string_of_N_spec (Z.abs_N z)) as (c & r & E & Hall & Hval & Hz).
  assert (Hc : is_digit 10 c = true).
  { simpl in Hall. now apply andb_prop in Hall as [Hc _]. }
  assert (Hint : read_integer 10 (String c r) = Some (Z.of_N (Z.abs_N z))).
  { rewrite <- (append_nil_r (String c r)), <- Hval.
    apply read_integer_digits; [exact Hall | discriminate | reflexivity]. }
  assert (Hrad : read_radix_prefix (String c r) = (10, String c r)).
  { unfold read_radix_prefix. now rewrite !prefix_0x_decimal. }
  unfold parseInt, string_of_Z. rewrite E.
  destruct (Z.ltb_spec z 0) as [Hneg | Hpos].
  - change (skip_ws (String "-" (String c r))) with (String "-" (String c r)).
    rewrite read_sign_minus, Hrad, Hint. f_equal. rewrite N2Z.inj_abs_N. lia.
  - rewrite skip_ws_digit, read_sign_digit, Hrad, Hint by exact Hc.
    f_equal. rewrite N2Z.inj_abs_N. lia.
Qed.


Lemma radix_literal_prefix_decimal (c : ascii) (r : string) :
  is_digit 10 c = true -> (Ascii.eqb c "0" = true -> r = EmptyString) ->
  radix_literal_prefix (String c r) = None.
Proof.
  intros Hc Hz. unfold radix_literal_prefix.
  now rewrite !prefix_0x_decimal.
Qed.

Lemma digit_val_nonneg (radix : Z) (c : ascii) (d : Z) :
  digit_val radix c = Some d -> 0 <= d.
Proof.
  unfold digit_val. set (n := Z.of_N (N_of_ascii c)).
  destruct ((48 <=? n) && (n <=? 57)) eqn:E1.
  { apply andb_prop in E1 as [H1 _]. apply Z.leb_le in H1.
    destruct (n - 48 <? radix); intros H; inversion H; lia. }
  destruct ((97 <=? n) && (n <=? 122)) eqn:E2.
  { apply andb_prop in E2 as [H1 _]. apply Z.leb_le in H1.
    destruct (n - 87 <? radix); intros H; inversion H; lia. }
  destruct ((65 <=? n) && (n <=? 90)) eqn:E3; [| discriminate].
  apply andb_prop in E3 as [H1 _]. apply Z.leb_le in H1.
  destruct (n - 55 <? radix); intros H; inversion H; lia.
Qed.

Lemma digits_value_nonneg (radix : Z) (ds : string) : forall acc,
  0 <= radix -> 0 <= acc -> 0 <= digits_value radix acc ds.
Proof.
  induction ds as [|c ds IH]; intros acc Hr Ha; cbn [digits_value]; [exact Ha |].
  destruct (digit_val radix c) as [d|] eqn:E; [| exact Ha].
  apply IH; [exact Hr |]. apply digit_val_nonneg in E. nia.
Qed.

Lemma read_unsigned_decimal_digits (c : ascii) (r : string) :
  all_digits 10 (String c r) = true ->
  read_unsigned_decimal (String c r)
  = Some (Int (digits_value 10 0 (String c r)), EmptyString).
Proof.
  intros Hall.
  assert (Hc : is_digit 10 c = true).
  { simpl in Hall. now apply andb_prop in Hall as [Hc _]. }
  destruct (digit_not_sign c Hc) as (_ & _ & HI & _).
  unfold read_unsigned_decimal.
  assert (Hinf : prefix "Infinity" (String c r) = None).
  { cbn [prefix]. now rewrite HI. }
  rewrite Hinf.
  rewrite <- (append_nil_r (String c r)) at 1.
  rewrite span_digits_app by (exact Hall || reflexivity).
  cbn [prefix read_exponent String.length Z.of_nat Z.sub Z.opp Z.add].
  rewrite NumberFacts.decimal_integer by (repeat apply digits_value_nonneg; lia).
  reflexivity.
Qed.

(** String-to-number conversion reads back the decimal form of an integer. *)
Lemma StringToNumber_string_of_Z (z : Z) : StringToNumber (string_of_Z z) = Int z.
Proof.
  destruct (string_of_N_spec (Z.abs_N z)) as (c & r & E & Hall & Hval & Hz).
  assert (Hc : is_digit 10 c = true).
  { simpl in Hall. now apply andb_prop in Hall as [Hc _]. }
  destruct (digit_not_sign c Hc) as (Hm & Hp & _ & _ & Hw).
  unfold StringToNumber, string_of_Z. rewrite E.
  destruct (Z.ltb_spec z 0) as [Hneg | Hpos].
  - change (skip_ws (String "-" (String c r))) with (String "-" (String c r)).
    change (radix_literal_prefix (String "-" (String c r))) with (@None (Z * string)).
    unfold read_decimal_literal.
    change (prefix "-" (String "-" (String c r))) with (Some (String c r)).
    cbv beta iota.
    rewrite read_unsigned_decimal_digits by exact Hall.
    cbn [all_ws]. rewrite Hval, NumberFacts.negate_Int by lia.
    f_equal. rewrite N2Z.inj_abs_N. lia.
  - rewrite skip_ws_digit by exact Hc.
    rewrite radix_literal_prefix_decimal by assumption.
    unfold read_decimal_literal. cbn [prefix]. rewrite Hm, Hp.
    cbv beta iota.
    rewrite read_unsigned_decimal_digits by exact Hall.
    cbn [all_ws]. rewrite Hval. f_equal. rewrite N2Z.inj_abs_N. lia.
Qed.

End DigitFacts.

(** ** Array scans and object properties *)

Module ArrayFacts.
Import Js.

Section Scan.
Variable f : value -> completion bool.

Lemma find_none (l : list value) :
  (forall p, In p l -> f p = Normal false) -> find f l = Normal None.
Proof.
  induction l as [|x l IH]; intros H; simpl; [reflexivity |].
  rewrite (H x) by now left. simpl. apply IH. intros p Hp. apply H. now right.
Qed.

Lemma findIndex_none (l : list value) :
  (forall p, In p l -> f p = Normal false) -> findIndex f l = Normal None.
Proof.
  induction l as [|x l IH]; intros H; simpl; [reflexivity |].
  rewrite (H x) by now left. simpl. rewrite IH; [reflexivity |].
  intros p Hp. apply H. now right.
Qed.

Lemma find_first (pre post : list value) (r : value) :
  (forall p, In p pre -> f p = Normal false) -> f r = Normal true ->
  find f (pre ++ r :: post) = Normal (Some r).
Proof.
  intros Hpre Hr. induction pre as [|x pre IH]; simpl.
  - now rewrite Hr.
  - rewrite (Hpre x) by now left. simpl. apply IH.
    intros p Hp. apply Hpre. now right.
Qed.

Lemma findIndex_first (pre post : list value) (r : value) :
  (forall p, In p pre -> f p = Normal false) -> f r = Normal true ->
  findIndex f (pre ++ r :: post) = Normal (Some (List.length pre)).
Proof.
  intros Hpre Hr. induction pre as [|x pre IH]; simpl.
  - now rewrite Hr.
  - rewrite (Hpre x) by now left. simpl. rewrite IH; [reflexivity |].
    intros p Hp. apply Hpre. now right.
Qed.

(** A throw at the first entry that does not compare false ends the scan. *)
Lemma findIndex_throw (pre post : list value) (r : value) (e : js_error) :
  (forall p, In p pre -> f p = Normal false) -> f r = Throw e ->
  findIndex f (pre ++ r :: post) = Throw e.
Proof.
  intros Hpre Hr. induction pre as [|x pre IH]; simpl.
  - now rewrite Hr.
  - rewrite (Hpre x) by now left. simpl. rewrite IH; [reflexivity |].
    intros p Hp. apply Hpre. now right.
Qed.

End Scan.

Lemma nth_middle (pre post : list value) (r d : value) :
  nth (List.length pre) (pre ++ r :: post) d = r.
Proof. induction pre as [|x pre IH]; simpl; [reflexivity | exact IH]. Qed.

Lemma assign_middle (pre post : list value) (r v : value) :
  assign (List.length pre) v (pre ++ r :: post) = pre ++ v :: post.
Proof. induction pre as [|x pre IH]; simpl; [reflexivity | now rewrite IH]. Qed.

Lemma splice1_middle (pre post : list value) (r : value) :
  splice1 (List.length pre) (pre ++ r :: post) = pre ++ post.
Proof. induction pre as [|x pre IH]; simpl; [reflexivity | now rewrite IH]. Qed.

End ArrayFacts.

Module ObjectFacts.
Import Js.

Lemma lookup_set_prop (k k' : string) (v : value) (o : props) :
  lookup k (set_prop k' v o) = if String.eqb k k' then Some v else lookup k o.
Proof.
  induction o as [|[k0 v0] o IH]; cbn [set_prop lookup].
  - destruct (String.eqb k k'); reflexivity.
  - destruct (String.eqb_spec k' k0) as [-> | Hne]; cbn [lookup].
    + destruct (String.eqb k k0); reflexivity.
    + destruct (listed_before k' k0); cbn [lookup].
      * destruct (String.eqb k k'); reflexivity.
      * rewrite IH. destruct (String.eqb_spec k k0) as [-> | Hk].
        -- destruct (String.eqb_spec k0 k'); [congruence | reflexivity].
        -- reflexivity.
Qed.

Lemma lookup_not_in (k : string) (o : props) :
  ~ In k (keys o) -> lookup k o = None.
Proof.
  induction o as [|[k0 v0] o IH]; simpl; intros H; [reflexivity |].
  destruct (String.eqb_spec k k0) as [-> | Hne]; [tauto |].
  apply IH. tauto.
Qed.

Lemma lookup_Some_in (k : string) (v : value) (o : props) :
  lookup k o = Some v -> In k (keys o).
Proof.
  induction o as [|[k0 v0] o IH]; cbn [lookup keys map fst]; [discriminate |].
  destruct (String.eqb_spec k k0) as [-> | Hne]; [now left | right; now apply IH].
Qed.

(** Copying properties with distinct names: the copied ones win, the
    others are kept. *)
Lemma lookup_copy_props (k : string) (src : props) : forall target,
  NoDup (keys src) ->
  lookup k (copy_props src target)
  = match lookup k src with Some v => Some v | None => lookup k target end.
Proof.
  unfold copy_props.
  induction src as [|[k0 v0] src IH]; intros target Hnd; simpl; [reflexivity |].
  inversion Hnd as [|? ? Hnotin Hnd']; subst.
  rewrite IH by exact Hnd'. rewrite lookup_set_prop.
  destruct (String.eqb_spec k k0) as [-> | Hne].
  - now rewrite (lookup_not_in k0 src Hnotin).
  - reflexivity.
Qed.

(** *** The order of the properties *)

Lemma listed_before_asym (k k' : string) :
  listed_before k k' = true -> listed_before k' k = false.
Proof.
  unfold listed_before.
  destruct (array_index k) as [i|], (array_index k') as [j|]; try discriminate;
    try reflexivity.
  intros H. apply Z.ltb_lt in H. apply Z.ltb_ge. lia.
Qed.

Lemma listed_before_trans (a b c : string) :
  listed_before a b = true -> listed_before b c = true -> listed_before a c = true.
Proof.
  unfold listed_before.
  destruct (array_index a) as [i|], (array_index b) as [j|], (array_index c) as [l|];
    try discriminate; try reflexivity.
  intros H1 H2. apply Z.ltb_lt in H1, H2. apply Z.ltb_lt. lia.
Qed.

Lemma keys_set_prop_in (k k' : string) (v : value) (o : props) :
  In k' (keys (set_prop k v o)) -> k' = k \/ In k' (keys o).
Proof.
  induction o as [|[k0 v0] o IH]; cbn [set_prop keys map fst In].
  - intros [<- | []]. now left.
  - destruct (String.eqb_spec k k0) as [-> | Hne]; cbn [map fst In]; [tauto |].
    destruct (listed_before k k0); cbn [map fst In].
    + intros [<- | H]; [now left | now right].
    + intros [<- | H]; [right; now left |].
      destruct (IH H) as [-> | Hin]; [now left | right; now right].
Qed.

Lemma ordered_set_prop (k : string) (v : value) (o : props) :
  ordered (keys o) -> ordered (keys (set_prop k v o)).
Proof.
  induction o as [|[k0 v0] o IH]; cbn [set_prop keys map fst ordered].
  - intros _. split; [constructor | exact I].
  - intros [Hall Hord].
    destruct (String.eqb_spec k k0) as [-> | Hne]; cbn [map fst ordered]; [now split |].
    destruct (listed_before k k0) eqn:E; cbn [map fst ordered].
    + split; [| now split]. constructor; [now apply listed_before_asym |].
      rewrite Forall_forall in Hall |- *. intros k' Hk'.
      destruct (listed_before k' k) eqn:E'; [| reflexivity].
      rewrite <- (Hall k' Hk'). symmetry. now apply (listed_before_trans k' k k0).
    + split; [| now apply IH].
      rewrite Forall_forall in Hall |- *. intros k' Hk'.
      destruct (keys_set_prop_in _ _ _ _ Hk') as [-> | Hin]; [exact E | now apply Hall].
Qed.

Lemma NoDup_set_prop (k : string) (v : value) (o : props) :
  ordered (keys o) -> NoDup (keys o) -> NoDup (keys (set_prop k v o)).
Proof.
  induction o as [|[k0 v0] o IH]; cbn [set_prop keys map fst ordered].
  - intros _ _. repeat constructor. intros [].
  - intros [Hall Hord] Hnd. inversion Hnd as [|? ? Hnotin Hnd']; subst.
    destruct (String.eqb_spec k k0) as [-> | Hne]; cbn [map fst]; [exact Hnd |].
    destruct (listed_before k k0) eqn:E; cbn [map fst].
    + constructor; [| exact Hnd]. intros [Heq | Hin]; [congruence |].
      rewrite Forall_forall in Hall. rewrite (Hall k Hin) in E. discriminate.
    + constructor; [| now apply IH]. intros Hin.
      destruct (keys_set_prop_in _ _ _ _ Hin) as [Heq | Hin']; [congruence | contradiction].
Qed.

Lemma ordered_copy_props (src : props) : forall target,
  ordered (keys target) -> NoDup (keys target) ->
  ordered (keys (copy_props src target)) /\ NoDup (keys (copy_props src target)).
Proof.
  unfold copy_props. induction src as [|[k v] src IH]; intros target Ho Hn; [now split |].
  cbn [fold_left fst snd]. apply IH; [now apply ordered_set_prop | now apply NoDup_set_prop].
Qed.

Lemma ordered_app_l (a b : list string) : ordered (a ++ b) -> ordered a.
Proof.
  induction a as [|k a IH]; cbn [app ordered]; [trivial |].
  intros [Hall Hord]. split; [| now apply IH].
  apply Forall_app in Hall. tauto.
Qed.

(** A new property that comes last in the order is appended. *)
Lemma set_prop_last (k : string) (v : value) (o : props) :
  ordered (keys (o ++ [(k, v)])) -> NoDup (keys (o ++ [(k, v)])) ->
  set_prop k v o = o ++ [(k, v)].
Proof.
  induction o as [|[k0 v0] o IH]; cbn [app set_prop keys map fst ordered]; [reflexivity |].
  intros [Hall Hord] Hnd. inversion Hnd as [|? ? Hnotin Hnd']; subst.
  assert (Hin : In k (map fst (o ++ [(k, v)]))).
  { rewrite map_app. apply in_or_app. right. now left. }
  destruct (String.eqb_spec k k0) as [-> | Hne]; [contradiction |].
  rewrite Forall_forall in Hall. rewrite (Hall k Hin).
  f_equal. now apply IH.
Qed.

Lemma copy_props_fresh (src : props) : forall target,
  ordered (keys (target ++ src)) -> NoDup (keys (target ++ src)) ->
  copy_props src target = target ++ src.
Proof.
  unfold copy_props.
  induction src as [|[k0 v0] src IH]; intros target Ho Hnd; cbn [fold_left fst snd].
  - now rewrite app_nil_r.
  - replace (target ++ (k0, v0) :: src) with ((target ++ [(k0, v0)]) ++ src) in Ho, Hnd
      by (now rewrite <- app_assoc).
    rewrite set_prop_last.
    + rewrite IH by assumption. now rewrite <- app_assoc.
    + unfold keys in *. rewrite map_app in Ho. now apply ordered_app_l in Ho.
    + unfold keys in *. rewrite map_app in Hnd. now apply NoDup_app_remove_r in Hnd.
Qed.

(** Spreading an object as [JSON.parse] builds it into a fresh object
    copies it. *)
Lemma copy_props_nil (o : props) :
  ordered (keys o) -> NoDup (keys o) -> copy_props o [] = o.
Proof. intros Ho H. now rewrite copy_props_fresh. Qed.

(** Setting a property to the value it has changes nothing. *)
Lemma set_prop_same (k : string) (v : value) (o : props) :
  ordered (keys o) -> lookup k o = Some v -> set_prop k v o = o.
Proof.
  induction o as [|[k0 v0] o IH]; cbn [set_prop lookup keys map fst ordered];
    intros Ho H; [discriminate |].
  destruct Ho as [Hall Hord].
  destruct (String.eqb_spec k k0) as [-> | Hne].
  - now inversion H.
  - rewrite Forall_forall in Hall.
    rewrite (Hall k (lookup_Some_in _ _ _ H)). f_equal. now apply IH.
Qed.

Lemma copy_props_same (src : props) : forall target,
  ordered (keys target) ->
  (forall k v, In (k, v) src -> lookup k target = Some v) ->
  copy_props src target = target.
Proof.
  unfold copy_props. induction src as [|[k v] src IH]; intros target Ho H; [reflexivity |].
  cbn [fold_left fst snd]. rewrite set_prop_same by (auto; apply H; now left).
  apply IH; [exact Ho |]. intros k' v' Hin. apply H. now right.
Qed.

End ObjectFacts.

(** ** The file-backed handlers, case by case *)

Module FileBackedFacts.
Import Js Http FileBacked DigitFacts ArrayFacts ObjectFacts.

Lemma get_id_admitted (p : value) :
  admitted p -> exists x, get_id p = Normal x.
Proof. destruct p; simpl; intros H; try contradiction; eauto. Qed.

Lemma strict_equals_Int (x : option value) (n : Z) :
  strict_equals x (Int n) = true <-> x = Some (Num n).
Proof.
  unfold Num.
  destruct x as [[| | y | | |]|]; cbn [strict_equals]; split; intros H;
    try discriminate.
  - apply NumberFacts.number_eq_true in H. now subst.
  - injection H as ->. apply NumberFacts.number_eq_Int_refl.
Qed.

(** An entry whose [id] is not the number [n] fails the strict test. *)
Lemma id_strictly_miss (p : value) (n : Z) :
  admitted p -> get_id p <> Normal (Some (Num n)) ->
  id_strictly (Int n) p = Normal false.
Proof.
  intros Ha Hne. destruct (get_id_admitted p Ha) as [x Hx].
  unfold id_strictly. rewrite Hx. simpl. f_equal.
  destruct (strict_equals x (Int n)) eqn:E; [| reflexivity].
  apply strict_equals_Int in E. subst. now rewrite Hx in Hne.
Qed.

Lemma id_strictly_hit (o : props) (n : Z) :
  lookup "id" o = Some (Num n) -> id_strictly (Int n) (Obj o) = Normal true.
Proof.
  intros H. unfold id_strictly. cbn [get_id bind]. rewrite H. unfold Num.
  cbn [strict_equals]. now rewrite NumberFacts.number_eq_Int_refl.
Qed.

(** No entry is strictly equal to [NaN]. *)
Lemma id_strictly_NaN (p : value) : admitted p -> id_strictly NaN p = Normal false.
Proof.
  intros Ha. destruct (get_id_admitted p Ha) as [x Hx].
  unfold id_strictly. rewrite Hx. cbn [bind]. f_equal.
  destruct x as [[| | y | | |]|]; cbn [strict_equals]; try reflexivity.
  apply NumberFacts.number_eq_NaN_r.
Qed.

Lemma id_loosely_string (o : props) (n : Z) :
  lookup "id" o = Some (Str (string_of_Z n)) -> id_loosely (Int n) (Obj o) = Normal true.
Proof.
  intros H. unfold id_loosely. cbn [get_id bind]. rewrite H. cbn [loose_equals].
  now rewrite StringToNumber_string_of_Z, NumberFacts.number_eq_Int_refl.
Qed.

(** On entries that carry a number as id, as the data model has it, the
    loose test is the comparison of the two numbers. *)
Lemma id_loosely_number (p : value) (x id : number) :
  get_id p = Normal (Some (Number x)) -> id_loosely id p = Normal (number_eq x id).
Proof. intros H. unfold id_loosely. now rewrite H. Qed.

Lemma stored_ok_In (st : state) (p : value) :
  stored_ok st -> In p (pokemonsList st) -> admitted p.
Proof. unfold stored_ok. rewrite Forall_forall. auto. Qed.

(** GET with an id that no stored entry carries. *)
Lemma get_pokemon_miss (st : state) (path : string) :
  (forall p, In p (pokemonsList st) -> id_strictly (parseInt path) p = Normal false) ->
  handle st (GET_pokemon path) = (st, not_found).
Proof.
  intros H. unfold handle, get_pokemon, express. simpl.
  now rewrite find_none.
Qed.

Lemma delete_pokemon_miss (st : state) (path : string) :
  (forall p, In p (pokemonsList st) -> id_strictly (parseInt path) p = Normal false) ->
  handle st (DELETE_pokemon path) = (st, not_found).
Proof.
  intros H. unfold handle, delete_pokemon, express.
  now rewrite findIndex_none.
Qed.

Lemma put_pokemon_miss (st : state) (path : string) (body : value) :
  (forall p, In p (pokemonsList st) -> id_loosely (parseInt path) p = Normal false) ->
  handle st (PUT_pokemon path body) = (st, not_found).
Proof.
  intros H. unfold handle, put_pokemon, express.
  now rewrite findIndex_none.
Qed.

Lemma get_pokemon_hit (st : state) (path : string) (pre post : list value) (o : props) :
  pokemonsList st = pre ++ Obj o :: post ->
  (forall p, In p pre -> id_strictly (parseInt path) p = Normal false) ->
  id_strictly (parseInt path) (Obj o) = Normal true ->
  handle st (GET_pokemon path) = (st, send 200 (Obj o)).
Proof.
  intros Hl Hpre Hr. unfold handle, get_pokemon, express. simpl.
  rewrite Hl, (find_first _ pre post (Obj o) Hpre Hr). reflexivity.
Qed.

Lemma delete_pokemon_hit (st : state) (path : string) (pre post : list value) (r : value) :
  pokemonsList st = pre ++ r :: post ->
  (forall p, In p pre -> id_strictly (parseInt path) p = Normal false) ->
  id_strictly (parseInt path) r = Normal true ->
  handle st (DELETE_pokemon path)
  = (writeFileSync (pre ++ post),
     send 200 (Obj [("message", Str (utf8 "Pokémon supprimé avec succès.")); ("pokemon", r)])).
Proof.
  intros Hl Hpre Hr. unfold handle, delete_pokemon, express.
  rewrite Hl, (findIndex_first _ pre post r Hpre Hr).
  now rewrite nth_middle, splice1_middle.
Qed.

Lemma put_pokemon_hit (st : state) (path : string) (body : value)
      (pre post : list value) (r : value) :
  pokemonsList st = pre ++ r :: post ->
  (forall p, In p pre -> id_loosely (parseInt path) p = Normal false) ->
  id_loosely (parseInt path) r = Normal true ->
  handle st (PUT_pokemon path body)
  = (writeFileSync (pre ++ spread2 r body :: post),
     send 200 (Obj [("message", Str (utf8 "Pokémon mis à jour avec succès."));
                    ("pokemon", spread2 r body)])).
Proof.
  intros Hl Hpre Hr. unfold handle, put_pokemon, express.
  rewrite Hl, (findIndex_first _ pre post r Hpre Hr).
  now rewrite nth_middle, assign_middle, nth_middle.
Qed.

(** Spreading two objects merges the second onto the first. *)
Lemma spread_merges (ro bo : props) :
  NoDup (keys ro) -> NoDup (keys bo) ->
  shallow_merge ro bo (copy_props bo (copy_props ro [])).
Proof.
  intros Hr Hb.
  assert (Hlook : forall k,
            lookup k (copy_props bo (copy_props ro []))
            = match lookup k bo with
              | Some v => Some v
              | None => lookup k ro
              end).
  { intros k. rewrite lookup_copy_props by exact Hb.
    destruct (lookup k bo); [reflexivity |].
    rewrite lookup_copy_props by exact Hr. now destruct (lookup k ro). }
  split.
  - intros k v Hk. now rewrite Hlook, Hk.
  - intros k Hk. now rewrite Hlook, Hk.
Qed.

(** PUT on a path whose first loose match is the object [ro]. *)
Lemma put_pokemon_merges (st : state) (path : string) (ro bo : props)
      (pre post : list value) :
  pokemonsList st = pre ++ Obj ro :: post ->
  (forall p, In p pre -> id_loosely (parseInt path) p = Normal false) ->
  id_loosely (parseInt path) (Obj ro) = Normal true ->
  NoDup (keys ro) -> NoDup (keys bo) ->
  exists mo,
    handle st (PUT_pokemon path (Obj bo))
    = (writeFileSync (pre ++ Obj mo :: post), updated mo) /\
    shallow_merge ro bo mo.
Proof.
  intros Hl Hpre Hr Hnr Hnb.
  exists (copy_props bo (copy_props ro [])). split.
  - now apply (put_pokemon_hit st path (Obj bo) pre post (Obj ro)).
  - now apply spread_merges.
Qed.

(** [stored_ok] is an invariant: the handlers only ever add a request
    body or a spread object to the list. *)
Lemma stored_ok_handle (st : state) (rq : request) :
  stored_ok st ->
  match rq with
  | POST_pokemons b | PUT_pokemon _ b => admitted b
  | _ => True
  end ->
  stored_ok (fst (handle st rq)).
Proof.
  unfold stored_ok. intros Hok Hb.
  destruct rq as [| b | i | i b | i |]; unfold handle, express.
  - exact Hok.
  - cbn [post_pokemons fst snd pokemonsList writeFileSync].
    apply Forall_app. split; [exact Hok | now constructor].
  - cbn [get_pokemon fst snd]. now destruct (bind _ _).
  - unfold put_pokemon.
    destruct (findIndex _ _) as [[index|]|]; cbn [fst snd]; try exact Hok.
    cbn [writeFileSync pokemonsList].
    assert (Hm : admitted (spread2 (nth index (pokemonsList st) Null) b)) by exact I.
    revert Hm. generalize (spread2 (nth index (pokemonsList st) Null) b). intros m Hm.
    revert index. induction Hok as [|x l Hx Hl IH]; intros [|index]; cbn [assign];
      try constructor; auto.
  - unfold delete_pokemon.
    destruct (findIndex _ _) as [[index|]|]; cbn [fst snd]; try exact Hok.
    cbn [writeFileSync pokemonsList].
    revert index. induction Hok as [|x l Hx Hl IH]; intros [|index]; cbn [splice1];
      try constructor; auto.
  - exact Hok.
Qed.

End FileBackedFacts.

(** ** Numbers as text *)

Module NumberTextFacts.
Import Js StringFacts DigitFacts NumberFacts.

(** *** The full expansion *)

Lemma fixed_digits_value (k : nat) : forall n acc a,
  digits_value 10 a (fixed_digits k n acc)
  = digits_value 10 (a * 10 ^ Z.of_nat k + Z.of_N (n mod 10 ^ N.of_nat k)) acc.
Proof.
  induction k as [|k IH]; intros n acc a.
  - cbn [fixed_digits]. f_equal. change (N.of_nat 0) with 0%N.
    rewrite N.pow_0_r, N.mod_1_r. cbn. lia.
  - cbn [fixed_digits]. rewrite IH. cbn [digits_value].
    assert (Hm : (n mod 10 < 10)%N) by (apply N.mod_lt; lia).
    rewrite digit_char_spec by exact Hm. f_equal.
    rewrite Nat2Z.inj_succ, Z.pow_succ_r by lia.
    rewrite Nat2N.inj_succ, N.pow_succ_r by lia.
    rewrite (N.Div0.mod_mul_r n 10 (10 ^ N.of_nat k)).
    lia.
Qed.

Lemma fixed_digits_all_digits (k : nat) : forall n acc,
  all_digits 10 acc = true -> all_digits 10 (fixed_digits k n acc) = true.
Proof.
  induction k as [|k IH]; intros n acc Ha; cbn [fixed_digits]; [exact Ha |].
  apply IH. cbn [all_digits].
  rewrite digit_char_is_digit by (apply N.mod_lt; lia). exact Ha.
Qed.

Lemma fixed_digits_length (k : nat) : forall n acc,
  String.length (fixed_digits k n acc) = (k + String.length acc)%nat.
Proof.
  induction k as [|k IH]; intros n acc; cbn [fixed_digits]; [reflexivity |].
  rewrite IH. cbn [String.length]. lia.
Qed.

Lemma digits_value_app (radix : Z) (a : string) : forall acc b,
  all_digits radix a = true ->
  digits_value radix acc (a ++ b) = digits_value radix (digits_value radix acc a) b.
Proof.
  induction a as [|c a IH]; intros acc b Ha; [reflexivity |].
  cbn [all_digits] in Ha. apply andb_prop in Ha as [Hc Ha].
  cbn [append digits_value]. unfold is_digit in Hc.
  destruct (digit_val radix c); [now apply IH | discriminate].
Qed.

Lemma pow10_split : 10 ^ 1074 = 2 ^ 1074 * 5 ^ 1074.
Proof. rewrite <- Z.pow_mul_l. reflexivity. Qed.

(** An integer part, a point and [k] digits. *)
Lemma json_number_point (ip fp : N) (k : nat) :
  json_number (string_of_N ip ++ "." ++ fixed_digits (S k) fp EmptyString)
  = Some (decimal (Z.of_N ip * 10 ^ Z.of_nat (S k) + Z.of_N (fp mod 10 ^ N.of_nat (S k)))
                  (- Z.of_nat (S k)),
          EmptyString).
Proof.
  set (fd := fixed_digits (S k) fp EmptyString).
  destruct (string_of_N_spec ip) as (c & r & E & Hall & Hval & Hz).
  assert (Hc : is_digit 10 c = true).
  { cbn [all_digits] in Hall. now apply andb_prop in Hall as [Hc _]. }
  destruct (digit_not_sign c Hc) as (Hm & _).
  assert (Hfd : all_digits 10 fd = true) by now apply fixed_digits_all_digits.
  assert (Hlen : String.length fd = S k).
  { unfold fd. rewrite fixed_digits_length. cbn [String.length]. lia. }
  unfold json_number. rewrite E.
  assert (Hp : prefix "-" (String c r ++ "." ++ fd) = None).
  { cbn [append prefix]. now rewrite Hm. }
  rewrite Hp. unfold json_unsigned.
  rewrite span_digits_app by (exact Hall || reflexivity).
  assert (Hlz : leading_zero (String c r) = false).
  { unfold leading_zero. destruct r as [|c' r']; [reflexivity |].
    destruct (Ascii.eqb c "0") eqn:E0; [| reflexivity].
    discriminate (Hz eq_refl). }
  rewrite Hlz. unfold read_fraction.
  change (prefix "." ("." ++ fd)) with (Some fd).
  rewrite <- (append_nil_r fd) at 1.
  rewrite span_digits_app by (exact Hfd || reflexivity).
  destruct fd as [|f0 fd'] eqn:Efd; [discriminate Hlen |]. rewrite <- Efd in *.
  cbn [read_json_exponent].
  rewrite Hlen, Hval. unfold fd. rewrite fixed_digits_value.
  cbn [digits_value]. reflexivity.
Qed.

(** The full expansion of a double is read back as that double. *)
Lemma json_number_exact_text (u : Z) :
  0 <= u -> representable u ->
  json_number (exact_text u) = Some (Finite u, EmptyString).
Proof.
  intros Hu Hr. unfold exact_text. cbv zeta.
  change 1074%nat with (S 1073).
  rewrite json_number_point. f_equal. f_equal.
  set (p := Z.to_N (u * 5 ^ 1074)).
  change (N.of_nat (S 1073)) with 1074%N.
  change (Z.of_nat (S 1073)) with 1074.
  rewrite N.Div0.mod_mod.
  assert (H5 : 0 < 5 ^ 1074) by (apply Z.pow_pos_nonneg; lia).
  assert (HP : Z.of_N p = u * 5 ^ 1074).
  { unfold p. rewrite Z2N.id; nia. }
  assert (HQ : Z.of_N (10 ^ 1074) = 10 ^ 1074).
  { rewrite N2Z.inj_pow. reflexivity. }
  assert (Hq0 : 0 < 10 ^ 1074) by (apply Z.pow_pos_nonneg; lia).
  assert (Hval : Z.of_N (p / 10 ^ 1074) * 10 ^ 1074 + Z.of_N (p mod 10 ^ 1074)
                 = u * 5 ^ 1074).
  { rewrite N2Z.inj_div, N2Z.inj_mod, HP, HQ.
    pose proof (Z.div_mod (u * 5 ^ 1074) (10 ^ 1074)). lia. }
  rewrite Hval. unfold decimal.
  destruct (Z.leb_spec 0 (- 1074)); [lia |].
  rewrite Z.opp_involutive, pow10_split. now apply to_number_exact.
Qed.

(** *** A number followed by other text *)

(** What may follow a number: neither a digit nor a fraction or exponent. *)
Lemma span_digits_extend (s rest : string) :
  starts_with_digit 10 rest = false ->
  span_digits 10 (s ++ rest)
  = (fst (span_digits 10 s), (snd (span_digits 10 s) ++ rest)%string).
Proof.
  intros Hr. induction s as [|c s IH]; cbn [append span_digits].
  - destruct rest as [|c r]; [reflexivity |]. cbn [span_digits].
    cbn [starts_with_digit] in Hr. now rewrite Hr.
  - destruct (is_digit 10 c); [| reflexivity].
    rewrite IH. now destruct (span_digits 10 s).
Qed.

Lemma read_sign_extend (c : ascii) (s rest : string) :
  read_sign (String c s ++ rest)
  = (fst (read_sign (String c s)), (snd (read_sign (String c s)) ++ rest)%string).
Proof.
  unfold read_sign. cbn [append prefix].
  destruct (Ascii.eqb "-" c); [reflexivity |].
  destruct (Ascii.eqb "+" c); reflexivity.
Qed.

Lemma read_fraction_extend (s rest fp r : string) :
  starts_with_digit 10 rest = false -> Json.starts_fraction rest = false ->
  read_fraction s = Some (fp, r) ->
  read_fraction (s ++ rest) = Some (fp, (r ++ rest)%string).
Proof.
  intros Hd Hf. unfold read_fraction.
  destruct s as [|c s].
  - cbn [prefix append]. intros H. inversion H; subst.
    destruct rest as [|c r]; [reflexivity |]. cbn [prefix].
    cbn [Json.starts_fraction] in Hf.
    rewrite Ascii.eqb_sym. destruct (Ascii.eqb c "."); [discriminate | reflexivity].
  - cbn [append prefix]. destruct (Ascii.eqb "." c).
    + rewrite span_digits_extend by exact Hd.
      destruct (span_digits 10 s) as [fd r']. cbn [fst snd].
      destruct fd; [discriminate |]. intros H. now inversion H.
    + intros H. now inversion H.
Qed.

Lemma read_json_exponent_extend (s rest : string) (e : Z) (r : string) :
  starts_with_digit 10 rest = false -> Json.starts_fraction rest = false ->
  read_json_exponent s = Some (e, r) ->
  read_json_exponent (s ++ rest) = Some (e, (r ++ rest)%string).
Proof.
  intros Hd Hf. destruct s as [|c s].
  - cbn [read_json_exponent append]. intros H. inversion H; subst.
    destruct rest as [|c r]; [reflexivity |]. cbn [read_json_exponent].
    cbn [Json.starts_fraction] in Hf.
    destruct (Ascii.eqb c "e"); [now rewrite orb_true_r in Hf |].
    destruct (Ascii.eqb c "E"); [now rewrite !orb_true_r in Hf |]. reflexivity.
  - cbn [read_json_exponent append].
    destruct (Ascii.eqb c "e" || Ascii.eqb c "E")%bool.
    + destruct s as [|d s].
      * cbn. discriminate.
      * rewrite read_sign_extend.
        destruct (read_sign (String d s)) as [esign r1]. cbn [fst snd].
        rewrite span_digits_extend by exact Hd.
        destruct (span_digits 10 r1) as [es r2]. cbn [fst snd].
        destruct es; [discriminate |]. intros H. now inversion H.
    + intros H. now inversion H.
Qed.

Lemma json_unsigned_extend (s rest : string) (x : number) (r : string) :
  starts_with_digit 10 rest = false -> Json.starts_fraction rest = false ->
  json_unsigned s = Some (x, r) ->
  json_unsigned (s ++ rest) = Some (x, (r ++ rest)%string).
Proof.
  intros Hd Hf. unfold json_unsigned.
  rewrite span_digits_extend by exact Hd.
  destruct (span_digits 10 s) as [ip r1]. cbn [fst snd].
  destruct ip as [|i0 ip']; [discriminate |].
  destruct (leading_zero (String i0 ip')); [discriminate |].
  destruct (read_fraction r1) as [[fp r2]|] eqn:Efr; [| discriminate].
  rewrite (read_fraction_extend _ _ _ _ Hd Hf Efr).
  destruct (read_json_exponent r2) as [[e r3]|] eqn:Eex; [| discriminate].
  rewrite (read_json_exponent_extend _ _ _ _ Hd Hf Eex).
  intros H. now inversion H.
Qed.

Lemma json_unsigned_head (s : string) (x : number) (r : string) :
  json_unsigned s = Some (x, r) ->
  exists c t, s = String c t /\ is_digit 10 c = true.
Proof.
  unfold json_unsigned. destruct s as [|c t]; [discriminate |].
  cbn [span_digits]. destruct (is_digit 10 c) eqn:E; [eauto | discriminate].
Qed.

(** A number starts with a minus sign or a digit. *)
Lemma json_number_head (s : string) (x : number) (r : string) :
  json_number s = Some (x, r) ->
  exists c t, s = String c t /\ Json.number_start c.
Proof.
  unfold json_number. destruct s as [|c t]; [discriminate |].
  cbn [prefix]. destruct (Ascii.eqb_spec "-" c) as [<- | Hne].
  - intros _. exists "-"%char, t. split; [reflexivity | now left].
  - intros H. apply json_unsigned_head in H as (c' & t' & E & Hc).
    inversion E; subst. exists c', t'. split; [reflexivity |].
    right. now apply is_digit_decimal.
Qed.

(** A number that ends a text is read the same when other text follows. *)
Lemma json_number_extend (s rest : string) (x : number) (r : string) :
  starts_with_digit 10 rest = false -> Json.starts_fraction rest = false ->
  json_number s = Some (x, r) ->
  json_number (s ++ rest) = Some (x, (r ++ rest)%string).
Proof.
  intros Hd Hf. unfold json_number. destruct s as [|c t]; [discriminate |].
  cbn [append prefix]. destruct (Ascii.eqb "-" c).
  - destruct (json_unsigned t) as [[y r']|] eqn:E; [| discriminate].
    rewrite (json_unsigned_extend _ _ _ _ Hd Hf E). intros H. now inversion H.
  - intros H. exact (json_unsigned_extend (String c t) rest x r Hd Hf H).
Qed.

(** *** Printing, then reading *)

Lemma reads_as_spec (u : Z) (text : string) :
  reads_as u text = true -> json_number text = Some (Finite u, EmptyString).
Proof.
  unfold reads_as. destruct (json_number text) as [[[| b | v] [|c r]]|]; try discriminate.
  intros H. apply Z.eqb_eq in H. now subst.
Qed.

Lemma shortest_reads_back (fuel : nat) : forall u n k text,
  shortest fuel u n k = Some text -> json_number text = Some (Finite u, EmptyString).
Proof.
  induction fuel as [|fuel IH]; intros u n k text; cbn [shortest]; [discriminate |].
  destruct (List.find (reads_as u) (candidates u n k)) as [t|] eqn:E.
  - intros H. inversion H; subst. apply find_some in E as [_ E].
    now apply reads_as_spec.
  - apply IH.
Qed.

Lemma magnitude_text_reads_back (u : Z) :
  0 <= u -> representable u ->
  json_number (magnitude_text u) = Some (Finite u, EmptyString).
Proof.
  intros Hu Hr. unfold magnitude_text.
  destruct (shortest 17 u (decimal_exponent u) 1) as [text|] eqn:E.
  - eapply shortest_reads_back; eauto.
  - now apply json_number_exact_text.
Qed.

(** The digits of an unsigned number are not negative. *)
Lemma json_unsigned_sign (s : string) (u : Z) (r : string) :
  json_unsigned s = Some (Finite u, r) -> 0 <= u.
Proof.
  unfold json_unsigned.
  destruct (span_digits 10 s) as [ip r1].
  destruct ip as [|i0 ip']; [discriminate |].
  destruct (leading_zero (String i0 ip')); [discriminate |].
  destruct (read_fraction r1) as [[fp r2]|]; [| discriminate].
  destruct (read_json_exponent r2) as [[e r3]|]; [| discriminate].
  set (m := digits_value 10 (digits_value 10 0 (String i0 ip')) fp).
  assert (Hm : 0 <= m).
  { unfold m. apply digits_value_nonneg; [lia |]. apply digits_value_nonneg; lia. }
  intros H. inversion H as [[Hd Hrest]]. clear H Hrest.
  unfold decimal in Hd.
  assert (G : forall p q, 0 <= p -> 0 < q -> to_number false p q = Finite u -> 0 <= u).
  { intros p q Hp Hq Hn.
    assert (H2 : 0 < 2 ^ 1074) by (apply Z.pow_pos_nonneg; lia).
    destruct (round_units_on_grid (p * 2 ^ 1074) q) as [H0 _]; [nia | lia |].
    destruct (to_number_cases false p q) as [[E _] | [E _]];
      rewrite E in Hn; [discriminate | inversion Hn; subst; exact H0]. }
  destruct (0 <=? e - Z.of_nat (String.length fp)) eqn:Ek.
  - apply Z.leb_le in Ek. eapply (G _ 1); [| lia | exact Hd].
    assert (0 < 10 ^ (e - Z.of_nat (String.length fp))) by (apply Z.pow_pos_nonneg; lia).
    nia.
  - eapply (G m); [exact Hm | | exact Hd]. apply Z.pow_pos_nonneg; lia.
Qed.

(** A double, printed, is read back. *)
Theorem number_to_string_reads_back (u : Z) :
  representable u ->
  json_number (number_to_string (Finite u)) = Some (Finite u, EmptyString).
Proof.
  intros Hr. cbn [number_to_string].
  destruct (Z.eqb_spec u 0) as [-> | Hne].
  { unfold json_number, json_unsigned. cbn [prefix span_digits].
    change (is_digit 10 "0") with true. cbn [span_digits leading_zero read_fraction prefix
      read_json_exponent digits_value String.length Z.of_nat Z.sub].
    change (digit_val 10 "0") with (Some 0). cbn [digits_value Z.mul Z.add].
    rewrite decimal_integer by lia. unfold Int. cbn [Z.abs Z.ltb Z.compare].
    now rewrite to_number_zero by lia. }
  destruct (Z.ltb_spec u 0) as [Hneg | Hpos].
  - pose proof (magnitude_text_reads_back (- u)) as H.
    specialize (H ltac:(lia) (representable_opp _ Hr)).
    destruct (json_number_head _ _ _ H) as (c & t & E & Hc).
    unfold json_number in H. rewrite E in H. cbn [prefix] in H.
    destruct (Ascii.eqb "-" c) eqn:Em.
    + destruct (json_unsigned t) as [[y r']|] eqn:Ey; [| discriminate].
      inversion H as [[Hy Hr']]. destruct y as [| b | v]; try discriminate.
      apply json_unsigned_sign in Ey. cbn [negate] in Hy. inversion Hy. lia.
    + unfold json_number.
      change (prefix "-" ("-" ++ magnitude_text (- u)))
        with (Some (magnitude_text (- u))).
      cbv beta iota. rewrite E, H.
      cbn [negate]. now rewrite Z.opp_involutive.
  - apply magnitude_text_reads_back; [lia | exact Hr].
Qed.

Lemma negate_double (x : number) :
  match x with NaN => False | Infinity _ => True | Finite u => representable u end ->
  match negate x with NaN => False | Infinity _ => True | Finite u => representable u end.
Proof. destruct x; cbn [negate]; auto. apply representable_opp. Qed.

Lemma decimal_double (m k : Z) :
  0 <= m ->
  match decimal m k with NaN => False | Infinity _ => True | Finite u => representable u end.
Proof.
  intros Hm. unfold decimal. destruct (Z.leb_spec 0 k).
  - apply to_number_double; [| lia].
    assert (0 < 10 ^ k) by (apply Z.pow_pos_nonneg; lia). nia.
  - apply to_number_double; [exact Hm |]. apply Z.pow_pos_nonneg; lia.
Qed.

(** Whatever number a JSON text holds is a double or an infinity. *)
Lemma json_number_double (s : string) (x : number) (r : string) :
  json_number s = Some (x, r) ->
  match x with NaN => False | Infinity _ => True | Finite u => representable u end.
Proof.
  assert (U : forall t y r', json_unsigned t = Some (y, r') ->
            match y with NaN => False | Infinity _ => True | Finite u => representable u end).
  { intros t y r'. unfold json_unsigned.
    destruct (span_digits 10 t) as [ip r1].
    destruct ip as [|i0 ip']; [discriminate |].
    destruct (leading_zero (String i0 ip')); [discriminate |].
    destruct (read_fraction r1) as [[fp r2]|]; [| discriminate].
    destruct (read_json_exponent r2) as [[e r3]|]; [| discriminate].
    intros H. injection H as Hy _. rewrite <- Hy. apply decimal_double.
    apply digits_value_nonneg; [lia |].
    apply (digits_value_nonneg 10 (String i0 ip') 0); lia. }
  unfold json_number. destruct (prefix "-" s) as [t|].
  - destruct (json_unsigned t) as [[y r']|] eqn:E; [| discriminate].
    intros H. inversion H; subst. apply negate_double. eapply U; eauto.
  - apply U.
Qed.

End NumberTextFacts.

(** ** [JSON.parse] after [JSON.stringify] *)

Module JsonFacts.
Import Js Json StringFacts DigitFacts ObjectFacts NumberFacts NumberTextFacts.
Local Open Scope string_scope.

(** *** White space *)

Lemma skip_jws_lead (lead s : string) :
  all_jws lead = true -> skip_jws (lead ++ s) = skip_jws s.
Proof.
  induction lead as [|c lead IH]; simpl; intros H; [reflexivity |].
  apply andb_prop in H as [Hc Hl]. rewrite Hc. now apply IH.
Qed.

Lemma parse_value_lead (fuel : nat) (lead s : string) :
  all_jws lead = true -> parse_value fuel (lead ++ s) = parse_value fuel s.
Proof.
  intros H. destruct fuel; [reflexivity |]. cbn [parse_value].
  now rewrite skip_jws_lead.
Qed.

Lemma expect_lead (c : ascii) (lead s : string) :
  all_jws lead = true -> expect c (lead ++ s) = expect c s.
Proof. intros H. unfold expect. now rewrite skip_jws_lead. Qed.

Lemma expect_head (c d : ascii) (r : string) :
  is_jws d = false -> expect c (String d r) = if Ascii.eqb d c then Some r else None.
Proof. intros H. unfold expect. cbn [skip_jws]. now rewrite H. Qed.

Lemma all_jws_indent_more (ind : string) :
  all_jws ind = true -> all_jws (indent_more ind) = true.
Proof. intros H. unfold indent_more. cbn [all_jws]. now rewrite H. Qed.

(** *** String literals *)

Lemma parse_escape (c : ascii) (t : string) :
  parse_string_body (escape c ++ t) = cons_char c (parse_string_body t).
Proof. destruct c as [[] [] [] [] [] [] [] []]; reflexivity. Qed.

Lemma parse_string_body_quote (s rest : string) :
  parse_string_body (quote_chars s ++ String dquote rest) = Some (s, rest).
Proof.
  induction s as [|c s IH]; [reflexivity |].
  cbn [quote_chars]. rewrite append_assoc, parse_escape, IH. reflexivity.
Qed.

(** *** Numbers *)

Lemma number_end_spec (rest : string) :
  number_end rest = true ->
  starts_with_digit 10 rest = false /\ starts_fraction rest = false.
Proof.
  unfold number_end. intros H. apply andb_prop in H as [H1 H2].
  split; [now destruct (starts_with_digit 10 rest) | now destruct (starts_fraction rest)].
Qed.

(** The text of a number starts with a minus sign, a digit, or the [n]
    of [null]. *)
Lemma number_to_string_head (u : Z) :
  exists c t, number_to_string (Finite u) = String c t /\ number_start c.
Proof.
  cbn [number_to_string].
  destruct (u =? 0)%Z.
  { exists "0"%char, EmptyString. split; [reflexivity |]. right. cbn. tauto. }
  destruct (u <? 0)%Z.
  { eexists _, _. split; [reflexivity | now left]. }
  unfold magnitude_text.
  destruct (shortest 17 u (decimal_exponent u) 1) as [text|] eqn:E.
  - apply shortest_reads_back in E. eapply json_number_head; eauto.
  - unfold exact_text. cbv zeta.
    destruct (string_of_N_spec (Z.to_N (u * 5 ^ 1074) / 10 ^ 1074)) as (c & r & Es & Hall & _).
    rewrite Es. eexists _, _. split; [reflexivity |]. right.
    apply is_digit_decimal. cbn [all_digits] in Hall.
    now apply andb_prop in Hall as [Hc _].
Qed.

Lemma parse_number_text (u : Z) (rest : string) :
  representable u -> number_end rest = true ->
  parse_number (number_to_string (Finite u) ++ rest) = Some (Number (Finite u), rest).
Proof.
  intros Hr Hend. apply number_end_spec in Hend as [Hd Hf].
  unfold parse_number.
  now rewrite (json_number_extend _ rest _ _ Hd Hf (number_to_string_reads_back u Hr)).
Qed.

Lemma number_start_cases (c : ascii) (P : ascii -> Prop) :
  number_start c ->
  P "-"%char -> P "0"%char -> P "1"%char -> P "2"%char -> P "3"%char -> P "4"%char ->
  P "5"%char -> P "6"%char -> P "7"%char -> P "8"%char -> P "9"%char -> P c.
Proof.
  intros [-> | H]; [tauto |]. simpl in H.
  repeat (destruct H as [<- | H]; [tauto |]). contradiction.
Qed.

Lemma parse_value_number_start (fuel : nat) (c : ascii) (t : string) :
  number_start c ->
  parse_value (S fuel) (String c t) = parse_number (String c t).
Proof.
  intros H. revert t. pattern c. apply (number_start_cases c); try exact H;
    intros t; reflexivity.
Qed.

Lemma parse_value_number (fuel : nat) (u : Z) (rest : string) :
  representable u -> number_end rest = true ->
  parse_value (S fuel) (number_to_string (Finite u) ++ rest)
  = Some (Number (Finite u), rest).
Proof.
  intros Hr Hend. rewrite <- (parse_number_text u rest Hr Hend).
  destruct (number_to_string_head u) as (c & t & E & Hc). rewrite E.
  cbn [append]. now apply parse_value_number_start.
Qed.


(** *** Printed values *)

Lemma elems_text_cons (pr : value -> string) (ind : string) (x : value) (l : list value) :
  elems_text pr ind (x :: l)
  = ind ++ pr x ++
    match l with
    | [] => EmptyString
    | _ => String "," (String newline (elems_text pr ind l))
    end.
Proof. reflexivity. Qed.

Lemma members_text_cons (pr : value -> string) (ind k : string) (x : value) (o : props) :
  members_text pr ind ((k, x) :: o)
  = ind ++ quote k ++ ": " ++ pr x ++
    match o with
    | [] => EmptyString
    | _ => String "," (String newline (members_text pr ind o))
    end.
Proof. reflexivity. Qed.

Lemma stringify_at_Arr (ind : string) (x : value) (l : list value) :
  stringify_at ind (Arr (x :: l))
  = String "[" (String newline
      (elems_text (stringify_at (indent_more ind)) (indent_more ind) (x :: l)
       ++ String newline (ind ++ "]"))).
Proof. reflexivity. Qed.

Lemma stringify_at_Obj (ind : string) (kv : string * value) (o : props) :
  stringify_at ind (Obj (kv :: o))
  = String "{" (String newline
      (members_text (stringify_at (indent_more ind)) (indent_more ind) (kv :: o)
       ++ String newline (ind ++ "}"))).
Proof. reflexivity. Qed.

(** A printed value starts with a character that is neither white space
    nor a closing bracket. *)
Lemma stringify_head (ind : string) (v : value) :
  exists c t, stringify_at ind v = String c t /\
              is_jws c = false /\ Ascii.eqb c "]" = false.
Proof.
  destruct v as [| [] | [| b | u] | s | [|x l] | [|kv o]];
    try (eexists; eexists; split; [reflexivity | split; reflexivity]).
  destruct (number_to_string_head u) as (c & t & E & Hc).
  exists c, t. split; [exact E |].
  pattern c. apply (number_start_cases c); try exact Hc; split; reflexivity.
Qed.

Lemma all_jws_app (a b : string) :
  all_jws a = true -> all_jws b = true -> all_jws (a ++ b) = true.
Proof.
  induction a as [|c a IH]; simpl; intros Ha Hb; [exact Hb |].
  apply andb_prop in Ha as [Hc Ha]. rewrite Hc. now apply IH.
Qed.

Section Containers.
Variables (ind' closing rest : string).
Hypothesis Hind' : all_jws ind' = true.
Hypothesis Hclosing : number_end closing = true.

Let pr := stringify_at ind'.

(** What is asked of the values to print: well formed, and finite. *)
Let ok (v : value) : Prop := wf v /\ finite v = true.

Lemma number_end_separator (m : string) :
  number_end (String "," m) = true.
Proof. reflexivity. Qed.

Lemma parse_elems_text (l : list value) :
  Forall (fun x => ok x -> reads_back x) l ->
  Forall ok l ->
  l <> [] ->
  expect "," closing = None ->
  expect "]" closing = Some rest ->
  forall (fuel : nat) (lead : string),
    (list_sum (map (fun x => S (size x)) l) <= fuel)%nat ->
    all_jws lead = true ->
    parse_elems fuel (lead ++ elems_text pr ind' l ++ closing) = Some (l, rest).
Proof.
  intros HIH Hwf Hne Hcomma Hclose.
  induction l as [|x l IHl]; [contradiction |].
  intros fuel lead Hfuel Hlead.
  inversion HIH as [|? ? Hx HIH']; subst.
  inversion Hwf as [|? ? Hwx Hwf']; subst.
  change (S (size x) + list_sum (map (fun x => S (size x)) l) <= fuel)%nat in Hfuel.
  destruct fuel as [|fuel]; [lia |].
  cbn [parse_elems].
  rewrite elems_text_cons.
  set (more := match l with
               | [] => EmptyString
               | _ :: _ => String "," (String newline (elems_text pr ind' l))
               end).
  replace (lead ++ (ind' ++ pr x ++ more) ++ closing)
    with ((lead ++ ind') ++ pr x ++ (more ++ closing))
    by (now rewrite !append_assoc).
  rewrite parse_value_lead by (now apply all_jws_app).
  unfold pr at 1. rewrite (Hx Hwx ind' (more ++ closing) fuel); [| exact Hind' | | lia].
  - destruct l as [|y l].
    + cbn [more append]. now rewrite Hcomma, Hclose.
    + unfold more. cbn [append].
      rewrite expect_head by reflexivity. cbn [Ascii.eqb Bool.eqb].
      change (String newline (elems_text pr ind' (y :: l) ++ closing))
        with (String newline EmptyString ++ elems_text pr ind' (y :: l) ++ closing).
      rewrite IHl; [reflexivity | assumption | assumption | discriminate | | reflexivity].
      lia.
  - destruct l; [exact Hclosing | reflexivity].
Qed.

Lemma parse_members_text (o : props) :
  Forall (fun kv => ok (snd kv) -> reads_back (snd kv)) o ->
  Forall (fun kv => ok (snd kv)) o ->
  o <> [] ->
  expect "," closing = None ->
  expect "}" closing = Some rest ->
  forall (fuel : nat) (lead : string),
    (list_sum (map (fun kv => S (size (snd kv))) o) <= fuel)%nat ->
    all_jws lead = true ->
    parse_members fuel (lead ++ members_text pr ind' o ++ closing) = Some (o, rest).
Proof.
  intros HIH Hwf Hne Hcomma Hclose.
  induction o as [|[k x] o IHo]; [contradiction |].
  intros fuel lead Hfuel Hlead.
  inversion HIH as [|? ? Hx HIH']; subst.
  inversion Hwf as [|? ? Hwx Hwf']; subst.
  cbn [snd] in Hx, Hwx.
  change (S (size x) + list_sum (map (fun kv => S (size (snd kv))) o) <= fuel)%nat in Hfuel.
  destruct fuel as [|fuel]; [lia |].
  cbn [parse_members].
  rewrite members_text_cons.
  set (more := match o with
               | [] => EmptyString
               | _ :: _ => String "," (String newline (members_text pr ind' o))
               end).
  replace (lead ++ (ind' ++ quote k ++ ": " ++ pr x ++ more) ++ closing)
    with ((lead ++ ind') ++
          String dquote (quote_chars k ++
            String dquote (String ":" (String " " (pr x ++ (more ++ closing))))))
    by (unfold quote; repeat first [rewrite append_assoc | progress cbn [append]]; reflexivity).
  rewrite expect_lead by (now apply all_jws_app).
  rewrite expect_head by reflexivity.
  replace (Ascii.eqb dquote dquote) with true by reflexivity.
  rewrite parse_string_body_quote.
  rewrite expect_head by reflexivity.
  replace (Ascii.eqb ":" ":") with true by reflexivity.
  change (String " " (pr x ++ more ++ closing))
    with (String " " EmptyString ++ pr x ++ more ++ closing).
  rewrite parse_value_lead by reflexivity.
  unfold pr at 1. rewrite (Hx Hwx ind' (more ++ closing) fuel); [| exact Hind' | | lia].
  - destruct o as [|kv o].
    + cbn [more append]. now rewrite Hcomma, Hclose.
    + unfold more. cbn [append].
      rewrite expect_head by reflexivity. cbn [Ascii.eqb Bool.eqb].
      change (String newline (members_text pr ind' (kv :: o) ++ closing))
        with (String newline EmptyString ++ members_text pr ind' (kv :: o) ++ closing).
      rewrite IHo; [reflexivity | assumption | assumption | discriminate | | reflexivity].
      lia.
  - destruct o; [exact Hclosing | reflexivity].
Qed.

End Containers.


Lemma expect_closing (c : ascii) (ind rest : string) :
  all_jws ind = true -> is_jws c = false ->
  expect c (String newline (ind ++ String c rest)) = Some rest.
Proof.
  intros Hind Hc.
  change (String newline (ind ++ String c rest))
    with (String newline EmptyString ++ (ind ++ String c rest)).
  rewrite !expect_lead by (exact Hind || reflexivity).
  rewrite expect_head by exact Hc. now rewrite Ascii.eqb_refl.
Qed.

Lemma expect_other_closing (c d : ascii) (ind rest : string) :
  all_jws ind = true -> is_jws d = false -> Ascii.eqb d c = false ->
  expect c (String newline (ind ++ String d rest)) = None.
Proof.
  intros Hind Hd Hne.
  change (String newline (ind ++ String d rest))
    with (String newline EmptyString ++ (ind ++ String d rest)).
  rewrite !expect_lead by (exact Hind || reflexivity).
  rewrite expect_head by exact Hd. now rewrite Hne.
Qed.

Lemma parse_value_string (fuel : nat) (t : string) :
  parse_value (S fuel) (String dquote t)
  = match parse_string_body t with
    | Some (str, r) => Some (Str str, r)
    | None => None
    end.
Proof. reflexivity. Qed.

Lemma parse_value_array (fuel : nat) (r : string) :
  parse_value (S fuel) (String "[" r)
  = match expect "]" r with
    | Some r' => Some (Arr [], r')
    | None =>
        match parse_elems fuel r with
        | Some (l, r') => Some (Arr l, r')
        | None => None
        end
    end.
Proof. reflexivity. Qed.

Lemma parse_value_object (fuel : nat) (r : string) :
  parse_value (S fuel) (String "{" r)
  = match expect "}" r with
    | Some r' => Some (Obj [], r')
    | None =>
        match parse_members fuel r with
        | Some (o, r') => Some (Obj (copy_props o []), r')
        | None => None
        end
    end.
Proof. reflexivity. Qed.

Lemma finite_items (l : list value) :
  forallb finite l = true -> Forall (fun x => finite x = true) l.
Proof. intros H. apply Forall_forall. now apply forallb_forall. Qed.

Lemma finite_members (o : props) :
  forallb (fun kv => finite (snd kv)) o = true ->
  Forall (fun kv => finite (snd kv) = true) o.
Proof.
  intros H. apply Forall_forall. intros kv Hkv.
  now apply (proj1 (forallb_forall _ _) H).
Qed.

Lemma Forall_both {A} (P Q : A -> Prop) (l : list A) :
  Forall P l -> Forall Q l -> Forall (fun x => P x /\ Q x) l.
Proof. intros HP. induction HP; intros HQ; inversion HQ; subst; auto. Qed.

(** Every well-formed value without an infinite number is read back from
    its printed form. *)
Theorem stringify_reads_back (v : value) : wf v -> finite v = true -> reads_back v.
Proof.
  induction v as [| b | x | s | l IH | o IH] using value_induction;
    intros Hwf Hfin ind rest fuel Hind Hend Hfuel;
    (destruct fuel as [|fuel]; [cbn in Hfuel; lia |]).
  - reflexivity.
  - destruct b; reflexivity.
  - destruct x as [| b | u]; try discriminate Hfin.
    inversion Hwf; subst. cbn [stringify_at]. now apply parse_value_number.
  - cbn [stringify_at]. unfold quote. cbn [append].
    rewrite append_assoc. cbn [append].
    now rewrite parse_value_string, parse_string_body_quote.
  - destruct l as [|x l]; [reflexivity |].
    inversion Hwf as [| | | | ? Hall |]; subst.
    assert (Hok : Forall (fun y => wf y /\ finite y = true) (x :: l)).
    { apply Forall_both; [exact Hall | now apply finite_items]. }
    assert (IH' : Forall (fun y => wf y /\ finite y = true -> reads_back y) (x :: l)).
    { eapply Forall_impl; [| exact IH]. intros y Hy [Hw Hf]. now apply Hy. }
    rewrite stringify_at_Arr. cbn [append].
    rewrite parse_value_array.
    set (ind' := indent_more ind).
    assert (Hind' : all_jws ind' = true) by now apply all_jws_indent_more.
    replace ((elems_text (stringify_at ind') ind' (x :: l) ++ String newline (ind ++ "]"))
             ++ rest)
      with (elems_text (stringify_at ind') ind' (x :: l)
            ++ String newline (ind ++ String "]" rest))
      by (repeat first [rewrite append_assoc | progress cbn [append]]; reflexivity).
    assert (Hfirst : expect "]"
              (String newline (elems_text (stringify_at ind') ind' (x :: l)
                               ++ String newline (ind ++ String "]" rest))) = None).
    { rewrite elems_text_cons.
      destruct (stringify_head ind' x) as (c & t & E & Hc & Hb). rewrite E.
      match goal with
      | |- expect _ (String newline ((ind' ++ String c t ++ ?m) ++ ?k)) = None =>
          replace (String newline ((ind' ++ String c t ++ m) ++ k))
            with ((String newline ind') ++ String c (t ++ m ++ k))
            by (repeat first [rewrite append_assoc | progress cbn [append]]; reflexivity)
      end.
      rewrite expect_lead by (cbn [all_jws]; now rewrite Hind').
      rewrite expect_head by exact Hc. now rewrite Hb. }
    rewrite Hfirst.
    change (String newline (elems_text (stringify_at ind') ind' (x :: l)
                            ++ String newline (ind ++ String "]" rest)))
      with (String newline EmptyString
            ++ elems_text (stringify_at ind') ind' (x :: l)
            ++ String newline (ind ++ String "]" rest)).
    rewrite (parse_elems_text ind' (String newline (ind ++ String "]" rest)) rest);
      try reflexivity; try assumption.
    + discriminate.
    + now apply expect_other_closing.
    + now apply expect_closing.
    + cbn [size] in Hfuel. lia.
  - destruct o as [|kv o]; [reflexivity |].
    inversion Hwf as [| | | | | ? Hnd Hord Hall]; subst.
    assert (Hok : Forall (fun y => wf (snd y) /\ finite (snd y) = true) (kv :: o)).
    { apply (Forall_both (fun y => wf (snd y)) (fun y => finite (snd y) = true));
        [exact Hall | now apply finite_members]. }
    assert (IH' : Forall (fun y => wf (snd y) /\ finite (snd y) = true -> reads_back (snd y))
                         (kv :: o)).
    { eapply Forall_impl; [| exact IH]. intros y Hy [Hw Hf]. now apply Hy. }
    rewrite stringify_at_Obj. cbn [append].
    rewrite parse_value_object.
    set (ind' := indent_more ind).
    assert (Hind' : all_jws ind' = true) by now apply all_jws_indent_more.
    replace ((members_text (stringify_at ind') ind' (kv :: o) ++ String newline (ind ++ "}"))
             ++ rest)
      with (members_text (stringify_at ind') ind' (kv :: o)
            ++ String newline (ind ++ String "}" rest))
      by (repeat first [rewrite append_assoc | progress cbn [append]]; reflexivity).
    assert (Hfirst : expect "}"
              (String newline (members_text (stringify_at ind') ind' (kv :: o)
                               ++ String newline (ind ++ String "}" rest))) = None).
    { destruct kv as [k x]. rewrite members_text_cons. unfold quote.
      match goal with
      | |- expect _ (String newline ((ind' ++ String dquote ?q ++ ?m) ++ ?k)) = None =>
          replace (String newline ((ind' ++ String dquote q ++ m) ++ k))
            with ((String newline ind') ++ String dquote (q ++ m ++ k))
            by (repeat first [rewrite append_assoc | progress cbn [append]]; reflexivity)
      end.
      rewrite expect_lead by (cbn [all_jws]; now rewrite Hind').
      now rewrite expect_head by reflexivity. }
    rewrite Hfirst.
    change (String newline (members_text (stringify_at ind') ind' (kv :: o)
                            ++ String newline (ind ++ String "}" rest)))
      with (String newline EmptyString
            ++ members_text (stringify_at ind') ind' (kv :: o)
            ++ String newline (ind ++ String "}" rest)).
    rewrite (parse_members_text ind' (String newline (ind ++ String "}" rest)) rest);
      try reflexivity; try assumption.
    + now rewrite copy_props_nil.
    + discriminate.
    + now apply expect_other_closing.
    + now apply expect_closing.
    + cbn [size] in Hfuel. lia.
Qed.


(** *** The fuel [JSON.parse] gives itself is enough *)

Lemma elems_text_length (pr : value -> string) (ind : string) (l : list value) :
  Forall (fun x => (size x <= String.length (pr x))%nat) l ->
  (2 <= String.length ind)%nat ->
  (list_sum (map (fun x => S (size x)) l) <= String.length (elems_text pr ind l))%nat.
Proof.
  intros H Hind. induction H as [|x l Hx H IH]; [cbn; lia |].
  rewrite elems_text_cons, !length_append.
  change (list_sum (map (fun x => S (size x)) (x :: l)))
    with (S (size x) + list_sum (map (fun x => S (size x)) l))%nat.
  destruct l as [|y l]; [cbn; lia |].
  cbn [String.length]. lia.
Qed.

Lemma members_text_length (pr : value -> string) (ind : string) (o : props) :
  Forall (fun kv => (size (snd kv) <= String.length (pr (snd kv)))%nat) o ->
  (2 <= String.length ind)%nat ->
  (list_sum (map (fun kv => S (size (snd kv))) o) <= String.length (members_text pr ind o))%nat.
Proof.
  intros H Hind. induction H as [|[k x] o Hx H IH]; [cbn; lia |].
  rewrite members_text_cons, !length_append.
  change (list_sum (map (fun kv => S (size (snd kv))) ((k, x) :: o)))
    with (S (size x) + list_sum (map (fun kv => S (size (snd kv))) o))%nat.
  cbn [snd] in Hx.
  destruct o as [|kv o]; [cbn; lia |].
  cbn [String.length]. lia.
Qed.

Lemma size_le_length (v : value) :
  forall ind, (size v <= String.length (stringify_at ind v))%nat.
Proof.
  induction v as [| b | x | s | l IH | o IH] using value_induction; intros ind.
  - cbn. lia.
  - destruct b; cbn; lia.
  - destruct x as [| b | u]; [cbn; lia | cbn; lia |].
    destruct (number_to_string_head u) as (c & t & E & _).
    cbn [stringify_at size]. rewrite E. cbn. lia.
  - cbn. lia.
  - destruct l as [|x l]; [cbn; lia |].
    rewrite stringify_at_Arr. cbn [String.length size]. rewrite length_append.
    pose proof (elems_text_length (stringify_at (indent_more ind)) (indent_more ind) (x :: l)) as H.
    assert (H2 : (2 <= String.length (indent_more ind))%nat) by (cbn; lia).
    specialize (H (Forall_impl _ (fun x Hx => Hx (indent_more ind)) IH) H2). lia.
  - destruct o as [|kv o]; [cbn; lia |].
    rewrite stringify_at_Obj. cbn [String.length size]. rewrite length_append.
    pose proof (members_text_length (stringify_at (indent_more ind)) (indent_more ind) (kv :: o)) as H.
    assert (H2 : (2 <= String.length (indent_more ind))%nat) by (cbn; lia).
    specialize (H (Forall_impl _ (fun x Hx => Hx (indent_more ind)) IH) H2). lia.
Qed.

(** [JSON.parse(JSON.stringify(v, null, 2))] is [v], when no number of
    [v] is infinite. *)
Theorem parse_stringify (v : value) :
  wf v -> finite v = true -> parse (stringify v) = Some v.
Proof.
  intros Hwf Hfin. unfold parse, stringify.
  rewrite <- (append_nil_r (stringify_at EmptyString v)) at 2.
  rewrite (stringify_reads_back v Hwf Hfin EmptyString EmptyString); try reflexivity.
  pose proof (size_le_length v EmptyString). lia.
Qed.


(** *** [JSON.parse] builds well-formed values *)

Lemma Forall_set_prop (P : value -> Prop) (k : string) (v : value) (o : props) :
  P v -> Forall (fun kv => P (snd kv)) o -> Forall (fun kv => P (snd kv)) (set_prop k v o).
Proof.
  intros Hv H. induction H as [|[k0 v0] o H0 H IH]; cbn [set_prop].
  - repeat constructor. exact Hv.
  - destruct (String.eqb k k0); [constructor; assumption |].
    destruct (listed_before k k0); constructor; try assumption.
    now constructor.
Qed.

Lemma Forall_copy_props (P : value -> Prop) (src : props) : forall target,
  Forall (fun kv => P (snd kv)) src -> Forall (fun kv => P (snd kv)) target ->
  Forall (fun kv => P (snd kv)) (copy_props src target).
Proof.
  unfold copy_props. induction src as [|[k v] src IH]; intros target Hs Ht; [exact Ht |].
  inversion Hs; subst. cbn [fold_left]. apply IH; [assumption |].
  now apply Forall_set_prop.
Qed.

Lemma wf_copy_props (src target : props) :
  Forall (fun kv => wf (snd kv)) src -> wf (Obj target) -> wf (Obj (copy_props src target)).
Proof.
  intros Hs Ht. inversion Ht; subst.
  destruct (ordered_copy_props src target) as [Ho Hn]; try assumption.
  constructor; [exact Hn | exact Ho | now apply Forall_copy_props].
Qed.

Lemma parse_literal_wf (s : string) (v : value) (r : string) :
  parse_literal s = Some (v, r) -> wf v.
Proof.
  unfold parse_literal, parse_number. intros H.
  destruct (prefix "null" s); [inversion H; subst; constructor |].
  destruct (prefix "true" s); [inversion H; subst; constructor |].
  destruct (prefix "false" s); [inversion H; subst; constructor |].
  destruct (json_number s) as [[x r']|] eqn:E; [| discriminate].
  inversion H; subst. constructor. exact (json_number_double _ _ _ E).
Qed.

Lemma parse_wf_fuel (fuel : nat) :
  (forall s v r, parse_value fuel s = Some (v, r) -> wf v) /\
  (forall s l r, parse_elems fuel s = Some (l, r) -> Forall wf l) /\
  (forall s o r, parse_members fuel s = Some (o, r) -> Forall (fun kv => wf (snd kv)) o).
Proof.
  induction fuel as [|f (IHv & IHe & IHm)]; [repeat split; intros; discriminate |].
  repeat split.
  - intros s v r H. cbn [parse_value] in H.
    destruct (skip_jws s) as [|c t]; [discriminate |].
    destruct (Ascii.eqb c "[").
    { destruct (expect "]" t).
      - inversion H; subst. repeat constructor.
      - destruct (parse_elems f t) as [[l r']|] eqn:E; [| discriminate].
        inversion H; subst. constructor. eapply IHe; eauto. }
    destruct (Ascii.eqb c "{").
    { destruct (expect "}" t).
      - inversion H; subst. repeat constructor.
      - destruct (parse_members f t) as [[o r']|] eqn:E; [| discriminate].
        inversion H; subst. apply wf_copy_props; [eapply IHm; eauto | repeat constructor]. }
    destruct (Ascii.eqb c dquote).
    { destruct (parse_string_body t) as [[str r']|]; [| discriminate].
      inversion H; subst. constructor. }
    eapply parse_literal_wf; eauto.
  - intros s l r H. cbn [parse_elems] in H.
    destruct (parse_value f s) as [[v r0]|] eqn:E; [| discriminate].
    destruct (expect "," r0).
    + destruct (parse_elems f s0) as [[l' r1]|] eqn:E2; [| discriminate].
      inversion H; subst. constructor; eauto.
    + destruct (expect "]" r0); [| discriminate].
      inversion H; subst. repeat constructor. eauto.
  - intros s o r H. cbn [parse_members] in H.
    destruct (expect dquote s); [| discriminate].
    destruct (parse_string_body s0) as [[k r1]|]; [| discriminate].
    destruct (expect ":" r1); [| discriminate].
    destruct (parse_value f s1) as [[v r3]|] eqn:E; [| discriminate].
    destruct (expect "," r3).
    + destruct (parse_members f s2) as [[o' r5]|] eqn:E2; [| discriminate].
      inversion H; subst. constructor; [cbn; eauto | eauto].
    + destruct (expect "}" r3); [| discriminate].
      inversion H; subst. repeat constructor. cbn. eauto.
Qed.

(** Whatever [JSON.parse] returns is well formed. *)
Theorem parse_wf (text : string) (v : value) : parse text = Some v -> wf v.
Proof.
  unfold parse. intros H.
  destruct (parse_value (S (String.length text)) text) as [[v' r]|] eqn:E; [| discriminate].
  destruct (all_jws r); [| discriminate]. inversion H; subst.
  eapply (proj1 (parse_wf_fuel _)); eauto.
Qed.

End JsonFacts.

(** ** The file mirrors the list *)

Module MirrorFacts.
Import Js Http Json FileBacked ObjectFacts JsonFacts.

Lemma wf_indexed (l : list value) : forall i,
  Forall wf l -> Forall (fun kv => wf (snd kv)) (indexed i l).
Proof.
  induction l as [|x l IH]; intros i H; cbn [indexed]; [constructor |].
  inversion H; subst. constructor; [assumption | now apply IH].
Qed.

Lemma wf_chars (s : string) : forall i, Forall (fun kv => wf (snd kv)) (chars i s).
Proof.
  induction s as [|c s IH]; intros i; cbn [chars]; constructor; [constructor | apply IH].
Qed.

Lemma wf_own_props (v : value) : wf v -> Forall (fun kv => wf (snd kv)) (own_props v).
Proof.
  intros H. destruct v; cbn [own_props]; try constructor.
  - apply wf_chars.
  - inversion H; subst. now apply wf_indexed.
  - now inversion H.
Qed.

(** Spreading well-formed values gives a well-formed object. *)
Lemma wf_spread2 (a b : value) : wf a -> wf b -> wf (spread2 a b).
Proof.
  intros Ha Hb. unfold spread2.
  apply wf_copy_props; [now apply wf_own_props |].
  apply wf_copy_props; [now apply wf_own_props | repeat constructor].
Qed.

Lemma wf_nth (l : list value) (i : nat) : Forall wf l -> wf (nth i l Null).
Proof.
  intros H. revert i. induction H as [|x l Hx H IH]; intros [|i]; cbn; try constructor; auto.
Qed.

Lemma wf_assign (l : list value) (v : value) : forall i,
  Forall wf l -> wf v -> Forall wf (assign i v l).
Proof.
  induction l as [|x l IH]; intros i H Hv; [destruct i; constructor |].
  inversion H; subst. destruct i; cbn [assign]; constructor; auto.
Qed.

Lemma wf_splice1 (l : list value) : forall i, Forall wf l -> Forall wf (splice1 i l).
Proof.
  induction l as [|x l IH]; intros i H; [destruct i; constructor |].
  inversion H; subst. destruct i; cbn [splice1]; [assumption | constructor; auto].
Qed.

(** Right after a write, the file parses to the list in memory. *)
Lemma in_sync_writeFileSync (l : list value) :
  Forall wf l -> forallb finite l = true -> in_sync (writeFileSync l).
Proof.
  intros H Hfin. unfold in_sync, writeFileSync. cbn [file pokemonsList].
  apply parse_stringify; [now constructor | exact Hfin].
Qed.

Lemma mirrored_writeFileSync (l : list value) : Forall wf l -> mirrored (writeFileSync l).
Proof. intros H. split; [exact H | now apply in_sync_writeFileSync]. Qed.

Lemma mirrored_load (content : string) (st : state) : load content = Some st -> mirrored st.
Proof.
  unfold load. intros H.
  destruct (parse content) as [[| | | | l |]|] eqn:E; try discriminate.
  inversion H; subst. split.
  - apply parse_wf in E. now inversion E.
  - intros _. exact E.
Qed.

Lemma mirrored_handle (st : state) (rq : request) :
  mirrored st -> request_ok rq -> mirrored (fst (handle st rq)).
Proof.
  intros [Hwf Hsync] Hrq.
  destruct rq as [| b | i | i b | i |]; unfold handle, express.
  - now split.
  - destruct Hrq as [text Hb]. apply parse_wf in Hb.
    apply mirrored_writeFileSync. apply Forall_app. split; [exact Hwf | now constructor].
  - cbn [get_pokemon fst snd].
    destruct (find _ _) as [[p|]|]; cbn; try destruct (negb _); now split.
  - destruct Hrq as [text Hb]. apply parse_wf in Hb.
    unfold put_pokemon.
    destruct (findIndex _ _) as [[index|]|]; cbn [fst snd]; try now split.
    apply mirrored_writeFileSync. apply wf_assign; [exact Hwf |].
    apply wf_spread2; [now apply wf_nth | exact Hb].
  - unfold delete_pokemon.
    destruct (findIndex _ _) as [[index|]|]; cbn [fst snd]; try now split.
    apply mirrored_writeFileSync. now apply wf_splice1.
  - now split.
Qed.

Lemma reachable_mirrored (st : state) : reachable st -> mirrored st.
Proof.
  induction 1 as [content st H | st rq H IH Hrq].
  - now apply (mirrored_load content).
  - now apply mirrored_handle.
Qed.

End MirrorFacts.

(** ** A path parameter that is not a number *)

Module NaNFacts.
Import Js Http FileBacked ArrayFacts FileBackedFacts.

Lemma number_eq_NaN (a : number) : number_eq a NaN = false.
Proof. now destruct a. Qed.

(** [x == NaN] is false whenever it has a value at all. *)
Lemma loose_equals_NaN (x : option value) :
  loose_equals x NaN = Normal false \/ exists e, loose_equals x NaN = Throw e.
Proof.
  destruct x as [[| b | z | s | l | o]|]; cbn [loose_equals];
    rewrite ?number_eq_NaN; try (now left).
  - destruct (to_string (Arr l)) as [s | e]; cbn [bind];
      [left; now rewrite number_eq_NaN | right; eauto].
  - destruct (to_string (Obj o)) as [s | e]; cbn [bind];
      [left; now rewrite number_eq_NaN | right; eauto].
Qed.

Lemma id_loosely_NaN (p : value) :
  id_loosely NaN p = Normal false \/ exists e, id_loosely NaN p = Throw e.
Proof.
  unfold id_loosely. destruct (get_id p) as [x | e]; cbn [bind].
  - apply loose_equals_NaN.
  - right. eauto.
Qed.

Lemma findIndex_NaN (l : list value) :
  findIndex (id_loosely NaN) l = Normal None
  \/ exists e, findIndex (id_loosely NaN) l = Throw e.
Proof.
  induction l as [|p l IH]; [now left |]. cbn [findIndex].
  destruct (id_loosely_NaN p) as [-> | [e ->]]; cbn [bind]; [| right; eauto].
  destruct IH as [-> | [e ->]]; cbn [bind option_map]; [now left | right; eauto].
Qed.

(** GET and DELETE answer 404 to a path parameter that is not a number. *)
Lemma get_delete_NaN (st : state) (path : string) :
  stored_ok st -> parseInt path = NaN ->
  handle st (GET_pokemon path) = (st, not_found) /\
  handle st (DELETE_pokemon path) = (st, not_found).
Proof.
  intros Hok Hnan.
  assert (H : forall p, In p (pokemonsList st) -> id_strictly (parseInt path) p = Normal false).
  { intros p Hp. rewrite Hnan. apply id_strictly_NaN. now apply (stored_ok_In st). }
  split; [now apply get_pokemon_miss | now apply delete_pokemon_miss].
Qed.

(** PUT with such a parameter never touches the store; it answers 404, or
    500 when comparing a stored id throws. *)
Lemma put_NaN (st : state) (path : string) (body : value) :
  parseInt path = NaN ->
  fst (handle st (PUT_pokemon path body)) = st /\
  (status (snd (handle st (PUT_pokemon path body))) = 404%nat \/
   status (snd (handle st (PUT_pokemon path body))) = 500%nat).
Proof.
  intros Hnan. unfold handle, express, put_pokemon. rewrite Hnan.
  destruct (findIndex_NaN (pokemonsList st)) as [-> | [e ->]]; cbn; auto.
Qed.

End NaNFacts.

(** ** The document-store handlers relay the driver *)

Module DocStoreFacts.
Import Js Http Mongoose DocStore.

Section Relay.
Context {collection : Type} {Pokemon : PokemonModel collection}.

(** PUT answers 200 with the document [findOneAndUpdate] resolves to. *)
Lemma put_pokemon_relays (db db' : collection) (path : string) (body d : value) :
  findOneAndUpdate db (parseInt path) body = (db', Resolved (Some d)) ->
  put_pokemon db path body
  = (db', send 200 (Obj [("message", Str (utf8 "Pokémon mis à jour avec succès."));
                         ("pokemon", d)])).
Proof. intros H. unfold put_pokemon. now rewrite H. Qed.

(** Each handler answers 404 when the driver resolves to [null]. *)
Lemma get_pokemon_null (db : collection) (path : string) :
  findOne db (parseInt path) = Resolved None ->
  get_pokemon db path = (db, not_found).
Proof. intros H. unfold get_pokemon. now rewrite H. Qed.

Lemma put_pokemon_null (db db' : collection) (path : string) (body : value) :
  findOneAndUpdate db (parseInt path) body = (db', Resolved None) ->
  put_pokemon db path body = (db', not_found).
Proof. intros H. unfold put_pokemon. now rewrite H. Qed.

Lemma delete_pokemon_null (db db' : collection) (path : string) :
  findOneAndDelete db (parseInt path) = (db', Resolved None) ->
  delete_pokemon db path = (db', not_found).
Proof. intros H. unfold delete_pokemon. now rewrite H. Qed.

End Relay.

End DocStoreFacts.

(* ===================================================================== *)
(** * The claims                                                          *)
(* ===================================================================== *)

(** ** Pokémon records, file-backed variant *)

Module FileBackedSpec.
Import Js Http FileBacked NumberFacts DigitFacts ArrayFacts ObjectFacts FileBackedFacts Samples.






(** C10 fails as worded: of two stored records whose id is the string
    [25], PUT on 25 updates the first one, not the second. *)
Lemma string_id_claim_fails : ~ string_id_claim.
Proof.
  intros H.
  pose (st1 := fst (handle empty_store (POST_pokemons (Obj pikachu_text_id)))).
  pose (st2 := fst (handle st1 (POST_pokemons (Obj raichu_text_id)))).
  assert (Hst : reachable st2).
  { apply reach_handle; [apply reach_handle; [apply (reach_load "[]"); reflexivity |] |].
    - exists (Json.stringify (Obj pikachu_text_id)). vm_compute. reflexivity.
    - exists (Json.stringify (Obj raichu_text_id)). vm_compute. reflexivity. }
  assert (Hbody : parsed (Obj [])) by (exists "{}"; reflexivity).
  destruct (H st2 raichu_text_id [] 25 Hst Hbody) as [(mo & Hresp & _ & Hkeep) _].
  - right. now left.
  - reflexivity.
  - intros p [<- | [<- | []]]; differ.
  - specialize (Hkeep "name" eq_refl).
    vm_compute in Hresp. injection Hresp as <-.
    vm_compute in Hkeep. discriminate Hkeep.
Qed.

(** C10, amended.  GET and DELETE compare with [===], PUT with [==].  A
    stored record whose id is the decimal string of [n], in a list with no
    record whose id is the number [n], and with no record before it that
    PUT's comparison accepts or fails on, is found and updated by PUT on
    [n]: the body is merged onto it, field by field.  GET and DELETE on
    the same path answer 404 and leave the store as it is. *)
Theorem string_id_found_by_put_only
        (st : state) (pre post : list value) (ro bo : props) (n : Z) :
  stored_ok st ->
  pokemonsList st = pre ++ Obj ro :: post ->
  lookup "id" ro = Some (Str (string_of_Z n)) ->
  (forall p, In p (pokemonsList st) -> get_id p <> Normal (Some (Num n))) ->
  (forall p, In p pre -> id_loosely (Int n) p = Normal false) ->
  NoDup (keys ro) -> NoDup (keys bo) ->
  let path := string_of_Z n in
  (exists mo,
      handle st (PUT_pokemon path (Obj bo))
      = (writeFileSync (pre ++ Obj mo :: post), updated mo) /\
      shallow_merge ro bo mo)
  /\ handle st (GET_pokemon path) = (st, not_found)
  /\ handle st (DELETE_pokemon path) = (st, not_found)
  /\ status not_found = 404%nat.
Proof.
  intros Hok Hl Hid Hnum Hpre Hnr Hnb path.
  assert (Hmiss : forall p, In p (pokemonsList st) ->
                    id_strictly (parseInt path) p = Normal false).
  { intros p Hp. unfold path. rewrite parseInt_string_of_Z.
    apply id_strictly_miss; [now apply (stored_ok_In st) | now apply Hnum]. }
  split.
  - apply put_pokemon_merges; try assumption;
      unfold path; rewrite parseInt_string_of_Z.
    + exact Hpre.
    + now apply id_loosely_string.
  - split; [now apply get_pokemon_miss |].
    split; [now apply delete_pokemon_miss | reflexivity].
Qed.

Lemma string_id_found_by_put_only_witness :
  let st := writeFileSync [bulbasaur; Obj pikachu_text_id] in
  let bo := [("name", Obj [("french", Str "Raichu")])] in
  (exists mo,
      handle st (PUT_pokemon (string_of_Z 25) (Obj bo))
      = (writeFileSync ([bulbasaur] ++ Obj mo :: []), updated mo) /\
      shallow_merge pikachu_text_id bo mo)
  /\ handle st (GET_pokemon (string_of_Z 25)) = (st, not_found)
  /\ handle st (DELETE_pokemon (string_of_Z 25)) = (st, not_found)
  /\ status not_found = 404%nat.
Proof.
  apply (string_id_found_by_put_only
           (writeFileSync [bulbasaur; Obj pikachu_text_id])
           [bulbasaur] [] pikachu_text_id
           [("name", Obj [("french", Str "Raichu")])] 25).
  - repeat constructor.
  - reflexivity.
  - reflexivity.
  - intros p [<- | [<- | []]]; differ.
  - intros p [<- | []]. vm_compute; reflexivity.
  - repeat constructor; simpl; intuition discriminate.
  - repeat constructor; simpl; intuition.
Defined.

(** C9 at the failing input.  After POSTing [opaque_id] to an empty store,
    the path parameter [abc] (which [parseInt] maps to NaN) gets 404 from
    GET and DELETE, but 500 from PUT: its [==] coerces the stored id to a
    primitive, and that coercion throws. *)
Theorem put_nan_id_answers_500 :
  load "[]" = Some empty_store /\
    let st := fst (handle empty_store (POST_pokemons opaque_id)) in
    stored_ok st /\
    parseInt "abc" = NaN /\
    handle st (GET_pokemon "abc") = (st, not_found) /\
    handle st (DELETE_pokemon "abc") = (st, not_found) /\
    handle st (PUT_pokemon "abc" (Obj []))
    = (st, {| status := 500;
              body := ErrorPage (TypeError "Cannot convert object to primitive value") |}).
Proof.
  split; [reflexivity |].
  cbv zeta. split; [repeat constructor |].
  repeat split.
Qed.

(** C8 at the failing input.  In the same store no entry has the id 7
    (GET and DELETE on 7 answer 404), yet PUT on 7 answers 500 instead of
    404.  And where a stored id is the string [25], GET and DELETE on 25
    answer 404 while PUT on 25 answers 200 and rewrites the entry. *)
Theorem put_unmatched_id_answers_500 :
  let st := fst (handle empty_store (POST_pokemons opaque_id)) in
  stored_ok st /\
  (forall p, In p (pokemonsList st) -> get_id p <> Normal (Some (Num 7))) /\
  handle st (GET_pokemon "7") = (st, not_found) /\
  handle st (DELETE_pokemon "7") = (st, not_found) /\
  status (snd (handle st (PUT_pokemon "7" (Obj [])))) = 500%nat /\
  let st' := writeFileSync [Obj pikachu_text_id] in
  handle st' (GET_pokemon "25") = (st', not_found) /\
  handle st' (DELETE_pokemon "25") = (st', not_found) /\
  status (snd (handle st' (PUT_pokemon "25" (Obj [])))) = 200%nat.
Proof.
  cbv zeta. split; [repeat constructor |].
  split; [intros p [<- | []]; differ |].
  repeat split.
Qed.





End FileBackedSpec.

Module MirrorSpec.
Import Js Http Json FileBacked MirrorFacts Samples.

(** C6 fails as worded: a POST whose body holds the literal [1e400] is
    stored as [Infinity] in memory and written as [null], so the file no
    longer parses to the list. *)
Lemma mirror_claim_fails : ~ mirror_claim.
Proof.
  intros H.
  specialize (H empty_store (POST_pokemons beyond_range)).
  assert (Hst : reachable empty_store) by (apply (reach_load "[]"); reflexivity).
  assert (Hrq : request_ok (POST_pokemons beyond_range)).
  { exists beyond_range_text. vm_compute. reflexivity. }
  specialize (H Hst Hrq). vm_compute in H. discriminate H.
Qed.

(** C6, amended.  In every state a running server reaches, and so after
    every POST, PUT or DELETE, the JSON file parsed again is the list in
    memory, provided no number of the list is infinite. *)
Theorem file_mirrors_list (st : state) (rq : request) :
  reachable st -> request_ok rq ->
  all_finite (fst (handle st rq)) = true ->
  in_sync (fst (handle st rq)).
Proof.
  intros Hst Hrq.
  apply (reachable_mirrored (fst (handle st rq))).
  now apply reach_handle.
Qed.

Lemma file_mirrors_list_witness :
  in_sync (fst (handle empty_store (POST_pokemons pikachu))).
Proof.
  apply file_mirrors_list.
  - apply (reach_load "[]"). reflexivity.
  - exists (stringify pikachu). vm_compute. reflexivity.
  - reflexivity.
Defined.

End MirrorSpec.

(** ** Accounts *)

Module AuthFacts.
Import Js Http Mongoose DocStore Samples.

Lemma falsy_text (s : string) : s <> EmptyString -> falsy (Some s) = false.
Proof. intros H. cbn. now apply String.eqb_neq. Qed.

Lemma find_email_some (db : users) (e : string) (acct : user) :
  In acct db -> email acct = cast_email e -> exists u, findOne_email db e = Some u.
Proof.
  intros Hin He. unfold findOne_email.
  destruct (List.find _ db) as [u|] eqn:E; [eauto |].
  exfalso. apply (find_none _ _ E) in Hin. cbn in Hin.
  rewrite He, String.eqb_refl in Hin. discriminate.
Qed.

Lemma find_email_none (db : users) (e : string) :
  (forall d, In d db -> email d <> cast_email e) -> findOne_email db e = None.
Proof.
  intros H. unfold findOne_email.
  destruct (List.find _ db) as [u|] eqn:E; [| reflexivity].
  apply find_some in E as [Hin Heq]. apply String.eqb_eq in Heq.
  now apply H in Hin.
Qed.

Lemma find_username_none (db : users) (n : string) :
  (forall d, In d db -> username d <> cast_username n) -> findOne_username db n = None.
Proof.
  intros H. unfold findOne_username.
  destruct (List.find _ db) as [u|] eqn:E; [| reflexivity].
  apply find_some in E as [Hin Heq]. apply String.eqb_eq in Heq.
  now apply H in Hin.
Qed.

Lemma existsb_none {A} (f : A -> bool) (l : list A) :
  (forall x, In x l -> f x = false) -> existsb f l = false.
Proof.
  intros H. induction l as [|x l IH]; [reflexivity |]. cbn.
  rewrite (H x) by now left. apply IH. intros y Hy. apply H. now right.
Qed.

Lemma at_least_true (n : nat) (s : string) :
  (n <= String.length s)%nat -> at_least n s = true.
Proof. intros H. unfold at_least. now apply Nat.leb_le. Qed.

Lemma nonempty_length (s : string) : (1 <= String.length s)%nat -> nonempty s = true.
Proof. destruct s; cbn; [lia | reflexivity]. Qed.

(** A document that passes every validator of [userSchema]. *)
Lemma validate_ok (u e p : string) :
  (3 <= String.length u)%nat -> matches email_pattern e = true ->
  (6 <= String.length p)%nat ->
  validate u e p = [].
Proof.
  intros Hu He Hp. unfold validate, check. cbn [List.find fst snd].
  rewrite (nonempty_length u), (at_least_true 3 u), (at_least_true 6 p),
    (nonempty_length p), He by lia.
  assert (Hne : nonempty e = true).
  { destruct e; [discriminate He | reflexivity]. }
  rewrite Hne. reflexivity.
Qed.

Lemma save_ok (db : users) (env : environment) (u e p : string) :
  (3 <= String.length (cast_username u))%nat ->
  matches email_pattern (cast_email e) = true ->
  (6 <= String.length p)%nat ->
  (forall d, In d db -> username d <> cast_username u) ->
  (forall d, In d db -> email d <> cast_email e) ->
  save db env u e p
  = (db ++ [{| _id := fresh_id env; username := cast_username u;
               email := cast_email e; password := p; createdAt := now env |}],
     inr {| _id := fresh_id env; username := cast_username u;
            email := cast_email e; password := p; createdAt := now env |}).
Proof.
  intros Hu He Hp Hfu Hfe. unfold save.
  rewrite validate_ok by assumption.
  rewrite !existsb_none; [reflexivity | |].
  - intros d Hd. apply String.eqb_neq. now apply Hfe.
  - intros d Hd. apply String.eqb_neq. now apply Hfu.
Qed.

Lemma trim_nonempty (s : string) : (1 <= String.length (trim s))%nat -> s <> EmptyString.
Proof. intros H ->. cbn in H. lia. Qed.

Lemma pad_length (n : nat) : forall s, String.length (pad n s) = n.
Proof.
  induction n as [|n IH]; intros s; [reflexivity |].
  destruct s; cbn; now rewrite IH.
Qed.

End AuthFacts.

Module AuthSpec.
Import Js Http Mongoose DocStore AuthFacts Samples.

(** C4.  A login whose email matches no account and a login whose email
    matches an account but whose password fails the hash comparison get
    the same response: status 401 and one generic message. *)
Theorem login_failures_indistinguishable
        {bcrypt : Bcrypt} (db : users) (e1 p1 e2 p2 : string) (u : user) :
  e1 <> EmptyString -> p1 <> EmptyString ->
  e2 <> EmptyString -> p2 <> EmptyString ->
  findOne_email db e1 = None ->
  findOne_email db e2 = Some u ->
  compare p2 (password u) = false ->
  login db {| login_email := Some e1; login_password := Some p1 |}
  = (db, json 401 (Obj [("message", Str "Email ou mot de passe incorrect")]))
  /\ login db {| login_email := Some e2; login_password := Some p2 |}
     = login db {| login_email := Some e1; login_password := Some p1 |}.
Proof.
  intros He1 Hp1 He2 Hp2 Hnone Hsome Hcmp.
  unfold login. cbn [login_email login_password text].
  rewrite !falsy_text by assumption. cbn [orb].
  now rewrite Hnone, Hsome, Hcmp.
Qed.

Lemma login_failures_indistinguishable_witness :
  login [ash] {| login_email := Some "misty@kanto.org"; login_password := Some "starmie1" |}
  = ([ash], json 401 (Obj [("message", Str "Email ou mot de passe incorrect")]))
  /\ login [ash] {| login_email := Some "ash@kanto.org"; login_password := Some "raichu22" |}
     = login [ash] {| login_email := Some "misty@kanto.org"; login_password := Some "starmie1" |}.
Proof.
  apply (login_failures_indistinguishable [ash] "misty@kanto.org" "starmie1"
                                          "ash@kanto.org" "raichu22" ash).
  - discriminate.
  - discriminate.
  - discriminate.
  - discriminate.
  - reflexivity.
  - reflexivity.
  - reflexivity.
Defined.

(** C5.  Registering with an email that an account already carries is
    answered with 400 and the message that the email is already used, and
    the collection is left as it was. *)
Theorem register_duplicate_email
        {bcrypt : Bcrypt} (db : users) (env : environment) (acct : user) (u e p : string) :
  u <> EmptyString -> e <> EmptyString -> p <> EmptyString ->
  In acct db ->
  email acct = cast_email e ->
  register db env {| reg_username := Some u; reg_email := Some e; reg_password := Some p |}
  = (db, json 400 (Obj [("message", Str (utf8 "Cette adresse email est déjà utilisée"))])).
Proof.
  intros Hu He Hp Hin Heq.
  unfold register. cbn [reg_username reg_email reg_password text].
  rewrite !falsy_text by assumption. cbn [orb].
  destruct (find_email_some db e acct Hin Heq) as [found ->]. reflexivity.
Qed.

Lemma register_duplicate_email_witness :
  register [ash] sample_env
    {| reg_username := Some "red"; reg_email := Some "ash@kanto.org";
       reg_password := Some "charizard" |}
  = ([ash], json 400 (Obj [("message", Str (utf8 "Cette adresse email est déjà utilisée"))])).
Proof.
  apply (register_duplicate_email [ash] sample_env ash "red" "ash@kanto.org" "charizard").
  - discriminate.
  - discriminate.
  - discriminate.
  - now left.
  - reflexivity.
Defined.

(** C3 fails: a two-letter username is refused by the schema (400), with
    an unused username and email and a seven-character password. *)
Lemma register_claim_fails : ~ register_claim.
Proof.
  intros H.
  specialize (H sample_bcrypt [] sample_env "ab" "brock@kanto.org" "onix123"
                (fun s t => pad_length 60 _)
                (fun d (F : In d []) => match F with end)
                (fun d (F : In d []) => match F with end)).
  assert (Hlen : (6 <= String.length "onix123")%nat) by (cbn; lia).
  destruct (H Hlen) as [Hstatus _].
  vm_compute in Hstatus. discriminate Hstatus.
Qed.

(** C3, amended.  When moreover the trimmed username has three characters
    or more and the trimmed, lower-cased email matches the schema's
    pattern, registration stores the account, answers 201, and the response
    carries the id, username, email and creation date of the account and
    no [password] field. *)
Theorem register_creates_account
        {bcrypt : Bcrypt} (db : users) (env : environment) (u e p : string) :
  (forall s t, String.length (hash s t) = 60%nat) ->
  (forall d, In d db -> username d <> cast_username u) ->
  (forall d, In d db -> email d <> cast_email e) ->
  (6 <= String.length p)%nat ->
  (3 <= String.length (cast_username u))%nat ->
  matches email_pattern (cast_email e) = true ->
  let account := {| _id := fresh_id env; username := cast_username u;
                    email := cast_email e; password := hash p (salt env);
                    createdAt := now env |} in
  let r := snd (register db env
                  {| reg_username := Some u; reg_email := Some e; reg_password := Some p |}) in
  register db env {| reg_username := Some u; reg_email := Some e; reg_password := Some p |}
  = (db ++ [account],
     json 201 (Obj [("message", Str (utf8 "Compte créé avec succès"));
                    ("user", Obj [("id", Str (_id account));
                                  ("username", Str (username account));
                                  ("email", Str (email account));
                                  ("createdAt", Str (createdAt account))])]))
  /\ status r = 201%nat
  /\ payload_has_key "password" (body r) = false.
Proof.
  intros Hhash Hfu Hfe Hp Hu He account r.
  assert (Hreg : register db env
            {| reg_username := Some u; reg_email := Some e; reg_password := Some p |}
          = (db ++ [account],
             json 201 (Obj [("message", Str (utf8 "Compte créé avec succès"));
                            ("user", userResponse account)]))).
  { unfold register. cbn [reg_username reg_email reg_password text].
    assert (Hune : u <> EmptyString) by (apply trim_nonempty; unfold cast_username in Hu; lia).
    assert (Hene : e <> EmptyString) by (intros ->; discriminate He).
    assert (Hpne : p <> EmptyString) by (intros ->; cbn in Hp; lia).
    rewrite !falsy_text by assumption. cbn [orb].
    rewrite find_email_none, find_username_none by assumption.
    rewrite save_ok; try assumption; [reflexivity |].
    rewrite Hhash. lia. }
  unfold r. rewrite Hreg. repeat split.
Qed.

Lemma register_creates_account_witness :
  let account := {| _id := fresh_id sample_env; username := "brock";
                    email := "brock@kanto.org"; password := hash "onix123" (salt sample_env);
                    createdAt := now sample_env |} in
  let rq := {| reg_username := Some " brock "; reg_email := Some "Brock@Kanto.org";
               reg_password := Some "onix123" |} in
  register [ash] sample_env rq
  = ([ash] ++ [account],
     json 201 (Obj [("message", Str (utf8 "Compte créé avec succès"));
                    ("user", Obj [("id", Str (_id account));
                                  ("username", Str (username account));
                                  ("email", Str (email account));
                                  ("createdAt", Str (createdAt account))])]))
  /\ status (snd (register [ash] sample_env rq)) = 201%nat
  /\ payload_has_key "password" (body (snd (register [ash] sample_env rq))) = false.
Proof.
  apply (register_creates_account [ash] sample_env " brock " "Brock@Kanto.org" "onix123").
  - intros s t. apply pad_length.
  - intros d [<- | []]. discriminate.
  - intros d [<- | []]. discriminate.
  - cbn. lia.
  - cbn. lia.
  - reflexivity.
Defined.

End AuthSpec.

(* ===================================================================== *)
(** * Further properties of the handlers                                  *)
(* ===================================================================== *)

(** ** What a scan that succeeded tells *)

Module ScanFacts.
Import Js Http FileBacked ArrayFacts ObjectFacts FileBackedFacts DigitFacts StringFacts.

Section Inversion.
Variable f : value -> completion bool.

Lemma findIndex_found (l : list value) : forall i,
  findIndex f l = Normal (Some i) ->
  exists pre r post,
    l = pre ++ r :: post /\ List.length pre = i /\
    (forall p, In p pre -> f p = Normal false) /\ f r = Normal true.
Proof.
  induction l as [|x l IH]; intros i H; cbn [findIndex] in H; [discriminate |].
  destruct (f x) as [[|] | e] eqn:Ex; cbn [bind] in H; try discriminate.
  - inversion H; subst. exists [], x, l. repeat split; auto. intros p [].
  - destruct (findIndex f l) as [[j|] | e] eqn:E; cbn [bind option_map] in H;
      try discriminate.
    inversion H; subst.
    destruct (IH j eq_refl) as (pre & r & post & -> & Hlen & Hpre & Hr).
    exists (x :: pre), r, post. repeat split; auto.
    + cbn. now rewrite Hlen.
    + intros p [<- | Hp]; auto.
Qed.

Lemma find_found (l : list value) (r : value) :
  find f l = Normal (Some r) ->
  exists pre post,
    l = pre ++ r :: post /\
    (forall p, In p pre -> f p = Normal false) /\ f r = Normal true.
Proof.
  induction l as [|x l IH]; intros H; cbn [find] in H; [discriminate |].
  destruct (f x) as [[|] | e] eqn:Ex; cbn [bind] in H; try discriminate.
  - inversion H; subst. exists [], l. repeat split; auto. intros p [].
  - destruct (IH H) as (pre & post & -> & Hpre & Hr).
    exists (x :: pre), post. repeat split; auto.
    intros p [<- | Hp]; auto.
Qed.

(** A scan whose test never throws does not throw. *)
Lemma findIndex_total (l : list value) :
  (forall p, In p l -> exists b, f p = Normal b) ->
  exists r, findIndex f l = Normal r.
Proof.
  induction l as [|x l IH]; intros H; cbn [findIndex]; [eauto |].
  destruct (H x (or_introl eq_refl)) as [b ->]. cbn [bind].
  destruct b; [eauto |].
  destruct IH as [r ->]; [intros p Hp; apply H; now right |]. cbn [bind]. eauto.
Qed.

Lemma find_total (l : list value) :
  (forall p, In p l -> exists b, f p = Normal b) ->
  exists r, find f l = Normal r.
Proof.
  induction l as [|x l IH]; intros H; cbn [find]; [eauto |].
  destruct (H x (or_introl eq_refl)) as [b ->]. cbn [bind].
  destruct b; [eauto |].
  apply IH. intros p Hp. apply H. now right.
Qed.

End Inversion.

Lemma number_eq_Int (z : Z) (n : number) : number_eq (Int z) n = true -> n = Int z.
Proof. intros H. symmetry. now apply NumberFacts.number_eq_true. Qed.

(** [parseInt] returns NaN or an integer, rounded. *)
Lemma parseInt_cases (path : string) :
  parseInt path = NaN \/ exists z, parseInt path = Int z.
Proof.
  unfold parseInt.
  destruct (read_sign (skip_ws path)) as [sign s2].
  destruct (read_radix_prefix s2) as [radix s3].
  destruct (read_integer radix s3); eauto.
Qed.

(** An entry passes the strict test only with the requested integer as id. *)
Lemma id_strictly_true (path : string) (p : value) :
  id_strictly (parseInt path) p = Normal true ->
  exists o n, p = Obj o /\ lookup "id" o = Some (Num n) /\ parseInt path = Int n.
Proof.
  unfold id_strictly. destruct p as [| | | | | o]; cbn [get_id bind]; intros H;
    try discriminate.
  destruct (lookup "id" o) as [[| | y | | |]|] eqn:E; cbn [strict_equals] in H;
    try discriminate.
  assert (Hn : number_eq y (parseInt path) = true) by congruence.
  destruct (parseInt_cases path) as [Hnan | [z Hz]].
  - rewrite Hnan, NumberFacts.number_eq_NaN_r in Hn. discriminate.
  - rewrite Hz in Hn. apply NumberFacts.number_eq_true in Hn. subst y.
    exists o, z. split; [reflexivity | split; [exact E | exact Hz]].
Qed.

(** Only an object passes the loose test. *)
Lemma id_loosely_true (id : number) (p : value) :
  id_loosely id p = Normal true -> exists o, p = Obj o.
Proof.
  unfold id_loosely. destruct p as [| | | | | o]; cbn [get_id bind loose_equals];
    intros H; try discriminate. eauto.
Qed.

Lemma assign_length (l : list value) (v : value) : forall i,
  List.length (assign i v l) = List.length l.
Proof.
  induction l as [|x l IH]; intros [|i]; cbn; auto.
Qed.

Lemma lookup_in (k : string) (v : value) (o : props) :
  NoDup (keys o) -> In (k, v) o -> lookup k o = Some v.
Proof.
  induction o as [|[k0 v0] o IH]; intros Hnd Hin; [contradiction |].
  inversion Hnd as [|? ? Hnotin Hnd']; subst. cbn.
  destruct Hin as [E | Hin].
  - inversion E; subst. now rewrite String.eqb_refl.
  - destruct (String.eqb_spec k k0) as [-> | Hne].
    + exfalso. apply Hnotin. change k0 with (fst (k0, v)). now apply in_map.
    + now apply IH.
Qed.

(** Spreading the same object a second time changes nothing. *)
Lemma spread2_again (o : props) (b : value) :
  NoDup (keys o) -> NoDup (keys (own_props b)) ->
  spread2 (spread2 (Obj o) b) b = spread2 (Obj o) b.
Proof.
  intros Ho Hb. unfold spread2. cbn [own_props]. f_equal.
  set (m := copy_props (own_props b) (copy_props o [])).
  assert (Hbase : ordered (keys (copy_props o [])) /\ NoDup (keys (copy_props o []))).
  { apply ordered_copy_props; [exact I | constructor]. }
  assert (Hm : ordered (keys m) /\ NoDup (keys m)).
  { now apply ordered_copy_props. }
  rewrite (copy_props_nil m) by tauto.
  apply copy_props_same; [tauto |]. intros k v Hin.
  unfold m. rewrite lookup_copy_props by exact Hb.
  now rewrite (lookup_in k v _ Hb Hin).
Qed.

(** [parseInt] stops at the first character that is not a digit. *)
Lemma parseInt_prefix (z : Z) (rest : string) :
  starts_with_digit 10 rest = false ->
  prefix "x" rest = None -> prefix "X" rest = None ->
  parseInt (string_of_Z z ++ rest) = Int z.
Proof.
  intros Hrest Hx HX.
  destruct (string_of_N_spec (Z.abs_N z)) as (c & r & E & Hall & Hval & Hz).
  assert (Hc : is_digit 10 c = true).
  { simpl in Hall. now apply andb_prop in Hall as [Hc _]. }
  assert (Hint : read_integer 10 (String c r ++ rest) = Some (Z.of_N (Z.abs_N z))).
  { rewrite <- Hval. apply read_integer_digits; [exact Hall | discriminate | exact Hrest]. }
  assert (Hrad : read_radix_prefix (String c r ++ rest) = (10, (String c r ++ rest)%string)).
  { unfold read_radix_prefix. cbn [append prefix].
    rewrite (Ascii.eqb_sym "0" c).
    destruct (Ascii.eqb c "0") eqn:E0; [| reflexivity].
    rewrite (Hz eq_refl). cbn [append].
    cbn [prefix] in Hx, HX. destruct rest as [|d rest']; [reflexivity |].
    destruct (Ascii.eqb "x" d); [discriminate Hx |].
    destruct (Ascii.eqb "X" d); [discriminate HX |]. reflexivity. }
  unfold parseInt, string_of_Z. rewrite E.
  destruct (Z.ltb_spec z 0) as [Hneg | Hpos].
  - change (skip_ws (String "-" (String c r) ++ rest))
      with (String "-" (String c r ++ rest)).
    rewrite read_sign_minus, Hrad, Hint. f_equal. rewrite N2Z.inj_abs_N. lia.
  - change (String c r ++ rest)%string with (String c (r ++ rest)).
    rewrite skip_ws_digit, read_sign_digit by exact Hc.
    change (String c (r ++ rest)) with (String c r ++ rest)%string.
    rewrite Hrad, Hint. f_equal. rewrite N2Z.inj_abs_N. lia.
Qed.

(** The handlers read the path parameter through [parseInt] only. *)
Lemma handle_by_parseInt (st : state) (path path' : string) (body : value) :
  parseInt path = parseInt path' ->
  handle st (GET_pokemon path) = handle st (GET_pokemon path') /\
  handle st (PUT_pokemon path body) = handle st (PUT_pokemon path' body) /\
  handle st (DELETE_pokemon path) = handle st (DELETE_pokemon path').
Proof.
  intros H. unfold handle, get_pokemon, put_pokemon, delete_pokemon.
  now rewrite H.
Qed.

End ScanFacts.

(** ** Pokémon records, file-backed variant: further properties *)

Module FileBackedMore.
Import Js Http Json FileBacked DataModel Samples.
Import NumberFacts ArrayFacts ObjectFacts FileBackedFacts DigitFacts MirrorFacts ScanFacts.

(** X1.  A restart loses nothing as long as no stored number is
    infinite: in every such state a running server reaches, loading the
    file gives back that very state. *)
Theorem restart_restores_state (st : state) :
  reachable st -> all_finite st = true -> load (file st) = Some st.
Proof.
  intros H Hfin. destruct (reachable_mirrored st H) as [_ Hsync].
  unfold load. rewrite (Hsync Hfin). now destruct st.
Qed.

Lemma restart_restores_state_witness :
  load (file (fst (handle empty_store (POST_pokemons pikachu))))
  = Some (fst (handle empty_store (POST_pokemons pikachu))).
Proof.
  apply restart_restores_state.
  - apply reach_handle.
    + apply (reach_load "[]"). reflexivity.
    + exists (stringify pikachu). vm_compute. reflexivity.
  - reflexivity.
Defined.

(** X2.  A request that is not answered 200 or 201 changes nothing:
    neither the list nor the file. *)
Theorem failed_request_changes_nothing (st : state) (rq : request) :
  status (snd (handle st rq)) <> 200%nat ->
  status (snd (handle st rq)) <> 201%nat ->
  fst (handle st rq) = st.
Proof.
  intros H200 H201.
  destruct rq as [| b | i | i b | i |]; unfold handle, express in *.
  - reflexivity.
  - cbn in H201. contradiction.
  - cbn [get_pokemon fst snd]. now destruct (bind _ _).
  - unfold put_pokemon in *.
    destruct (findIndex _ _) as [[index|]|]; cbn [fst snd] in *; try reflexivity.
    cbn in H200. contradiction.
  - unfold delete_pokemon in *.
    destruct (findIndex _ _) as [[index|]|]; cbn [fst snd] in *; try reflexivity.
    cbn in H200. contradiction.
  - reflexivity.
Qed.

Lemma failed_request_changes_nothing_witness :
  fst (handle (writeFileSync [bulbasaur]) (DELETE_pokemon "25")) = writeFileSync [bulbasaur].
Proof.
  apply failed_request_changes_nothing.
  - vm_compute. discriminate.
  - vm_compute. discriminate.
Defined.

(** X3.  PUT never adds or removes an entry: whatever the path and the
    body, the list is as long after the request as before. *)
Theorem put_keeps_length (st : state) (path : string) (body : value) :
  List.length (pokemonsList (fst (handle st (PUT_pokemon path body))))
  = List.length (pokemonsList st).
Proof.
  unfold handle, express, put_pokemon.
  destruct (findIndex _ _) as [[index|]|]; cbn [fst snd]; try reflexivity.
  cbn [writeFileSync pokemonsList]. apply assign_length.
Qed.

(** X4.  GET answers 200 only with a stored entry whose id is the very
    integer that [parseInt] read from the path. *)
Theorem get_returns_requested_id (st : state) (path : string) :
  status (snd (handle st (GET_pokemon path))) = 200%nat ->
  exists o n,
    In (Obj o) (pokemonsList st) /\
    lookup "id" o = Some (Num n) /\
    parseInt path = Int n /\
    handle st (GET_pokemon path) = (st, send 200 (Obj o)).
Proof.
  unfold handle, express, get_pokemon. cbn [fst snd]. intros H.
  destruct (find _ _) as [[p|]|e] eqn:E; cbn [bind] in *; try (cbn in H; discriminate).
  destruct (find_found _ _ _ E) as (pre & post & Hl & _ & Hp).
  destruct (id_strictly_true _ _ Hp) as (o & n & -> & Hid & Hn).
  exists o, n. repeat split; auto.
  rewrite Hl. apply in_or_app. right. now left.
Qed.

Lemma get_returns_requested_id_witness :
  exists o n,
    In (Obj o) (pokemonsList (writeFileSync [bulbasaur; pikachu])) /\
    lookup "id" o = Some (Num n) /\
    parseInt "25" = Int n /\
    handle (writeFileSync [bulbasaur; pikachu]) (GET_pokemon "25")
    = (writeFileSync [bulbasaur; pikachu], send 200 (Obj o)).
Proof.
  apply get_returns_requested_id. reflexivity.
Defined.

(** X5.  DELETE answers 200 only by removing one entry: the first one
    whose id is the integer read from the path.  The entries before and
    after it keep their order, and the response carries the removed one. *)
Theorem delete_removes_first_match (st : state) (path : string) :
  status (snd (handle st (DELETE_pokemon path))) = 200%nat ->
  exists pre o post n,
    pokemonsList st = pre ++ Obj o :: post /\
    lookup "id" o = Some (Num n) /\
    parseInt path = Int n /\
    (forall p, In p pre -> id_strictly (Int n) p = Normal false) /\
    handle st (DELETE_pokemon path)
    = (writeFileSync (pre ++ post),
       send 200 (Obj [("message", Str (utf8 "Pokémon supprimé avec succès."));
                      ("pokemon", Obj o)])).
Proof.
  intros H.
  assert (E : exists index,
             findIndex (id_strictly (parseInt path)) (pokemonsList st) = Normal (Some index)).
  { unfold handle, express, delete_pokemon in H.
    destruct (findIndex _ _) as [[index|]|e]; cbn in H; try discriminate. eauto. }
  destruct E as [index E].
  destruct (findIndex_found _ _ _ E) as (pre & r & post & Hl & Hlen & Hpre & Hr).
  destruct (id_strictly_true _ _ Hr) as (o & n & -> & Hid & Hn).
  exists pre, o, post, n. repeat split; auto.
  - intros p Hp. rewrite <- Hn. now apply Hpre.
  - now apply delete_pokemon_hit.
Qed.

Lemma delete_removes_first_match_witness :
  exists pre o post n,
    pokemonsList (writeFileSync [bulbasaur; pikachu; impostor]) = pre ++ Obj o :: post /\
    lookup "id" o = Some (Num n) /\
    parseInt "1" = Int n /\
    (forall p, In p pre -> id_strictly (Int n) p = Normal false) /\
    handle (writeFileSync [bulbasaur; pikachu; impostor]) (DELETE_pokemon "1")
    = (writeFileSync (pre ++ post),
       send 200 (Obj [("message", Str (utf8 "Pokémon supprimé avec succès."));
                      ("pokemon", Obj o)])).
Proof.
  apply delete_removes_first_match. reflexivity.
Defined.

(** X6.  A record POSTed under an id that is already stored is shadowed:
    GET on that id keeps returning the older record, and only after a
    DELETE on the id (which removes the older one) does GET return the
    newer. *)
Theorem duplicate_is_shadowed
        (st : state) (pre post : list value) (old new : props) (n : Z) :
  stored_ok st ->
  pokemonsList st = pre ++ Obj old :: post ->
  lookup "id" old = Some (Num n) ->
  lookup "id" new = Some (Num n) ->
  (forall p, In p pre -> get_id p <> Normal (Some (Num n))) ->
  (forall p, In p post -> get_id p <> Normal (Some (Num n))) ->
  let path := string_of_Z n in
  let st1 := fst (handle st (POST_pokemons (Obj new))) in
  let st2 := fst (handle st1 (DELETE_pokemon path)) in
  handle st1 (GET_pokemon path) = (st1, send 200 (Obj old)) /\
  pokemonsList st2 = pre ++ post ++ [Obj new] /\
  handle st2 (GET_pokemon path) = (st2, send 200 (Obj new)).
Proof.
  intros Hok Hl Hold Hnew Hpre Hpost path st1 st2.
  assert (Hadm : forall p, In p pre \/ In p post -> admitted p).
  { intros p Hp. apply (stored_ok_In st); [exact Hok |]. rewrite Hl.
    apply in_or_app. destruct Hp; [now left | right; now right]. }
  assert (Hmiss : forall p, In p pre \/ In p post ->
                    id_strictly (parseInt path) p = Normal false).
  { intros p Hp. unfold path. rewrite parseInt_string_of_Z.
    apply id_strictly_miss; [now apply Hadm | destruct Hp; auto]. }
  assert (Hhit : forall o, lookup "id" o = Some (Num n) ->
                   id_strictly (parseInt path) (Obj o) = Normal true).
  { intros o Ho. unfold path. rewrite parseInt_string_of_Z. now apply id_strictly_hit. }
  assert (Hl1 : pokemonsList st1 = pre ++ Obj old :: (post ++ [Obj new])).
  { unfold st1. cbn [handle express post_pokemons fst snd writeFileSync pokemonsList].
    rewrite Hl. now rewrite <- app_assoc. }
  assert (Hdel : handle st1 (DELETE_pokemon path)
                 = (writeFileSync (pre ++ (post ++ [Obj new])),
                    send 200 (Obj [("message", Str (utf8 "Pokémon supprimé avec succès."));
                                   ("pokemon", Obj old)]))).
  { apply delete_pokemon_hit; auto. }
  assert (Hl2 : pokemonsList st2 = (pre ++ post) ++ Obj new :: []).
  { unfold st2. rewrite Hdel. cbn [fst writeFileSync pokemonsList].
    now rewrite app_assoc. }
  split; [apply (get_pokemon_hit st1 path pre (post ++ [Obj new])); auto |].
  split; [rewrite Hl2; now rewrite <- app_assoc |].
  apply (get_pokemon_hit st2 path (pre ++ post) []); auto.
  intros p Hp. apply Hmiss. now apply in_app_or.
Qed.

Lemma duplicate_is_shadowed_witness :
  let st := writeFileSync [bulbasaur; Obj charmander; pikachu] in
  let st1 := fst (handle st (POST_pokemons (Obj charmeleon))) in
  let st2 := fst (handle st1 (DELETE_pokemon (string_of_Z 4))) in
  handle st1 (GET_pokemon (string_of_Z 4)) = (st1, send 200 (Obj charmander)) /\
  pokemonsList st2 = [bulbasaur] ++ [pikachu] ++ [Obj charmeleon] /\
  handle st2 (GET_pokemon (string_of_Z 4)) = (st2, send 200 (Obj charmeleon)).
Proof.
  apply (duplicate_is_shadowed (writeFileSync [bulbasaur; Obj charmander; pikachu])
                               [bulbasaur] [pikachu] charmander charmeleon 4).
  - repeat constructor.
  - reflexivity.
  - reflexivity.
  - reflexivity.
  - intros p [<- | []]. differ.
  - intros p [<- | []]. differ.
Defined.

(** X7.  The path parameter is read by [parseInt], which stops at the
    first character that is not a digit: a path made of the decimal form
    of [n] followed by other characters is handled, by GET, PUT and DELETE
    alike, exactly as the path [n]. *)
Theorem trailing_characters_ignored
        (st : state) (n : Z) (rest : string) (body : value) :
  starts_with_digit 10 rest = false ->
  prefix "x" rest = None ->
  prefix "X" rest = None ->
  map (handle st) (by_id_requests (string_of_Z n ++ rest) body)
  = map (handle st) (by_id_requests (string_of_Z n) body).
Proof.
  intros Hd Hx HX.
  destruct (handle_by_parseInt st (string_of_Z n ++ rest) (string_of_Z n) body)
    as (Hg & Hp & Hdel).
  { now rewrite parseInt_prefix, parseInt_string_of_Z. }
  cbn [map by_id_requests]. now rewrite Hg, Hp, Hdel.
Qed.

Lemma trailing_characters_ignored_witness :
  map (handle (writeFileSync [bulbasaur; pikachu]))
      (by_id_requests (string_of_Z 25 ++ "-pikachu") rename)
  = map (handle (writeFileSync [bulbasaur; pikachu]))
        (by_id_requests (string_of_Z 25) rename).
Proof.
  apply trailing_characters_ignored; reflexivity.
Defined.

(** X8.  In a store whose entries all carry a number as id, no request is
    answered 500: the status is 200, 201 or 404. *)
Theorem numeric_ids_never_500 (st : state) (rq : request) :
  numeric_ids st ->
  In (status (snd (handle st rq))) [200; 201; 404]%nat.
Proof.
  intros Hnum.
  assert (Hs : forall id p, In p (pokemonsList st) -> exists b, id_strictly id p = Normal b).
  { intros id p Hp. unfold numeric_ids in Hnum. rewrite Forall_forall in Hnum.
    destruct (Hnum p Hp) as [m Hm]. unfold id_strictly. rewrite Hm.
    cbn [bind strict_equals]. eauto. }
  assert (Hq : forall id p, In p (pokemonsList st) -> exists b, id_loosely id p = Normal b).
  { intros id p Hp. unfold numeric_ids in Hnum. rewrite Forall_forall in Hnum.
    destruct (Hnum p Hp) as [m Hm]. unfold id_loosely. rewrite Hm.
    cbn [bind loose_equals]. eauto. }
  destruct rq as [| b | i | i b | i |]; unfold handle, express.
  - cbn. auto.
  - cbn. auto.
  - cbn [get_pokemon fst snd].
    destruct (find_total _ _ (Hs (parseInt i))) as [r ->]. cbn [bind].
    destruct (negb (truthy r)); [cbn; auto |]. destruct r; cbn; auto.
  - unfold put_pokemon.
    destruct (findIndex_total _ _ (Hq (parseInt i))) as [[index|] ->]; cbn; auto.
  - unfold delete_pokemon.
    destruct (findIndex_total _ _ (Hs (parseInt i))) as [[index|] ->]; cbn; auto.
  - cbn. auto.
Qed.

Lemma numeric_ids_never_500_witness :
  In (status (snd (handle (writeFileSync [bulbasaur; pikachu]) (PUT_pokemon "abc" rename))))
     [200; 201; 404]%nat.
Proof.
  apply numeric_ids_never_500.
  repeat constructor; eexists; reflexivity.
Defined.

(** X9.  The merge does not protect the id: a PUT whose body carries an
    [id], a number other than the one asked for, renumbers the record it
    finds.  GET on the new id then returns the merged record, when no
    entry before it carries the new id; and GET on the old path answers
    404, when no other entry of the list carries the old id. *)
Theorem put_can_change_id
        (st : state) (path : string) (body r : value) (pre post : list value) (n m : Z) :
  stored_ok st ->
  pokemonsList st = pre ++ r :: post ->
  parseInt path = Int n ->
  (forall p, In p pre -> id_loosely (Int n) p = Normal false) ->
  id_loosely (Int n) r = Normal true ->
  NoDup (keys (own_props r)) ->
  NoDup (keys (own_props body)) ->
  lookup "id" (own_props body) = Some (Num m) ->
  Int n <> Int m ->
  (forall p, In p pre -> get_id p <> Normal (Some (Num m))) ->
  (forall p, In p pre \/ In p post -> get_id p <> Normal (Some (Num n))) ->
  let st1 := fst (handle st (PUT_pokemon path body)) in
  handle st1 (GET_pokemon (string_of_Z m)) = (st1, send 200 (spread2 r body)) /\
  handle st1 (GET_pokemon path) = (st1, not_found).
Proof.
  intros Hok Hl Hpath Hpre Hr Hnr Hnb Hid Hnm Hprem Hothers st1.
  assert (Hput : handle st (PUT_pokemon path body)
                 = (writeFileSync (pre ++ spread2 r body :: post),
                    send 200 (Obj [("message", Str (utf8 "Pokémon mis à jour avec succès."));
                                   ("pokemon", spread2 r body)]))).
  { apply put_pokemon_hit; rewrite ?Hpath; auto. }
  assert (Hl1 : pokemonsList st1 = pre ++ spread2 r body :: post).
  { unfold st1. now rewrite Hput. }
  assert (Hadm : forall p, In p pre \/ In p post -> admitted p).
  { intros p Hp. apply (stored_ok_In st); [exact Hok |]. rewrite Hl.
    apply in_or_app. destruct Hp; [now left | right; now right]. }
  assert (Hmid : lookup "id" (copy_props (own_props body) (copy_props (own_props r) []))
                 = Some (Num m)).
  { rewrite lookup_copy_props by exact Hnb. now rewrite Hid. }
  split.
  - apply (get_pokemon_hit st1 _ pre post); rewrite ?parseInt_string_of_Z; auto.
    + intros p Hp. apply id_strictly_miss; [apply Hadm; now left | now apply Hprem].
    + now apply id_strictly_hit.
  - apply get_pokemon_miss. rewrite Hl1, Hpath. intros p Hp.
    apply in_app_or in Hp as [Hp | [<- | Hp]].
    + apply id_strictly_miss; [apply Hadm; now left | apply Hothers; now left].
    + unfold id_strictly, spread2. cbn [get_id bind]. rewrite Hmid.
      unfold Num. cbn [strict_equals]. f_equal.
      apply number_eq_false. congruence.
    + apply id_strictly_miss; [apply Hadm; now right | apply Hothers; now right].
Qed.

Lemma put_can_change_id_witness :
  let st := writeFileSync [bulbasaur; pikachu] in
  let st1 := fst (handle st (PUT_pokemon "25" renumber)) in
  handle st1 (GET_pokemon (string_of_Z 26)) = (st1, send 200 (spread2 pikachu renumber)) /\
  handle st1 (GET_pokemon "25") = (st1, not_found).
Proof.
  apply (put_can_change_id (writeFileSync [bulbasaur; pikachu]) "25" renumber pikachu
                           [bulbasaur] [] 25 26).
  - repeat constructor.
  - reflexivity.
  - reflexivity.
  - intros p [<- | []]. vm_compute; reflexivity.
  - reflexivity.
  - repeat constructor; simpl; intuition discriminate.
  - repeat constructor; simpl; intuition.
  - reflexivity.
  - differ.
  - intros p [<- | []]. differ.
  - intros p [[<- | []] | []]. differ.
Defined.

(** X10.  PUT is idempotent when the body carries no [id]: sending the
    same request a second time leaves the state the first one produced and
    gets the same response. *)
Theorem put_twice_is_put_once
        (st : state) (path : string) (body r : value) (pre post : list value) :
  pokemonsList st = pre ++ r :: post ->
  (forall p, In p pre -> id_loosely (parseInt path) p = Normal false) ->
  id_loosely (parseInt path) r = Normal true ->
  NoDup (keys (own_props r)) ->
  NoDup (keys (own_props body)) ->
  lookup "id" (own_props body) = None ->
  handle (fst (handle st (PUT_pokemon path body))) (PUT_pokemon path body)
  = handle st (PUT_pokemon path body).
Proof.
  intros Hl Hpre Hr Hnr Hnb Hid.
  destruct (id_loosely_true _ _ Hr) as [o ->]. cbn [own_props] in Hnr.
  rewrite (put_pokemon_hit st path body pre post (Obj o) Hl Hpre Hr).
  cbn [fst].
  assert (Hr' : id_loosely (parseInt path) (spread2 (Obj o) body) = Normal true).
  { rewrite <- Hr. unfold id_loosely, spread2. cbn [get_id own_props].
    rewrite lookup_copy_props by exact Hnb. rewrite Hid.
    rewrite lookup_copy_props by exact Hnr. now destruct (lookup "id" o). }
  rewrite (put_pokemon_hit (writeFileSync (pre ++ spread2 (Obj o) body :: post))
             path body pre post (spread2 (Obj o) body) eq_refl Hpre Hr').
  now rewrite spread2_again.
Qed.

Lemma put_twice_is_put_once_witness :
  handle (fst (handle (writeFileSync [bulbasaur; pikachu]) (PUT_pokemon "25" rename)))
         (PUT_pokemon "25" rename)
  = handle (writeFileSync [bulbasaur; pikachu]) (PUT_pokemon "25" rename).
Proof.
  apply (put_twice_is_put_once (writeFileSync [bulbasaur; pikachu]) "25" rename pikachu
                               [bulbasaur] []).
  - reflexivity.
  - intros p [<- | []]. vm_compute; reflexivity.
  - reflexivity.
  - repeat constructor; simpl; intuition discriminate.
  - repeat constructor; simpl; intuition.
  - reflexivity.
Defined.

Lemma stored_ok_run (rqs : list request) : forall st,
  stored_ok st -> Forall body_admitted rqs -> stored_ok (run st rqs).
Proof.
  unfold run. induction rqs as [|rq rqs IH]; intros st Hok Hb; [exact Hok |].
  inversion Hb; subst. cbn [fold_left]. apply IH; [| assumption].
  now apply stored_ok_handle.
Qed.

(** X11.  Along any sequence of requests whose bodies are JSON objects or
    arrays, every stored entry stays a JSON object or array; reading its
    [id] then never throws, and GET and DELETE are never answered 500. *)
Theorem get_delete_never_500 (st : state) (rqs : list request) (path : string) :
  stored_ok st ->
  Forall body_admitted rqs ->
  stored_ok (run st rqs) /\
  status (snd (handle (run st rqs) (GET_pokemon path))) <> 500%nat /\
  status (snd (handle (run st rqs) (DELETE_pokemon path))) <> 500%nat.
Proof.
  intros Hok Hb.
  pose proof (stored_ok_run rqs st Hok Hb) as Hrun.
  split; [exact Hrun |].
  assert (Hs : forall p, In p (pokemonsList (run st rqs)) ->
                 exists b, id_strictly (parseInt path) p = Normal b).
  { intros p Hp. destruct (get_id_admitted p (stored_ok_In _ p Hrun Hp)) as [x Hx].
    unfold id_strictly. rewrite Hx. cbn. eauto. }
  split; unfold handle, express.
  - cbn [get_pokemon fst snd].
    destruct (find_total _ _ Hs) as [r ->]. cbn [bind].
    destruct (negb (truthy r)); [cbn; discriminate |]. destruct r; cbn; discriminate.
  - unfold delete_pokemon.
    destruct (findIndex_total _ _ Hs) as [[index|] ->]; cbn; discriminate.
Qed.

Lemma get_delete_never_500_witness :
  let rqs := [POST_pokemons opaque_id; PUT_pokemon "1" rename; DELETE_pokemon "25"] in
  stored_ok (run (writeFileSync [bulbasaur; pikachu]) rqs) /\
  status (snd (handle (run (writeFileSync [bulbasaur; pikachu]) rqs) (GET_pokemon "abc")))
  <> 500%nat /\
  status (snd (handle (run (writeFileSync [bulbasaur; pikachu]) rqs) (DELETE_pokemon "abc")))
  <> 500%nat.
Proof.
  apply (get_delete_never_500 (writeFileSync [bulbasaur; pikachu])
           [POST_pokemons opaque_id; PUT_pokemon "1" rename; DELETE_pokemon "25"] "abc").
  - repeat constructor.
  - repeat constructor.
Defined.

End FileBackedMore.

(** ** Accounts: further properties *)

Module AuthMoreFacts.
Import Js Http Mongoose DocStore AuthFacts Samples.

Lemma existsb_false_all {A} (f : A -> bool) (l : list A) :
  existsb f l = false -> forall x, In x l -> f x = false.
Proof.
  induction l as [|y l IH]; cbn; intros H x Hx; [contradiction |].
  apply orb_false_elim in H as [Hy Hl]. destruct Hx as [<- | Hx]; auto.
Qed.

(** What a successful [save] did. *)
Lemma save_stored (db db' : users) (env : environment) (u e p : string) (doc : user) :
  save db env u e p = (db', inr doc) ->
  doc = {| _id := fresh_id env; username := cast_username u; email := cast_email e;
           password := p; createdAt := now env |} /\
  db' = db ++ [doc] /\
  (forall d, In d db -> username d <> username doc) /\
  (forall d, In d db -> email d <> email doc).
Proof.
  unfold save. intros H.
  destruct (validate _ _ _); [| discriminate].
  destruct (existsb (fun d => String.eqb (username d) (cast_username u)) db) eqn:Eu;
    [discriminate |].
  destruct (existsb (fun d => String.eqb (email d) (cast_email e)) db) eqn:Ee;
    [discriminate |].
  inversion H; subst. repeat split.
  - intros d Hd. apply String.eqb_neq. now apply (existsb_false_all _ _ Eu).
  - intros d Hd. apply String.eqb_neq. now apply (existsb_false_all _ _ Ee).
Qed.

(** A refused [save] stores nothing, and the only errors it raises are a
    validation error and the duplicate-key error 11000. *)
Lemma save_refused (db db' : users) (env : environment) (u e p : string)
      (err : mongoose_error) :
  save db env u e p = (db', inl err) ->
  db' = db /\
  ((exists errors, err = ValidationError errors) \/
   (exists keyPattern message, err = MongoServerError 11000 keyPattern message)).
Proof.
  unfold save. intros H.
  destruct (validate _ _ _).
  - destruct (existsb _ db); [inversion H; eauto |].
    destruct (existsb _ db); [inversion H; eauto | discriminate].
  - inversion H; eauto.
Qed.

Section WithBcrypt.
Context {bcrypt : Bcrypt}.

(** Registration either stores one account and answers 201, or stores
    nothing and answers 400. *)
Lemma register_cases (db : users) (env : environment) (body : register_body) :
  (exists doc,
      register db env body
      = (db ++ [doc], json 201 (Obj [("message", Str (utf8 "Compte créé avec succès"));
                                     ("user", userResponse doc)])) /\
      password doc = hash (text (reg_password body)) (salt env) /\
      username doc = cast_username (text (reg_username body)) /\
      email doc = cast_email (text (reg_email body)) /\
      (forall d, In d db -> username d <> username doc) /\
      (forall d, In d db -> email d <> email doc))
  \/ (exists m,
        register db env body = (db, json 400 (Obj [("message", Str m)]))).
Proof.
  unfold register.
  destruct (falsy (reg_username body) || falsy (reg_email body) || falsy (reg_password body));
    [right; eauto |].
  destruct (findOne_email db _); [right; eauto |].
  destruct (findOne_username db _); [right; eauto |].
  destruct (save db env _ _ _) as [db' [err | doc]] eqn:E.
  - apply save_refused in E as (-> & [(errors & ->) | (kp & msg & ->)]);
      right; eexists; reflexivity.
  - apply save_stored in E as (Hdoc & -> & Hu & He). left. exists doc.
    rewrite Hdoc in *. cbn [password username email] in *. repeat split; auto.
Qed.

(** Registration with a valid username and email that are not in use, and
    any password that is not empty. *)
Lemma register_success (db : users) (env : environment) (u e p : string) :
  (forall s t, String.length (hash s t) = 60%nat) ->
  (forall d, In d db -> username d <> cast_username u) ->
  (forall d, In d db -> email d <> cast_email e) ->
  p <> EmptyString ->
  (3 <= String.length (cast_username u))%nat ->
  matches email_pattern (cast_email e) = true ->
  register db env {| reg_username := Some u; reg_email := Some e; reg_password := Some p |}
  = (db ++ [{| _id := fresh_id env; username := cast_username u; email := cast_email e;
               password := hash p (salt env); createdAt := now env |}],
     json 201 (Obj [("message", Str (utf8 "Compte créé avec succès"));
                    ("user", userResponse
                       {| _id := fresh_id env; username := cast_username u;
                          email := cast_email e; password := hash p (salt env);
                          createdAt := now env |})])).
Proof.
  intros Hhash Hfu Hfe Hp Hu He.
  unfold register. cbn [reg_username reg_email reg_password text].
  assert (Hune : u <> EmptyString) by (apply trim_nonempty; unfold cast_username in Hu; lia).
  assert (Hene : e <> EmptyString) by (intros ->; discriminate He).
  rewrite !falsy_text by assumption. cbn [orb].
  rewrite find_email_none, find_username_none by assumption.
  rewrite save_ok; try assumption; [reflexivity |].
  rewrite Hhash. lia.
Qed.

Lemma find_email_last (db : users) (e : string) (doc : user) :
  (forall d, In d db -> email d <> cast_email e) ->
  email doc = cast_email e ->
  findOne_email (db ++ [doc]) e = Some doc.
Proof.
  intros Hdb Hdoc. unfold findOne_email.
  induction db as [|d db IH]; cbn [app List.find].
  - now rewrite Hdoc, String.eqb_refl.
  - destruct (String.eqb_spec (email d) (cast_email e)) as [E | _].
    + exfalso. apply (Hdb d); [now left | exact E].
    + apply IH. intros d' Hd'. apply Hdb. now right.
Qed.

End WithBcrypt.

End AuthMoreFacts.

(** ** The email pattern *)

Module RegexFacts.
Import Js Http Mongoose RegexModel.

Lemma void_not_nullable (r : regex) : void r = true -> nullable r = false.
Proof.
  induction r; cbn; intros H; try discriminate; try reflexivity.
  - apply orb_true_iff in H as [H | H];
      [rewrite (IHr1 H) | rewrite (IHr2 H)]; auto using andb_false_r.
  - apply andb_true_iff in H as [H1 H2]. now rewrite IHr1, IHr2.
Qed.

Lemma void_deriv (c : ascii) (r : regex) : void r = true -> void (deriv c r) = true.
Proof.
  induction r; cbn; intros H; try discriminate; try reflexivity.
  - apply orb_true_iff in H as [H | H].
    + rewrite (void_not_nullable _ H). cbn. now rewrite IHr1.
    + destruct (nullable r1); cbn; rewrite ?H, ?IHr2, ?orb_true_r; auto.
  - apply andb_true_iff in H as [H1 H2]. now rewrite IHr1, IHr2.
Qed.

Lemma void_matches (s : string) : forall r, void r = true -> matches r s = false.
Proof.
  induction s as [|c s IH]; intros r H; cbn.
  - now apply void_not_nullable.
  - apply IH. now apply void_deriv.
Qed.

Lemma within_deriv (allowed : ascii -> bool) (c : ascii) (r : regex) :
  within allowed r -> within allowed (deriv c r).
Proof.
  induction r; cbn; intros H; auto.
  - now destruct (p c).
  - destruct H as [H1 H2]. destruct (nullable r1); cbn; auto.
  - destruct H as [H1 H2]. auto.
Qed.

Lemma outside_deriv (allowed : ascii -> bool) (c : ascii) (r : regex) :
  within allowed r -> allowed c = false -> void (deriv c r) = true.
Proof.
  intros H Hc. induction r; cbn in *; auto.
  - destruct (p c) eqn:E; [| reflexivity]. apply H in E. congruence.
  - destruct H as [H1 H2]. destruct (nullable r1); cbn;
      rewrite ?(IHr1 H1), ?(IHr2 H2); reflexivity.
  - destruct H as [H1 H2]. now rewrite IHr1, IHr2.
  - now rewrite IHr.
Qed.

(** A string that [r] matches is made of characters of [r]'s classes. *)
Lemma matches_within (allowed : ascii -> bool) (s : string) : forall r,
  within allowed r -> matches r s = true ->
  forall c, In c (list_ascii_of_string s) -> allowed c = true.
Proof.
  induction s as [|a s IH]; intros r Hr Hm c Hc; cbn in *; [contradiction |].
  destruct (allowed a) eqn:Ea.
  - destruct Hc as [<- | Hc]; [exact Ea |].
    apply (IH (deriv a r)); auto using within_deriv.
  - rewrite (void_matches s (deriv a r)) in Hm; [discriminate |].
    now apply (outside_deriv allowed).
Qed.

Lemma email_pattern_within : within email_char email_pattern.
Proof.
  assert (Hw : within email_char word).
  { intros c H. unfold email_char. now rewrite H. }
  assert (Hd : within email_char dot_or_dash).
  { intros c H. unfold email_char. apply orb_true_iff in H as [H | H]; rewrite H;
      rewrite ?orb_true_r; reflexivity. }
  assert (Hdw : within email_char dotted_words).
  { cbn. auto 10. }
  unfold email_pattern.
  repeat match goal with |- within _ (Cat _ _) => split end; try exact Hdw.
  - intros c H. unfold email_char. rewrite Ascii.eqb_sym in H. rewrite H.
    now rewrite !orb_true_r.
  - assert (Hdot : within email_char (Chr (Ascii.eqb "."))).
    { intros c H. unfold email_char. rewrite Ascii.eqb_sym in H. rewrite H.
      now rewrite !orb_true_r. }
    cbn. cbn in Hdot, Hw. auto 20.
Qed.

End RegexFacts.

Module AuthMore.
Import Js Http Mongoose DocStore AuthFacts AuthMoreFacts Samples RegexModel RegexFacts.

(** X12.  No response of [/auth/register] or [/auth/login], whatever the
    fields sent, the stored accounts and the outcome, holds a property
    named [password], at any depth. *)
Theorem responses_never_hold_password
        {bcrypt : Bcrypt} (db : users) (env : environment)
        (rb : register_body) (lb : login_body) :
  payload_has_key "password" (body (snd (register db env rb))) = false /\
  payload_has_key "password" (body (snd (login db lb))) = false.
Proof.
  split.
  - destruct (register_cases db env rb) as [(doc & -> & _) | (m & ->)]; reflexivity.
  - unfold login.
    destruct (falsy (login_email lb) || falsy (login_password lb)); [reflexivity |].
    destruct (findOne_email db _); [| reflexivity].
    destruct (negb _); reflexivity.
Qed.

(** X13.  Registration keeps usernames and emails unique: if no two
    stored accounts share a username or an email before the request, none
    do after it. *)
Theorem register_keeps_unique
        {bcrypt : Bcrypt} (db : users) (env : environment) (rb : register_body) :
  NoDup (map username db) ->
  NoDup (map email db) ->
  NoDup (map username (fst (register db env rb))) /\
  NoDup (map email (fst (register db env rb))).
Proof.
  intros Hu He.
  destruct (register_cases db env rb)
    as [(doc & -> & _ & _ & _ & Hfu & Hfe) | (m & ->)]; cbn [fst]; auto.
  rewrite !map_app. cbn [map].
  split; (apply NoDup_app; [assumption | repeat constructor; intros [] |]).
  - intros x Hx [<- | []]. apply in_map_iff in Hx as (d & Hd & Hin).
    now apply (Hfu d).
  - intros x Hx [<- | []]. apply in_map_iff in Hx as (d & Hd & Hin).
    now apply (Hfe d).
Qed.

Lemma register_keeps_unique_witness :
  let rb := {| reg_username := Some "brock"; reg_email := Some "brock@kanto.org";
               reg_password := Some "onix123" |} in
  NoDup (map username (fst (register [ash] sample_env rb))) /\
  NoDup (map email (fst (register [ash] sample_env rb))).
Proof.
  apply (register_keeps_unique [ash] sample_env).
  - repeat constructor. intros [].
  - repeat constructor. intros [].
Defined.

(** X14.  For a request whose username, email and password are each
    absent or a string, an account is stored exactly when the answer is
    201: then one document is appended at the end of the collection,
    holding the bcrypt hash and not the password sent.  Every other
    answer to such a request is a 400 and leaves the collection as it
    was.  (The driver calls are taken to resolve: the 500 of a lost
    connection, like the 500 that a password which is not a string gets
    from bcrypt, is outside the model.) *)
Theorem register_stores_iff_201
        {bcrypt : Bcrypt} (db : users) (env : environment) (rb : register_body) :
  (status (snd (register db env rb)) = 201%nat /\
   exists doc, fst (register db env rb) = db ++ [doc] /\
               password doc = hash (text (reg_password rb)) (salt env))
  \/ (status (snd (register db env rb)) = 400%nat /\
      fst (register db env rb) = db).
Proof.
  destruct (register_cases db env rb) as [(doc & -> & Hp & _) | (m & ->)]; cbn [fst snd].
  - left. split; [reflexivity |]. eauto.
  - right. split; reflexivity.
Qed.

(** X15.  The length of the password sent is not checked: the schema's
    minimum of six characters is applied to the 60-character hash.  A
    valid, unused username and email with any non-empty password, even
    of one character, get a 201. *)
Theorem short_password_accepted
        {bcrypt : Bcrypt} (db : users) (env : environment) (u e p : string) :
  (forall s t, String.length (hash s t) = 60%nat) ->
  (forall d, In d db -> username d <> cast_username u) ->
  (forall d, In d db -> email d <> cast_email e) ->
  p <> EmptyString ->
  (3 <= String.length (cast_username u))%nat ->
  matches email_pattern (cast_email e) = true ->
  status (snd (register db env
                 {| reg_username := Some u; reg_email := Some e; reg_password := Some p |}))
  = 201%nat.
Proof.
  intros Hhash Hfu Hfe Hp Hu He. now rewrite register_success.
Qed.

Lemma short_password_accepted_witness :
  status (snd (register [ash] sample_env
                 {| reg_username := Some "brock"; reg_email := Some "brock@kanto.org";
                    reg_password := Some "x" |}))
  = 201%nat.
Proof.
  apply (short_password_accepted [ash] sample_env "brock" "brock@kanto.org" "x").
  - intros s t. apply pad_length.
  - intros d [<- | []]. discriminate.
  - intros d [<- | []]. discriminate.
  - discriminate.
  - cbn. lia.
  - reflexivity.
Defined.

(** X16.  After a successful registration, logging in with the same email
    and password (a password bcrypt recognises in its own hash) answers
    200 with the account just created. *)
Theorem register_then_login
        {bcrypt : Bcrypt} (db : users) (env : environment) (u e p : string) :
  (forall s t, String.length (hash s t) = 60%nat) ->
  compare p (hash p (salt env)) = true ->
  (forall d, In d db -> username d <> cast_username u) ->
  (forall d, In d db -> email d <> cast_email e) ->
  p <> EmptyString ->
  (3 <= String.length (cast_username u))%nat ->
  matches email_pattern (cast_email e) = true ->
  let db1 := fst (register db env
                    {| reg_username := Some u; reg_email := Some e;
                       reg_password := Some p |}) in
  login db1 {| login_email := Some e; login_password := Some p |}
  = (db1, json 200 (Obj [("message", Str (utf8 "Connexion réussie"));
                         ("user", Obj [("id", Str (fresh_id env));
                                       ("username", Str (cast_username u));
                                       ("email", Str (cast_email e));
                                       ("createdAt", Str (now env))])])).
Proof.
  intros Hhash Hcmp Hfu Hfe Hp Hu He db1.
  unfold db1. rewrite register_success by assumption. cbn [fst].
  unfold login. cbn [login_email login_password text].
  assert (Hene : e <> EmptyString) by (intros ->; discriminate He).
  rewrite !falsy_text by assumption. cbn [orb].
  rewrite find_email_last by (assumption || reflexivity).
  cbn [password]. now rewrite Hcmp.
Qed.

Lemma register_then_login_witness :
  let db1 := fst (register [ash] sample_env
                    {| reg_username := Some "brock"; reg_email := Some "Brock@Kanto.org";
                       reg_password := Some "onix123" |}) in
  login db1 {| login_email := Some "Brock@Kanto.org"; login_password := Some "onix123" |}
  = (db1, json 200 (Obj [("message", Str (utf8 "Connexion réussie"));
                         ("user", Obj [("id", Str (fresh_id sample_env));
                                       ("username", Str (cast_username "brock"));
                                       ("email", Str (cast_email "Brock@Kanto.org"));
                                       ("createdAt", Str (now sample_env))])])).
Proof.
  apply (register_then_login [ash] sample_env "brock" "Brock@Kanto.org" "onix123").
  - intros s t. apply pad_length.
  - reflexivity.
  - intros d [<- | []]. discriminate.
  - intros d [<- | []]. discriminate.
  - discriminate.
  - cbn. lia.
  - reflexivity.
Defined.

(** X17.  For a request whose email and password are each absent or a
    string, login answers 200 only for a stored account whose email is
    the one sent (trimmed and lower-cased) and whose stored hash bcrypt
    accepts for the password sent; the response carries that account.
    (An email that is an object of query operators is outside the
    model.) *)
Theorem login_200_only_on_match
        {bcrypt : Bcrypt} (db : users) (lb : login_body) :
  status (snd (login db lb)) = 200%nat ->
  exists user,
    In user db /\
    email user = cast_email (text (login_email lb)) /\
    compare (text (login_password lb)) (password user) = true /\
    login db lb = (db, json 200 (Obj [("message", Str (utf8 "Connexion réussie"));
                                      ("user", userResponse user)])).
Proof.
  unfold login.
  destruct (falsy (login_email lb) || falsy (login_password lb)); [discriminate |].
  unfold findOne_email.
  destruct (List.find _ db) as [user|] eqn:E; [| discriminate].
  apply find_some in E as [Hin Heq]. apply String.eqb_eq in Heq.
  destruct (compare _ _) eqn:C; cbn [negb]; [| discriminate].
  intros _. exists user. now repeat split.
Qed.

Lemma login_200_only_on_match_witness :
  exists user,
    In user [ash] /\
    email user = cast_email (text (Some " Ash@Kanto.org")) /\
    compare (text (Some "pikachu1")) (password user) = true /\
    login [ash] {| login_email := Some " Ash@Kanto.org"; login_password := Some "pikachu1" |}
    = ([ash], json 200 (Obj [("message", Str (utf8 "Connexion réussie"));
                             ("user", userResponse user)])).
Proof.
  apply (login_200_only_on_match [ash]
           {| login_email := Some " Ash@Kanto.org"; login_password := Some "pikachu1" |}).
  reflexivity.
Defined.

(** X18.  Registering with a username that an account already carries,
    and an email that none carries, is answered 400 with the message that
    the username is taken; nothing is stored. *)
Theorem register_duplicate_username
        {bcrypt : Bcrypt} (db : users) (env : environment) (acct : user) (u e p : string) :
  u <> EmptyString -> e <> EmptyString -> p <> EmptyString ->
  (forall d, In d db -> email d <> cast_email e) ->
  In acct db ->
  username acct = cast_username u ->
  register db env {| reg_username := Some u; reg_email := Some e; reg_password := Some p |}
  = (db, json 400 (Obj [("message", Str (utf8 "Ce nom d'utilisateur est déjà pris"))])).
Proof.
  intros Hu He Hp Hfe Hin Heq.
  unfold register. cbn [reg_username reg_email reg_password text].
  rewrite !falsy_text by assumption. cbn [orb].
  rewrite find_email_none by assumption.
  unfold findOne_username.
  destruct (List.find _ db) as [found|] eqn:E; [reflexivity |].
  exfalso. apply (find_none _ _ E) in Hin. cbn in Hin.
  rewrite Heq, String.eqb_refl in Hin. discriminate.
Qed.

Lemma register_duplicate_username_witness :
  register [ash] sample_env
    {| reg_username := Some " ash "; reg_email := Some "red@kanto.org";
       reg_password := Some "charizard" |}
  = ([ash], json 400 (Obj [("message", Str (utf8 "Ce nom d'utilisateur est déjà pris"))])).
Proof.
  apply (register_duplicate_username [ash] sample_env ash " ash " "red@kanto.org" "charizard").
  - discriminate.
  - discriminate.
  - discriminate.
  - intros d [<- | []]. discriminate.
  - now left.
  - reflexivity.
Defined.

(** X19.  Validation reports every failing field at once: a username of
    one or two characters together with an email that does not match the
    pattern is answered 400 with both messages, joined by a comma, and
    nothing is stored.  The messages come in the order in which the
    constructor set the paths: username, then email. *)
Theorem validation_errors_are_joined
        {bcrypt : Bcrypt} (db : users) (env : environment) (u e p : string) :
  (forall s t, String.length (hash s t) = 60%nat) ->
  (forall d, In d db -> username d <> cast_username u) ->
  (forall d, In d db -> email d <> cast_email e) ->
  p <> EmptyString ->
  (1 <= String.length (cast_username u) < 3)%nat ->
  cast_email e <> EmptyString ->
  matches email_pattern (cast_email e) = false ->
  register db env {| reg_username := Some u; reg_email := Some e; reg_password := Some p |}
  = (db, json 400
           (Obj [("message",
                  Str (utf8 "Le nom d'utilisateur doit contenir au moins 3 caractères"
                       ++ ", " ++ "Veuillez fournir une adresse email valide"))])).
Proof.
  intros Hhash Hfu Hfe Hp Hu Hene He.
  unfold register. cbn [reg_username reg_email reg_password text].
  assert (Hune : u <> EmptyString) by (apply trim_nonempty; unfold cast_username in Hu; lia).
  assert (Heraw : e <> EmptyString) by (intros ->; now apply Hene).
  rewrite !falsy_text by assumption. cbn [orb].
  rewrite find_email_none, find_username_none by assumption.
  unfold save, validate, check. cbn [List.find fst snd].
  rewrite (nonempty_length (cast_username u)) by lia.
  assert (Hshort : at_least 3 (cast_username u) = false).
  { unfold at_least. apply Nat.leb_gt. lia. }
  rewrite Hshort. cbn [negb].
  assert (Hne : nonempty (cast_email e) = true).
  { unfold nonempty. apply negb_true_iff. now apply String.eqb_neq. }
  rewrite Hne, He. cbn [negb].
  rewrite (nonempty_length (hash p (salt env))), (at_least_true 6 (hash p (salt env)))
    by (rewrite Hhash; lia).
  reflexivity.
Qed.

Lemma validation_errors_are_joined_witness :
  register [ash] sample_env
    {| reg_username := Some "ab"; reg_email := Some "brock@kanto"; reg_password := Some "onix123" |}
  = ([ash], json 400
           (Obj [("message",
                  Str (utf8 "Le nom d'utilisateur doit contenir au moins 3 caractères"
                       ++ ", " ++ "Veuillez fournir une adresse email valide"))])).
Proof.
  apply (validation_errors_are_joined [ash] sample_env "ab" "brock@kanto" "onix123").
  - intros s t. apply pad_length.
  - intros d [<- | []]. discriminate.
  - intros d [<- | []]. discriminate.
  - discriminate.
  - cbn. lia.
  - discriminate.
  - reflexivity.
Defined.

(** X20.  The email pattern admits only letters, digits, [_], [.], [-]
    and [@]: an address holding any other character, such as the [+] of
    a tagged address, is refused with 400 and the message of the email
    validator, and nothing is stored. *)
Theorem other_characters_refused
        {bcrypt : Bcrypt} (db : users) (env : environment) (u e p : string) (c : ascii) :
  (forall s t, String.length (hash s t) = 60%nat) ->
  (forall d, In d db -> username d <> cast_username u) ->
  (forall d, In d db -> email d <> cast_email e) ->
  p <> EmptyString ->
  (3 <= String.length (cast_username u))%nat ->
  In c (list_ascii_of_string (cast_email e)) ->
  email_char c = false ->
  register db env {| reg_username := Some u; reg_email := Some e; reg_password := Some p |}
  = (db, json 400 (Obj [("message", Str "Veuillez fournir une adresse email valide")])).
Proof.
  intros Hhash Hfu Hfe Hp Hu Hin Hc.
  assert (Hm : matches email_pattern (cast_email e) = false).
  { destruct (matches email_pattern (cast_email e)) eqn:E; [| reflexivity].
    rewrite (matches_within email_char _ _ email_pattern_within E c Hin) in Hc.
    discriminate. }
  assert (Hcast : cast_email e <> EmptyString).
  { intros H. rewrite H in Hin. contradiction. }
  unfold register. cbn [reg_username reg_email reg_password text].
  assert (Hune : u <> EmptyString) by (apply trim_nonempty; unfold cast_username in Hu; lia).
  assert (Heraw : e <> EmptyString) by (intros ->; now apply Hcast).
  rewrite !falsy_text by assumption. cbn [orb].
  rewrite find_email_none, find_username_none by assumption.
  unfold save, validate, check. cbn [List.find fst snd].
  rewrite (nonempty_length (cast_username u)), (at_least_true 3 (cast_username u)) by lia.
  cbn [negb].
  assert (Hne : nonempty (cast_email e) = true).
  { unfold nonempty. apply negb_true_iff. now apply String.eqb_neq. }
  rewrite Hne, Hm. cbn [negb].
  rewrite (nonempty_length (hash p (salt env))), (at_least_true 6 (hash p (salt env)))
    by (rewrite Hhash; lia).
  reflexivity.
Qed.

Lemma other_characters_refused_witness :
  register [ash] sample_env
    {| reg_username := Some "brock"; reg_email := Some "brock+gym@kanto.org";
       reg_password := Some "onix123" |}
  = ([ash], json 400 (Obj [("message", Str "Veuillez fournir une adresse email valide")])).
Proof.
  apply (other_characters_refused [ash] sample_env "brock" "brock+gym@kanto.org" "onix123"
                                  "+"%char).
  - intros s t. apply pad_length.
  - intros d [<- | []]. discriminate.
  - intros d [<- | []]. discriminate.
  - discriminate.
  - cbn. lia.
  - cbn. tauto.
  - reflexivity.
Defined.

(** X21.  The presence check of the handler reads the field as sent, the
    schema reads it trimmed: a username made only of white space passes
    the handler's check and is then refused by the [required] validator,
    with 400 and that validator's message. *)
Theorem blank_username_refused_by_schema
        {bcrypt : Bcrypt} (db : users) (env : environment) (u e p : string) :
  (forall s t, String.length (hash s t) = 60%nat) ->
  u <> EmptyString ->
  cast_username u = EmptyString ->
  (forall d, In d db -> username d <> EmptyString) ->
  (forall d, In d db -> email d <> cast_email e) ->
  p <> EmptyString ->
  matches email_pattern (cast_email e) = true ->
  register db env {| reg_username := Some u; reg_email := Some e; reg_password := Some p |}
  = (db, json 400 (Obj [("message", Str "Le nom d'utilisateur est obligatoire")])).
Proof.
  intros Hhash Hu Hblank Hfu Hfe Hp He.
  unfold register. cbn [reg_username reg_email reg_password text].
  assert (Hene : e <> EmptyString) by (intros ->; discriminate He).
  rewrite !falsy_text by assumption. cbn [orb].
  rewrite find_email_none by assumption.
  rewrite find_username_none by (rewrite Hblank; assumption).
  unfold save, validate, check. rewrite Hblank. cbn [List.find fst snd nonempty String.eqb negb].
  assert (Hne : nonempty (cast_email e) = true).
  { unfold nonempty. apply negb_true_iff, String.eqb_neq. intros H. rewrite H in He.
    discriminate He. }
  rewrite Hne, He. cbn [negb].
  rewrite (nonempty_length (hash p (salt env))), (at_least_true 6 (hash p (salt env)))
    by (rewrite Hhash; lia).
  reflexivity.
Qed.

Lemma blank_username_refused_by_schema_witness :
  register [ash] sample_env
    {| reg_username := Some "   "; reg_email := Some "brock@kanto.org";
       reg_password := Some "onix123" |}
  = ([ash], json 400 (Obj [("message", Str "Le nom d'utilisateur est obligatoire")])).
Proof.
  apply (blank_username_refused_by_schema [ash] sample_env "   " "brock@kanto.org" "onix123").
  - intros s t. apply pad_length.
  - discriminate.
  - reflexivity.
  - intros d [<- | []]. discriminate.
  - intros d [<- | []]. discriminate.
  - discriminate.
  - reflexivity.
Defined.

(** X22.  Login looks the account up by the email as the schema casts
    it: two requests whose emails differ only in letter case or in
    surrounding white space, with the same password, get the same
    answer. *)
Theorem login_ignores_case_and_padding
        {bcrypt : Bcrypt} (db : users) (e1 e2 : string) (pw : option string) :
  e1 <> EmptyString -> e2 <> EmptyString ->
  cast_email e1 = cast_email e2 ->
  login db {| login_email := Some e1; login_password := pw |}
  = login db {| login_email := Some e2; login_password := pw |}.
Proof.
  intros H1 H2 Hc. unfold login, findOne_email.
  cbn [login_email login_password text].
  rewrite !falsy_text by assumption. now rewrite Hc.
Qed.

Lemma login_ignores_case_and_padding_witness :
  login [ash] {| login_email := Some " ASH@Kanto.org "; login_password := Some "pikachu1" |}
  = login [ash] {| login_email := Some "ash@kanto.org"; login_password := Some "pikachu1" |}.
Proof.
  apply (login_ignores_case_and_padding [ash] " ASH@Kanto.org " "ash@kanto.org").
  - discriminate.
  - discriminate.
  - reflexivity.
Defined.

End AuthMore.
